(** * BentoPDF: document manager, page selection, viewer and OCR controller

  A shallow embedding of the TypeScript sources

    - [state.ts]            (page selection),
    - [documentManager.ts]  (registry, undo/redo, export naming),
    - [viewer.ts]           (render-task tracking of [renderCurrentPage]),
    - [toolOperations.ts]   (the page loop of [ocr]),

  followed by the properties of these functions (Parts I and II), and of

    - [ribbon.ts]           (what [updateToolStates] reads),
    - [main.ts]             ([handleFiles]),
    - [toolOperations.ts]   (page rotation, [deletePages]),
    - [viewer.ts]           ([clearViewer], page navigation)

  with further properties of all of them (Parts III and IV).

  JavaScript objects that are mutated in place or shared between several
  owners (arrays, typed arrays, page records, documents) live in an explicit
  store and are named by locations; every [new], array literal, [slice],
  spread and [JSON.parse] allocates a fresh location.  External libraries
  (pdf-lib, pdf.js, the recognition engine) are interfaces. *)

From Stdlib Require Import ZArith Lia.
From Stdlib Require Import Strings.Byte Strings.Ascii.
From stdpp Require Import base tactics option list sorting gmap strings pretty.

#[local] Open Scope Z_scope.

(** Locations of the JavaScript heap. *)
Abbreviation loc := nat (only parsing).

(* ===================================================================== *)
(** * Part I: the model                                                   *)
(* ===================================================================== *)

(** ** state.ts *)
Module State.

(** [AppState]; the legacy fields of type [any]/[File] play no role in the
    selection functions and are left out.  [selectedPageIndices] is a
    reference to a [number[]] held in [numArrs]. *)
Record AppState := mkAppState {
  numArrs : gmap loc (list Z);
  nextLoc : loc;
  activeRibbonTab : string;
  isProcessing : bool;
  selectedPageIndices : loc
}.

(** A reference in a JavaScript heap always resolves; the default is only
    met on stores that no program run produces. *)
Definition readArr (s : AppState) (a : loc) : list Z :=
  default [] (numArrs s !! a).

Definition writeArr (s : AppState) (a : loc) (l : list Z) : AppState :=
  {| numArrs := <[a := l]> (numArrs s);
     nextLoc := nextLoc s;
     activeRibbonTab := activeRibbonTab s;
     isProcessing := isProcessing s;
     selectedPageIndices := selectedPageIndices s |}.

(** Allocation of a new array object. *)
Definition allocArr (s : AppState) (l : list Z) : AppState * loc :=
  ({| numArrs := <[nextLoc s := l]> (numArrs s);
      nextLoc := S (nextLoc s);
      activeRibbonTab := activeRibbonTab s;
      isProcessing := isProcessing s;
      selectedPageIndices := selectedPageIndices s |}, nextLoc s).

Definition setSelected (s : AppState) (a : loc) : AppState :=
  {| numArrs := numArrs s;
     nextLoc := nextLoc s;
     activeRibbonTab := activeRibbonTab s;
     isProcessing := isProcessing s;
     selectedPageIndices := a |}.

(** [export const state = { activeRibbonTab: 'home', isProcessing: false,
    selectedPageIndices: [], ... }] *)
Definition state : AppState :=
  {| numArrs := {[ 0%nat := [] ]};
     nextLoc := 1%nat;
     activeRibbonTab := "home";
     isProcessing := false;
     selectedPageIndices := 0%nat |}.

(** The stored selection, read through the reference. *)
Definition selection (s : AppState) : list Z :=
  readArr s (selectedPageIndices s).

(** [Array.prototype.includes] on numbers. *)
Definition includes (l : list Z) (x : Z) : bool := bool_decide (x ∈ l).

(** [Array.prototype.indexOf]: first position, or -1. *)
Fixpoint indexOfFrom (l : list Z) (x : Z) (i : Z) : Z :=
  match l with
  | [] => -1
  | y :: l' => if decide (y = x) then i else indexOfFrom l' x (i + 1)
  end.
Definition indexOf (l : list Z) (x : Z) : Z := indexOfFrom l x 0.

(** [arr.sort((a, b) => a - b)]: the ascending arrangement of the array. *)
Definition sortAscending (l : list Z) : list Z := merge_sort Z.le l.

(** [selectPage]: push and sort, both in place, when not yet included. *)
Definition selectPage (index : Z) (s : AppState) : AppState :=
  let a := selectedPageIndices s in
  if negb (includes (readArr s a) index) then
    let s1 := writeArr s a (readArr s a ++ [index]) in
    writeArr s1 a (sortAscending (readArr s1 a))
  else s.

(** [deselectPage]: [splice(idx, 1)] in place. *)
Definition deselectPage (index : Z) (s : AppState) : AppState :=
  let a := selectedPageIndices s in
  let idx := indexOf (readArr s a) index in
  if negb (idx =? -1) then
    writeArr s a (delete (Z.to_nat idx) (readArr s a))
  else s.

Definition togglePageSelection (index : Z) (s : AppState) : AppState :=
  if includes (selection s) index then deselectPage index s
  else selectPage index s.

(** [Array.from({ length: count }, (_, i) => i)] is a new array; a
    non-positive length gives the empty array. *)
Definition selectAllPages (count : Z) (s : AppState) : AppState :=
  let '(s1, a) := allocArr s (seqZ 0 count) in
  setSelected s1 a.

Definition clearPageSelection (s : AppState) : AppState :=
  let '(s1, a) := allocArr s [] in
  setSelected s1 a.

(** [return [...state.selectedPageIndices]]: a new array object. *)
Definition getSelectedPages (s : AppState) : AppState * loc :=
  allocArr s (selection s).

Definition isPageSelected (index : Z) (s : AppState) : bool :=
  includes (selection s) index.

(** The selection operations as commands. *)
Inductive SelectionOp :=
| SelectPage (index : Z)
| DeselectPage (index : Z)
| TogglePageSelection (index : Z)
| SelectAllPages (count : Z)
| ClearPageSelection.

Definition runOp (op : SelectionOp) (s : AppState) : AppState :=
  match op with
  | SelectPage i => selectPage i s
  | DeselectPage i => deselectPage i s
  | TogglePageSelection i => togglePageSelection i s
  | SelectAllPages n => selectAllPages n s
  | ClearPageSelection => clearPageSelection s
  end.

Definition runOps (ops : list SelectionOp) (s : AppState) : AppState :=
  foldl (fun st op => runOp op st) s ops.

(** Ascending and without duplicates. *)
Definition ascendingNoDup (l : list Z) : Prop := Sorted Z.le l ∧ NoDup l.

End State.

(** ** documentManager.ts *)
Module DocumentManager.

(** *** External libraries *)

(** pdf-lib: [PDFDocument.load] rejects bytes it cannot parse. *)
Class PdfLib := {
  PDFDocument : Type;
  PDFDocument_load : list byte → option PDFDocument;
  getPageCount : PDFDocument → nat
}.

(** pdf.js: [getDocument({ data }).promise] rejects unreadable bytes. *)
Class PdfJs := {
  PDFDocumentProxy : Type;
  getDocument : list byte → option PDFDocumentProxy
}.

(** *** Types *)

Record PageData := mkPageData {
  page_id : string;
  pageIndex : Z;
  rotation : Z;
  deleted : bool
}.

(** [DocumentSnapshot]: both fields are references. *)
Record DocumentSnapshot := mkSnapshot {
  pagesData : loc;
  snap_pdfBytes : loc
}.

Section Manager.
Context `{PdfLib} `{PdfJs}.

Record Document := mkDocument {
  id : string;
  fileName : string;
  pdfBytes : loc;
  pdfDoc : option PDFDocument;
  pdfJsDoc : option PDFDocumentProxy;
  pageData : loc;
  undoStack : list DocumentSnapshot;
  redoStack : list DocumentSnapshot;
  isDirty : bool;
  currentPage : Z
}.

Definition set_pdfBytes (b : loc) (d : Document) : Document :=
  mkDocument (id d) (fileName d) b (pdfDoc d) (pdfJsDoc d) (pageData d)
             (undoStack d) (redoStack d) (isDirty d) (currentPage d).
Definition set_pdfDoc (p : option PDFDocument) (d : Document) : Document :=
  mkDocument (id d) (fileName d) (pdfBytes d) p (pdfJsDoc d) (pageData d)
             (undoStack d) (redoStack d) (isDirty d) (currentPage d).
Definition set_pdfJsDoc (p : option PDFDocumentProxy) (d : Document) : Document :=
  mkDocument (id d) (fileName d) (pdfBytes d) (pdfDoc d) p (pageData d)
             (undoStack d) (redoStack d) (isDirty d) (currentPage d).
Definition set_pageData (a : loc) (d : Document) : Document :=
  mkDocument (id d) (fileName d) (pdfBytes d) (pdfDoc d) (pdfJsDoc d) a
             (undoStack d) (redoStack d) (isDirty d) (currentPage d).
Definition set_undoStack (u : list DocumentSnapshot) (d : Document) : Document :=
  mkDocument (id d) (fileName d) (pdfBytes d) (pdfDoc d) (pdfJsDoc d) (pageData d)
             u (redoStack d) (isDirty d) (currentPage d).
Definition set_redoStack (r : list DocumentSnapshot) (d : Document) : Document :=
  mkDocument (id d) (fileName d) (pdfBytes d) (pdfDoc d) (pdfJsDoc d) (pageData d)
             (undoStack d) r (isDirty d) (currentPage d).
Definition set_isDirty (b : bool) (d : Document) : Document :=
  mkDocument (id d) (fileName d) (pdfBytes d) (pdfDoc d) (pdfJsDoc d) (pageData d)
             (undoStack d) (redoStack d) b (currentPage d).

(** *** The heap *)

Record Heap := mkHeap {
  pageObjs : gmap loc PageData;       (* PageData objects *)
  pageArrs : gmap loc (list loc);     (* PageData[] arrays *)
  byteBufs : gmap loc (list byte);    (* Uint8Array objects *)
  docObjs : gmap loc Document;        (* Document objects *)
  nextLoc : loc
}.

(** What the module does to the outside world. *)
Inductive Effect :=
| RenderTabs
| UpdateToolStates
| RefreshViewer
| ClearViewer
| UpdateDirtyIndicators
| Destroy (p : PDFDocumentProxy)
| Download (name : string) (content : list byte).

(** Module state: [documents], [activeDocIndex], [tabIdCounter], the heap,
    and the trace of outside calls (oldest first). *)
Record State := mkState {
  heap : Heap;
  documents : list loc;
  activeDocIndex : Z;
  tabIdCounter : nat;
  effects : list Effect
}.

Definition set_heap (h : Heap) (s : State) : State :=
  mkState h (documents s) (activeDocIndex s) (tabIdCounter s) (effects s).
Definition set_documents (l : list loc) (s : State) : State :=
  mkState (heap s) l (activeDocIndex s) (tabIdCounter s) (effects s).
Definition set_activeDocIndex (i : Z) (s : State) : State :=
  mkState (heap s) (documents s) i (tabIdCounter s) (effects s).
Definition set_tabIdCounter (n : nat) (s : State) : State :=
  mkState (heap s) (documents s) (activeDocIndex s) n (effects s).
Definition emit (e : Effect) (s : State) : State :=
  mkState (heap s) (documents s) (activeDocIndex s) (tabIdCounter s)
          (effects s ++ [e]).

(** [const documents = []; let activeDocIndex = -1; let tabIdCounter = 0]. *)
Definition initial : State :=
  mkState (mkHeap ∅ ∅ ∅ ∅ 0%nat) [] (-1) 0%nat [].

(** Reads.  References always resolve in a JavaScript heap; the defaults
    are only met on stores that no run produces. *)
Definition readBytes (h : Heap) (b : loc) : list byte :=
  default [] (byteBufs h !! b).
Definition readArr (h : Heap) (a : loc) : list loc :=
  default [] (pageArrs h !! a).
Definition readPages (h : Heap) (a : loc) : list PageData :=
  omap (λ l, pageObjs h !! l) (readArr h a).

(** Allocation and in-place writes. *)
Definition allocBuf (h : Heap) (bs : list byte) : Heap * loc :=
  (mkHeap (pageObjs h) (pageArrs h) (<[nextLoc h := bs]> (byteBufs h))
          (docObjs h) (S (nextLoc h)), nextLoc h).
Definition allocPage (h : Heap) (p : PageData) : Heap * loc :=
  (mkHeap (<[nextLoc h := p]> (pageObjs h)) (pageArrs h) (byteBufs h)
          (docObjs h) (S (nextLoc h)), nextLoc h).
Definition allocArr (h : Heap) (ls : list loc) : Heap * loc :=
  (mkHeap (pageObjs h) (<[nextLoc h := ls]> (pageArrs h)) (byteBufs h)
          (docObjs h) (S (nextLoc h)), nextLoc h).
Definition allocDoc (h : Heap) (d : Document) : Heap * loc :=
  (mkHeap (pageObjs h) (pageArrs h) (byteBufs h)
          (<[nextLoc h := d]> (docObjs h)) (S (nextLoc h)), nextLoc h).
Definition writeArr (h : Heap) (a : loc) (ls : list loc) : Heap :=
  mkHeap (pageObjs h) (<[a := ls]> (pageArrs h)) (byteBufs h) (docObjs h)
         (nextLoc h).
Definition writeDoc (h : Heap) (d : loc) (doc : Document) : Heap :=
  mkHeap (pageObjs h) (pageArrs h) (byteBufs h) (<[d := doc]> (docObjs h))
         (nextLoc h).
Definition writePage (h : Heap) (l : loc) (p : PageData) : Heap :=
  mkHeap (<[l := p]> (pageObjs h)) (pageArrs h) (byteBufs h) (docObjs h)
         (nextLoc h).
Definition writeBytes (h : Heap) (b : loc) (bs : list byte) : Heap :=
  mkHeap (pageObjs h) (pageArrs h) (<[b := bs]> (byteBufs h)) (docObjs h)
         (nextLoc h).

(** [arr.push({ ... })]: a new object, appended in place. *)
Definition pushPage (a : loc) (h : Heap) (p : PageData) : Heap :=
  let '(h1, l) := allocPage h p in
  writeArr h1 a (readArr h1 a ++ [l]).

(** A new array filled by successive pushes. *)
Definition newPageArray (h : Heap) (ps : list PageData) : Heap * loc :=
  let '(h1, a) := allocArr h [] in
  (foldl (pushPage a) h1 ps, a).

(** *** Control: state and exceptions *)

Inductive Exn :=
| LoadRejected          (* PDFDocument.load rejected *)
| GetDocumentRejected   (* pdfjsLib.getDocument rejected *)
| TypeError.            (* property access on a missing object *)

Inductive Outcome (A : Type) :=
| Returned (s : State) (a : A)
| Threw (s : State) (e : Exn).
Arguments Returned {A} s a.
Arguments Threw {A} s e.

Definition M (A : Type) : Type := State → Outcome A.

#[export] Instance M_ret : MRet M := λ A a s, Returned s a.
#[export] Instance M_bind : MBind M := λ A B k m s,
  match m s with
  | Returned s' a => k a s'
  | Threw s' e => Threw s' e
  end.

Definition throw {A} (e : Exn) : M A := λ s, Threw s e.
Definition gets {A} (f : State → A) : M A := λ s, Returned s (f s).
Definition modify (f : State → State) : M unit := λ s, Returned (f s) tt.

(** Run a heap allocation inside the state. *)
Definition alloc {A} (f : Heap → Heap * A) : M A := λ s,
  let '(h, a) := f (heap s) in Returned (set_heap h s) a.

(** Awaiting a library promise: a rejection is thrown. *)
Definition await {A} (e : Exn) (r : option A) : M A :=
  match r with Some a => mret a | None => throw e end.

(** Field access on a document object. *)
Definition getDoc (d : loc) : M Document := λ s,
  match docObjs (heap s) !! d with
  | Some doc => Returned s doc
  | None => Threw s TypeError
  end.
Definition updDoc (d : loc) (f : Document → Document) : M unit :=
  doc ← getDoc d;
  modify (λ s, set_heap (writeDoc (heap s) d (f doc)) s).

(** [JSON.parse(JSON.stringify(arr))] on a [PageData[]]: a new array of
    new objects with the same field values. *)
Definition jsonClone (a : loc) : M loc :=
  alloc (λ h, newPageArray h (readPages h a)).

(** [new Uint8Array(src)] and [src.slice()]: a new buffer, same bytes. *)
Definition copyBytes (b : loc) : M loc :=
  alloc (λ h, allocBuf h (readBytes h b)).

(** [doc.pdfJsDoc?.destroy()] *)
Definition destroyProxy (p : option PDFDocumentProxy) : M unit :=
  match p with
  | Some pj => modify (emit (Destroy pj))
  | None => mret tt
  end.


(** *** Callbacks and DOM updates, recorded in the trace *)
Definition renderTabs : M unit := modify (emit RenderTabs).
Definition updateToolStatesFn : M unit := modify (emit UpdateToolStates).
Definition refreshViewerFn : M unit := modify (emit RefreshViewer).
Definition clearViewerFn : M unit := modify (emit ClearViewer).
Definition updateDirtyIndicators : M unit := modify (emit UpdateDirtyIndicators).

(** *** Document operations *)

(** The page records built by the two [for] loops. *)
Definition freshPages (mkId : nat → string) (pageCount : nat) : list PageData :=
  (λ i, mkPageData (mkId i) (Z.of_nat i) 0 false) <$> seq 0 pageCount.

Definition createDocumentFromBytes (bytes : loc) (fileName : string) : M loc :=
  bs ← gets (λ s, readBytes (heap s) bytes);
  pdfDoc ← await LoadRejected (PDFDocument_load bs);
  copy ← copyBytes bytes;
  cbs ← gets (λ s, readBytes (heap s) copy);
  pdfJsDoc ← await GetDocumentRejected (getDocument cbs);
  let pageCount := getPageCount pdfDoc in
  n ← gets tabIdCounter;
  pageData ← alloc (λ h, newPageArray h
    (freshPages (λ i, "page-" +:+ pretty n +:+ "-" +:+ pretty i) pageCount));
  modify (set_tabIdCounter (S n));;
  doc ← alloc (λ h, allocDoc h
    (mkDocument ("doc-" +:+ pretty (S n)) fileName bytes (Some pdfDoc)
                (Some pdfJsDoc) pageData [] [] false 1));
  modify (λ s, set_documents (documents s ++ [doc]) s);;
  modify (λ s, set_activeDocIndex (Z.of_nat (length (documents s)) - 1) s);;
  renderTabs;;
  updateToolStatesFn;;
  refreshViewerFn;;
  mret doc.

(** A [File]: its name and the bytes [file.arrayBuffer()] yields. *)
Record File := mkFile { name : string; content : list byte }.

Definition openDocument (file : File) : M loc :=
  bytes ← alloc (λ h, allocBuf h (content file));
  createDocumentFromBytes bytes (name file).

(** [documents.findIndex(d => d.id === docId)]: first position, or -1. *)
Fixpoint findIndexFrom (h : Heap) (docs : list loc) (docId : string) (i : Z) : Z :=
  match docs with
  | [] => -1
  | d :: docs' =>
      match docObjs h !! d with
      | Some doc =>
          if decide (id doc = docId) then i
          else findIndexFrom h docs' docId (i + 1)
      | None => findIndexFrom h docs' docId (i + 1)
      end
  end.
Definition findIndex (s : State) (docId : string) : Z :=
  findIndexFrom (heap s) (documents s) docId 0.

(** The shared tail of [closeDocument] and [forceCloseDocument], from
    [documents.splice(index, 1)] on. *)
Definition removeAt (index : Z) : M unit :=
  modify (λ s, set_documents (delete (Z.to_nat index) (documents s)) s);;
  len ← gets (λ s, Z.of_nat (length (documents s)));
  active ← gets activeDocIndex;
  (if decide (len = 0) then
     modify (set_activeDocIndex (-1));; clearViewerFn
   else if decide (active >= len) then
     modify (set_activeDocIndex (len - 1))
   else if decide (active > index) then
     modify (set_activeDocIndex (active - 1))
   else mret tt);;
  renderTabs;;
  updateToolStatesFn;;
  active' ← gets activeDocIndex;
  (if decide (active' >= 0) then refreshViewerFn else mret tt).

Definition closeDocument (docId : string) : M bool :=
  index ← gets (λ s, findIndex s docId);
  if decide (index = -1) then mret false
  else
    od ← gets (λ s, documents s !! Z.to_nat index);
    match od with
    | None => throw TypeError
    | Some d =>
        doc ← getDoc d;
        if isDirty doc then mret false
        else
          destroyProxy (pdfJsDoc doc);;
          removeAt index;;
          mret true
    end.

Definition forceCloseDocument (docId : string) : M unit :=
  index ← gets (λ s, findIndex s docId);
  if decide (index = -1) then mret tt
  else
    od ← gets (λ s, documents s !! Z.to_nat index);
    match od with
    | None => throw TypeError
    | Some d =>
        doc ← getDoc d;
        destroyProxy (pdfJsDoc doc);;
        removeAt index
    end.

Definition switchToDocument (docId : string) : M unit :=
  index ← gets (λ s, findIndex s docId);
  active ← gets activeDocIndex;
  if decide (index ≠ -1 ∧ index ≠ active) then
    modify (set_activeDocIndex index);;
    renderTabs;;
    updateToolStatesFn;;
    refreshViewerFn
  else mret tt.

(** [activeDocIndex >= 0 ? documents[activeDocIndex] : null]; an index
    past the end reads [undefined], which callers treat like [null]. *)
Definition getActiveDocument (s : State) : option loc :=
  if decide (activeDocIndex s >= 0) then documents s !! Z.to_nat (activeDocIndex s)
  else None.

Definition hasAnyDocument (s : State) : bool :=
  bool_decide (0 < length (documents s))%nat.

(** *** Undo / redo *)

Definition pushUndoState (doc : loc) : M unit :=
  d0 ← getDoc doc;
  pages ← jsonClone (pageData d0);
  bytes ← copyBytes (pdfBytes d0);
  updDoc doc (λ d, set_undoStack (undoStack d ++ [mkSnapshot pages bytes]) d);;
  updDoc doc (set_redoStack []);;
  updDoc doc (set_isDirty true);;
  updateToolStatesFn;;
  updateDirtyIndicators.

(** The reload shared by [undo], [redo] and [updateDocumentBytes]:
    [doc.pdfDoc = await PDFDocument.load(b); doc.pdfJsDoc?.destroy();
     doc.pdfJsDoc = await getDocument({ data: b.slice() }).promise]. *)
Definition reload (doc : loc) (b : loc) : M PDFDocument :=
  bs ← gets (λ s, readBytes (heap s) b);
  pd ← await LoadRejected (PDFDocument_load bs);
  updDoc doc (set_pdfDoc (Some pd));;
  d1 ← getDoc doc;
  destroyProxy (pdfJsDoc d1);;
  copy ← copyBytes b;
  cbs ← gets (λ s, readBytes (heap s) copy);
  pj ← await GetDocumentRejected (getDocument cbs);
  updDoc doc (set_pdfJsDoc (Some pj));;
  mret pd.

Definition undo : M bool :=
  od ← gets getActiveDocument;
  match od with
  | None => mret false
  | Some doc =>
      d0 ← getDoc doc;
      match last (undoStack d0) with
      | None => mret false                 (* undoStack.length === 0 *)
      | Some snapshot =>
          pages ← jsonClone (pageData d0);
          bytes ← copyBytes (pdfBytes d0);
          updDoc doc (λ d, set_redoStack (redoStack d ++ [mkSnapshot pages bytes]) d);;
          updDoc doc (λ d, set_undoStack (removelast (undoStack d)) d);;
          updDoc doc (set_pageData (pagesData snapshot));;
          updDoc doc (set_pdfBytes (snap_pdfBytes snapshot));;
          reload doc (snap_pdfBytes snapshot);;
          updateToolStatesFn;;
          refreshViewerFn;;
          mret true
      end
  end.

Definition redo : M bool :=
  od ← gets getActiveDocument;
  match od with
  | None => mret false
  | Some doc =>
      d0 ← getDoc doc;
      match last (redoStack d0) with
      | None => mret false                 (* redoStack.length === 0 *)
      | Some snapshot =>
          pages ← jsonClone (pageData d0);
          bytes ← copyBytes (pdfBytes d0);
          updDoc doc (λ d, set_undoStack (undoStack d ++ [mkSnapshot pages bytes]) d);;
          updDoc doc (λ d, set_redoStack (removelast (redoStack d)) d);;
          updDoc doc (set_pageData (pagesData snapshot));;
          updDoc doc (set_pdfBytes (snap_pdfBytes snapshot));;
          reload doc (snap_pdfBytes snapshot);;
          updateToolStatesFn;;
          refreshViewerFn;;
          mret true
      end
  end.

(** *** Document modification *)

(** [clock i] is the value of [Date.now()] read in iteration [i] of the
    loop that rebuilds the page records. *)
Definition updateDocumentBytes (clock : nat → N) (doc newBytes : loc) : M unit :=
  pushUndoState doc;;
  updDoc doc (set_pdfBytes newBytes);;
  pd ← reload doc newBytes;
  let newPageCount := getPageCount pd in
  d2 ← getDoc doc;
  live ← gets (λ s, length (filter (λ p, deleted p = false)
                                   (readPages (heap s) (pageData d2))));
  (if decide (newPageCount ≠ live) then
     a ← alloc (λ h, allocArr h []);
     updDoc doc (set_pageData a);;
     modify (λ s, set_heap
       (foldl (pushPage a) (heap s)
          (freshPages (λ i, "page-" +:+ id d2 +:+ "-" +:+ pretty i +:+ "-"
                              +:+ pretty (clock i)) newPageCount)) s)
   else mret tt);;
  refreshViewerFn.

(** toolOperations.ts, [savePdfDocToActive]: [saved] is the result of
    [pdfDoc.save()], wrapped in a new [Uint8Array]. *)
Definition savePdfDocToActive (clock : nat → N) (doc : loc) (saved : list byte)
  : M unit :=
  newBytes ← alloc (λ h, allocBuf h saved);
  updateDocumentBytes clock doc newBytes.

Definition markDocumentClean (doc : loc) : M unit :=
  updDoc doc (set_isDirty false);;
  updateDirtyIndicators.


(** *** Download *)

(** File names are modelled as strings of 8-bit code units; only the
    ASCII letters have case mappings, which is all the reserved device
    names need. *)

(** The class [[<>:.../\|?*]] of the first [replace]: the characters with
    codes 60, 62, 58, 34, 47, 92, 124, 63 and 42. *)
Definition reservedChar (c : ascii) : bool :=
  bool_decide (nat_of_ascii c ∈ [60; 62; 58; 34; 47; 92; 124; 63; 42]%nat).

Fixpoint replaceReserved (s : string) : string :=
  match s with
  | EmptyString => EmptyString
  | String c r =>
      String (if reservedChar c then "_"%char else c) (replaceReserved r)
  end.

Definition upperChar (c : ascii) : ascii :=
  let n := nat_of_ascii c in
  if bool_decide (97 ≤ n ≤ 122)%nat then ascii_of_nat (n - 32) else c.

(** [String.prototype.toUpperCase] *)
Fixpoint toUpperCase (s : string) : string :=
  match s with
  | EmptyString => EmptyString
  | String c r => String (upperChar c) (toUpperCase r)
  end.

(** [.replace(/\.pdf$/i, '')]: drop one trailing [.pdf], any letter case. *)
Definition removePdfSuffix (s : string) : string :=
  match String.rev s with
  | String f (String d (String p (String dot rest))) =>
      if bool_decide (dot = "."%char ∧ upperChar p = "P"%char ∧
                      upperChar d = "D"%char ∧ upperChar f = "F"%char)
      then String.rev rest else s
  | _ => s
  end.

(** White space and line terminators below code 256. *)
Definition isWhiteSpace (c : ascii) : bool :=
  bool_decide (nat_of_ascii c ∈ [9; 10; 11; 12; 13; 32; 160]%nat).

Fixpoint trimStart (s : string) : string :=
  match s with
  | EmptyString => EmptyString
  | String c r => if isWhiteSpace c then trimStart r else s
  end.

(** [String.prototype.trim] *)
Definition trim (s : string) : string :=
  String.rev (trimStart (String.rev (trimStart s))).

Definition reservedNames : list string :=
  ["CON"; "PRN"; "AUX"; "NUL";
   "COM1"; "COM2"; "COM3"; "COM4"; "COM5"; "COM6"; "COM7"; "COM8"; "COM9";
   "LPT1"; "LPT2"; "LPT3"; "LPT4"; "LPT5"; "LPT6"; "LPT7"; "LPT8"; "LPT9"].

Definition sanitizedBase (fileName : string) : string :=
  trim (removePdfSuffix (replaceReserved fileName)).

(** [now] is the value of [Date.now()]. *)
Definition safeBaseName (now : N) (fileName : string) : string :=
  let sb := sanitizedBase fileName in
  if bool_decide (sb ≠ "") && negb (bool_decide (toUpperCase sb ∈ reservedNames))
  then sb
  else "document-" +:+ pretty now.

(** The value assigned to [a.download]. *)
Definition downloadName (now : N) (fileName : string) : string :=
  safeBaseName now fileName +:+ "_edited.pdf".

(** The earlier copy of the module names the file
    [doc.fileName.replace(/\.pdf$/i, '') + '_edited.pdf']. *)
Definition downloadName_earlier (fileName : string) : string :=
  removePdfSuffix fileName +:+ "_edited.pdf".

Definition downloadActiveDocument (now : N) : M unit :=
  od ← gets getActiveDocument;
  match od with
  | None => mret tt
  | Some doc =>
      d ← getDoc doc;
      blob ← copyBytes (pdfBytes d);
      content ← gets (λ s, readBytes (heap s) blob);
      modify (emit (Download (downloadName now (fileName d)) content));;
      markDocumentClean doc
  end.

End Manager.

Arguments Returned {_ _ A} s a.
Arguments Threw {_ _ A} s e.
End DocumentManager.

(** ** viewer.ts: [renderCurrentPage] and the tracked render task *)
Module Viewer.

(** *** pdf.js render tasks *)

(** A task runs until it paints the canvas, fails, or is cancelled. *)
Inductive TaskStatus :=
| Running
| Cancelled
| Painted
| Failed (err : string).

(** Settlement of a promise; a rejection carries [String(err)]. *)
Inductive Settlement :=
| Fulfilled
| RejectedWith (err : string).

Inductive Event :=
| GetPage (pageNumber : Z)
| CancelCalled (task : nat)
| RenderStarted (task : nat)
| ConsoleError (msg : string).

(** Module state of viewer.ts together with the canvas and the tasks
    pdf.js has created: [tasks !! t] is the status of task [t], [canvas]
    names the task whose output the canvas shows. *)
Record ViewerState := mkViewer {
  currentRenderTask : option nat;
  tasks : list TaskStatus;
  canvas : option nat;
  events : list Event
}.

Definition set_current (c : option nat) (s : ViewerState) : ViewerState :=
  mkViewer c (tasks s) (canvas s) (events s).
Definition set_tasks (ts : list TaskStatus) (s : ViewerState) : ViewerState :=
  mkViewer (currentRenderTask s) ts (canvas s) (events s).
Definition set_canvas (c : option nat) (s : ViewerState) : ViewerState :=
  mkViewer (currentRenderTask s) (tasks s) c (events s).
Definition record (e : Event) (s : ViewerState) : ViewerState :=
  mkViewer (currentRenderTask s) (tasks s) (canvas s) (events s ++ [e]).

Definition idle : ViewerState := mkViewer None [] None [].

(** [String(err)] of the [RenderingCancelledException] pdf.js rejects a
    cancelled task with. *)
Definition cancelledMessage : string :=
  "RenderingCancelledException: Rendering cancelled".

(** [RenderTask.cancel()]: only a running task changes. *)
Definition cancelTask (t : nat) (s : ViewerState) : ViewerState :=
  let s' := record (CancelCalled t) s in
  match tasks s !! t with
  | Some Running => set_tasks (<[t := Cancelled]> (tasks s)) s'
  | _ => s'
  end.

(** [page.render(...)]: a new running task. *)
Definition startRender (s : ViewerState) : ViewerState * nat :=
  let t := length (tasks s) in
  (record (RenderStarted t) (set_tasks (tasks s ++ [Running]) s), t).

(** How pdf.js settles [renderTask.promise].  A running task either
    paints the canvas ([failure = None]) or fails with [failure]; a
    cancelled task paints nothing and rejects with the cancellation
    exception. *)
Definition settleTask (t : nat) (failure : option string) (s : ViewerState)
  : ViewerState * Settlement :=
  match tasks s !! t with
  | Some Running =>
      match failure with
      | None => (set_canvas (Some t) (set_tasks (<[t := Painted]> (tasks s)) s),
                 Fulfilled)
      | Some e => (set_tasks (<[t := Failed e]> (tasks s)) s, RejectedWith e)
      end
  | Some Cancelled => (s, RejectedWith cancelledMessage)
  | Some Painted => (s, Fulfilled)
  | Some (Failed e) => (s, RejectedWith e)
  | None => (s, RejectedWith "TypeError")
  end.

(** *** [/cancel/i.test(String(err))] *)

Definition lowerChar (c : ascii) : ascii :=
  let n := nat_of_ascii c in
  if bool_decide (65 ≤ n ≤ 90)%nat then ascii_of_nat (n + 32) else c.

Fixpoint prefixCI (p s : string) : bool :=
  match p, s with
  | EmptyString, _ => true
  | String _ _, EmptyString => false
  | String a p', String b s' =>
      bool_decide (lowerChar a = lowerChar b) && prefixCI p' s'
  end.

Fixpoint containsCI (p s : string) : bool :=
  prefixCI p s ||
  match s with
  | EmptyString => false
  | String _ s' => containsCI p s'
  end.

Definition isCancel (err : string) : bool := containsCI "cancel" err.

(** *** The async function as a resumable computation *)

(** An [async] function runs until its next [await], where it hands back
    a continuation for the awaited result. *)
#[local] Unset Elimination Schemes.
Inductive Async :=
| Settled (r : Settlement)
| AwaitGetPage (pageNumber : Z)
    (k : Settlement → ViewerState → ViewerState * Async)
| AwaitRender (task : nat)
    (k : Settlement → ViewerState → ViewerState * Async).
#[local] Set Elimination Schemes.

(** What the function reads from the DOM and from [doc]. *)
Record RenderEnv := mkRenderEnv {
  hasCanvas : bool;      (* getElementById('viewer-canvas') *)
  hasPdfJsDoc : bool;    (* doc.pdfJsDoc *)
  currentPage : Z;       (* doc.currentPage *)
  hasContext : bool      (* canvas.getContext('2d') *)
}.

(** The outer [catch (error) { console.error(...) }]. *)
Definition outerCatch (err : string) (s : ViewerState) : ViewerState * Async :=
  (record (ConsoleError ("Error rendering page: " +:+ err)) s,
   Settled Fulfilled).

(** From [await renderTask.promise] to the end of the function. *)
Definition afterRender (r : Settlement) (s : ViewerState) : ViewerState * Async :=
  match r with
  | Fulfilled =>
      (set_current None s, Settled Fulfilled)          (* finally *)
  | RejectedWith err =>
      if isCancel err then
        (set_current None s, Settled Fulfilled)        (* ignored; finally *)
      else
        outerCatch err (set_current None s)            (* throw err; finally *)
  end.

(** From the result of [getPage] to [await renderTask.promise]. *)
Definition afterGetPage (env : RenderEnv) (r : Settlement) (s : ViewerState)
  : ViewerState * Async :=
  match r with
  | RejectedWith err => outerCatch err s
  | Fulfilled =>
      let s1 := set_canvas None s in                   (* canvas.width = ... *)
      if negb (hasContext env) then (s1, Settled Fulfilled)
      else
        let s2 := match currentRenderTask s1 with
                  | Some t => cancelTask t s1
                  | None => s1
                  end in
        let '(s3, t) := startRender s2 in
        let s4 := set_current (Some t) s3 in
        (s4, AwaitRender t afterRender)
  end.

Definition renderCurrentPage (env : RenderEnv) (s : ViewerState)
  : ViewerState * Async :=
  if negb (hasCanvas env) || negb (hasPdfJsDoc env) then (s, Settled Fulfilled)
  else
    (record (GetPage (currentPage env)) s,
     AwaitGetPage (currentPage env) (afterGetPage env)).

(** Resuming a suspended call with the settlement of what it awaits. *)
Definition resume (a : Async) (r : Settlement) (s : ViewerState)
  : ViewerState * Async :=
  match a with
  | Settled r' => (s, Settled r')
  | AwaitGetPage _ k => k r s
  | AwaitRender _ k => k r s
  end.

(** pdf.js settles the task a call awaits, and the call resumes. *)
Definition settleAndResume (a : Async) (failure : option string)
  (s : ViewerState) : ViewerState * Async :=
  match a with
  | AwaitRender t k => let '(s1, r) := settleTask t failure s in k r s1
  | _ => (s, a)
  end.

(** The promise of the call has settled with [r]. *)
Definition settledWith (a : Async) (r : Settlement) : Prop := a = Settled r.

End Viewer.

(** ** toolOperations.ts: the page loop of [ocr] *)
Module ToolOperations.

(** What happens to one page inside the inner [try]. *)
Inductive PageRun :=
| RenderFails                          (* getPage or page.render rejects *)
| NoContext                            (* off.getContext('2d') is null: continue *)
| Recognized (progress : list Z) (text : string)
| RecognitionFails (progress : list Z).

Inductive ModalCall :=
| Submit (pageNum : Z)                 (* the page image goes to the engine *)
| UpdateProgress (percent : Z)
| UpdateText (text : string).

Definition nl : string := String (ascii_of_nat 10) EmptyString.

(** [`--- Page ${pageNum} ---\n`] *)
Definition header (pageNum : Z) : string :=
  "--- Page " +:+ pretty pageNum +:+ " ---" +:+ nl.

(** [selected.length ? selected.map(i => i + 1) : [doc.currentPage]] *)
Definition ocrTargets (selected : list Z) (currentPage : Z) : list Z :=
  match selected with
  | [] => [currentPage]
  | _ => (λ i, i + 1) <$> selected
  end.

(** One iteration after the [if (cancelled) break] test. *)
Definition ocrPage (engine : Z → PageRun) (pageNum : Z)
  (st : string * list ModalCall) : string * list ModalCall :=
  let '(fullText, calls) := st in
  match engine pageNum with
  | NoContext => (fullText, calls)
  | RenderFails =>
      let t := fullText +:+ header pageNum +:+ "[Error during OCR]" +:+ nl +:+ nl in
      (t, calls ++ [UpdateText t])
  | Recognized progress text =>
      let t := fullText +:+ header pageNum +:+ text +:+ nl +:+ nl in
      (t, calls ++ [Submit pageNum] ++ (UpdateProgress <$> progress) ++ [UpdateText t])
  | RecognitionFails progress =>
      let t := fullText +:+ header pageNum +:+ "[Error during OCR]" +:+ nl +:+ nl in
      (t, calls ++ [Submit pageNum] ++ (UpdateProgress <$> progress) ++ [UpdateText t])
  end.

(** [for (const pageNum of targets)]: [cancelled k] tells whether the
    cancel listener has fired when iteration [k] begins. *)
Fixpoint ocrLoop (engine : Z → PageRun) (cancelled : nat → bool) (k : nat)
  (targets : list Z) (st : string * list ModalCall) : string * list ModalCall :=
  match targets with
  | [] => st
  | pageNum :: rest =>
      if cancelled k then st
      else ocrLoop engine cancelled (S k) rest (ocrPage engine pageNum st)
  end.

(** [ocr] from the computation of [targets] on: the loop, the [finally]
    block and the last two statements.  The result is the text of the
    last [modal.updateText] together with all calls on the modal. *)
Definition ocr (engine : Z → PageRun) (cancelled : nat → bool)
  (selected : list Z) (currentPage : Z) : string * list ModalCall :=
  let targets := ocrTargets selected currentPage in
  let '(fullText, calls) := ocrLoop engine cancelled 0 targets ("", []) in
  let calls := calls ++ [UpdateProgress 100] in
  let fullText := if bool_decide (fullText = "") then "[No text recognized]"
                  else fullText in
  (fullText, calls ++ [UpdateText fullText]).

(** The text block a page contributes to the output. *)
Definition pageBlock (engine : Z → PageRun) (pageNum : Z) : string :=
  match engine pageNum with
  | NoContext => ""
  | Recognized _ text => header pageNum +:+ text +:+ nl +:+ nl
  | RenderFails | RecognitionFails _ =>
      header pageNum +:+ "[Error during OCR]" +:+ nl +:+ nl
  end.

(** The pages submitted to the engine, in call order. *)
Definition submittedPage (c : ModalCall) : option Z :=
  match c with Submit p => Some p | _ => None end.
Definition submitted (calls : list ModalCall) : list Z :=
  omap submittedPage calls.

End ToolOperations.

(* ===================================================================== *)
(** * Part II: properties                                                 *)
(* ===================================================================== *)

(** ** Page selection (state.ts) *)
Module StateProps.
Import State.

(** Strictly ascending lists are the ascending lists without duplicates. *)
Definition strict (l : list Z) : Prop := StronglySorted Z.lt l.

Lemma strict_ascendingNoDup l : strict l → ascendingNoDup l.
Proof.
  unfold strict, ascendingNoDup. induction 1 as [|x l Hl [IHs IHn] Hx].
  - split; constructor.
  - split.
    + constructor; [done|]. destruct l as [|y l]; constructor.
      apply Forall_cons in Hx as [Hxy _]. lia.
    + constructor; [|done]. intros Hin.
      rewrite Forall_forall in Hx. specialize (Hx _ Hin). lia.
Qed.

Lemma ascendingNoDup_strict l : ascendingNoDup l → strict l.
Proof.
  unfold strict, ascendingNoDup. intros [Hs Hn].
  apply (Sorted_StronglySorted Z.le) in Hs.
  induction Hs as [|x l Hl IH Hx]; [constructor|].
  apply NoDup_cons in Hn as [Hnin Hn].
  constructor; [by apply IH|].
  rewrite Forall_forall in Hx |- *. intros y Hy.
  specialize (Hx _ Hy). assert (x ≠ y) by (intros ->; done). lia.
Qed.

Lemma strict_delete i l : strict l → strict (delete i l).
Proof.
  unfold strict. intros Hl. revert i.
  induction Hl as [|x l Hl IH Hx]; intros [|i]; simpl;
    [constructor|constructor|done|].
  constructor; [apply IH|]. by apply Forall_delete.
Qed.

Lemma strict_seqZ m n : strict (seqZ m n).
Proof.
  unfold strict. destruct (decide (n ≤ 0)) as [Hn|Hn].
  { rewrite seqZ_nil by done. constructor. }
  rewrite <- (Z2Nat.id n) by lia. generalize (Z.to_nat n) as k. clear.
  intros k. revert m. induction k as [|k IH]; intros m.
  - rewrite seqZ_nil by done. constructor.
  - rewrite seqZ_cons by lia. constructor.
    + replace (Z.pred (Z.of_nat (S k))) with (Z.of_nat k) by lia. apply IH.
    + apply Forall_seqZ. intros; lia.
Qed.

Lemma strict_sort_snoc l x : strict l → x ∉ l → strict (sortAscending (l ++ [x])).
Proof.
  intros Hl Hx. apply ascendingNoDup_strict. unfold sortAscending. split.
  - apply (Sorted_merge_sort Z.le).
  - rewrite (merge_sort_Permutation Z.le). apply NoDup_app. split_and!.
    + by apply strict_ascendingNoDup.
    + intros y Hy ->%list_elem_of_singleton. done.
    + apply NoDup_singleton.
Qed.

(** The stored reference points below the allocation frontier. *)
Definition wfState (s : AppState) : Prop :=
  (selectedPageIndices s < nextLoc s)%nat.

Lemma selection_writeArr s l :
  selection (writeArr s (selectedPageIndices s) l) = l.
Proof. unfold selection, readArr; simpl. by rewrite lookup_insert_eq. Qed.

Lemma selectPage_selection i s :
  selection (selectPage i s) =
    if includes (selection s) i then selection s
    else sortAscending (selection s ++ [i]).
Proof.
  unfold selectPage. fold (selection s). destruct (includes _ _); simpl; [done|].
  unfold selection at 1, readArr; simpl. rewrite lookup_insert_eq; simpl.
  by rewrite lookup_insert_eq.
Qed.

Lemma deselectPage_selection i s :
  selection (deselectPage i s) =
    if decide (indexOf (selection s) i = -1) then selection s
    else delete (Z.to_nat (indexOf (selection s) i)) (selection s).
Proof.
  unfold deselectPage. fold (selection s).
  destruct (Z.eqb_spec (indexOf (selection s) i) (-1)) as [->|Hne]; simpl; [done|].
  rewrite decide_False by done. apply selection_writeArr.
Qed.

Lemma selectPage_strict i s : strict (selection s) → strict (selection (selectPage i s)).
Proof.
  intros Hs. rewrite selectPage_selection. unfold includes.
  case_bool_decide; [done|]. by apply strict_sort_snoc.
Qed.

Lemma deselectPage_strict i s : strict (selection s) → strict (selection (deselectPage i s)).
Proof.
  intros Hs. rewrite deselectPage_selection. case_decide; [done|].
  by apply strict_delete.
Qed.

Lemma runOp_strict op s : strict (selection s) → strict (selection (runOp op s)).
Proof.
  intros Hs. destruct op as [i|i|i|n|]; simpl.
  - by apply selectPage_strict.
  - by apply deselectPage_strict.
  - unfold togglePageSelection. destruct (includes _ _).
    + by apply deselectPage_strict.
    + by apply selectPage_strict.
  - unfold selectAllPages, selection, readArr; simpl.
    rewrite lookup_insert_eq. apply strict_seqZ.
  - unfold clearPageSelection, selection, readArr; simpl.
    rewrite lookup_insert_eq. constructor.
Qed.

Lemma runOp_wf op s : wfState s → wfState (runOp op s).
Proof.
  unfold wfState. intros Hs. destruct op as [i|i|i|n|]; simpl;
    unfold togglePageSelection, selectPage, deselectPage, selectAllPages,
      clearPageSelection;
    repeat (destruct (includes _ _) || destruct (negb _)); simpl; lia.
Qed.

Lemma runOps_inv ops s :
  wfState s → strict (selection s) →
  wfState (runOps ops s) ∧ strict (selection (runOps ops s)).
Proof.
  unfold runOps. revert s. induction ops as [|op ops IH]; intros s Hw Hs; simpl.
  - done.
  - apply IH; [by apply runOp_wf|by apply runOp_strict].
Qed.

(** C10.  Starting from a selection that is ascending and free of
    duplicates (as the initial empty selection is), every sequence of
    [selectPage], [deselectPage], [togglePageSelection], [selectAllPages]
    and [clearPageSelection] calls leaves it ascending and free of
    duplicates.  [getSelectedPages] returns a new array object with the
    same elements: it is not the stored array, and overwriting it with any
    contents leaves the stored selection as it was. *)
Theorem selection_sorted_unique_and_copied
    (s : AppState) (ops : list SelectionOp) :
  wfState s → ascendingNoDup (selection s) →
  let s1 := runOps ops s in
  ascendingNoDup (selection s1) ∧ wfState s1 ∧
  ∀ s2 a, getSelectedPages s1 = (s2, a) →
    a ≠ selectedPageIndices s2 ∧
    readArr s2 a = selection s1 ∧
    selection s2 = selection s1 ∧
    ∀ l, selection (writeArr s2 a l) = selection s1.
Proof.
  intros Hw Hs s1.
  destruct (runOps_inv ops s Hw (ascendingNoDup_strict _ Hs)) as [Hw1 Hs1].
  fold s1 in Hw1, Hs1. split_and!; [by apply strict_ascendingNoDup|done|].
  intros s2 a [= <- <-]. unfold wfState in Hw1.
  unfold selection, readArr; simpl. split_and!.
  - lia.
  - by rewrite lookup_insert_eq.
  - rewrite lookup_insert_ne by lia. done.
  - intros l. rewrite lookup_insert_ne by lia.
    rewrite lookup_insert_ne by lia. done.
Qed.

Lemma selection_sorted_unique_and_copied_witness :
  wfState state ∧ ascendingNoDup (selection state) ∧
  selection (runOps [SelectPage 4; SelectPage 1; TogglePageSelection 2;
                     DeselectPage 4; SelectPage 0] state) = [0; 1; 2] ∧
  ascendingNoDup (selection
    (runOps [SelectPage 4; SelectPage 1; TogglePageSelection 2;
             DeselectPage 4; SelectPage 0] state)).
Proof.
  assert (Hw : wfState state) by (unfold wfState; simpl; lia).
  assert (Hs : ascendingNoDup (selection state))
    by (split; vm_compute; constructor).
  split_and!; [done|done|reflexivity|].
  exact (proj1 (selection_sorted_unique_and_copied state
    [SelectPage 4; SelectPage 1; TogglePageSelection 2;
     DeselectPage 4; SelectPage 0] Hw Hs)).
Defined.

End StateProps.

(** ** Export naming (documentManager.ts, [downloadActiveDocument]) *)
Module DownloadProps.
Import DocumentManager.




















(** The earlier copy of the module keeps a reserved device name. *)
Lemma downloadName_earlier_CON : downloadName_earlier "CON.pdf" = "CON_edited.pdf".
Proof. reflexivity. Qed.

End DownloadProps.

(** ** The OCR page loop (toolOperations.ts, [ocr]) *)
Module OcrProps.
Import ToolOperations.

(** The blocks of a list of pages, in list order. *)
Definition concatBlocks (engine : Z → PageRun) (targets : list Z) : string :=
  foldr (λ p acc, pageBlock engine p +:+ acc) "" targets.

(** The pages whose image reaches the recognition engine. *)
Definition reachesEngine (engine : Z → PageRun) (p : Z) : bool :=
  match engine p with
  | Recognized _ _ | RecognitionFails _ => true
  | RenderFails | NoContext => false
  end.

Definition never : nat → bool := λ _, false.

Lemma app_cons c (s t : string) : String c s +:+ t = String c (s +:+ t).
Proof. reflexivity. Qed.

Lemma app_empty_r (s : string) : s +:+ "" = s.
Proof. induction s as [|c s IH]; [done|]. by rewrite app_cons, IH. Qed.

Lemma app_assoc_s (s1 s2 s3 : string) : (s1 +:+ s2) +:+ s3 = s1 +:+ (s2 +:+ s3).
Proof.
  induction s1 as [|c s1 IH]; [done|]. by rewrite !app_cons, IH.
Qed.

Lemma ocrPage_fst engine p t c :
  (ocrPage engine p (t, c)).1 = t +:+ pageBlock engine p.
Proof.
  unfold ocrPage, pageBlock. destruct (engine p); simpl;
    by rewrite ?app_empty_r, ?app_assoc_s.
Qed.

Lemma ocrPage_submitted engine p t c :
  submitted (ocrPage engine p (t, c)).2 =
    submitted c ++ (if reachesEngine engine p then [p] else []).
Proof.
  unfold ocrPage, reachesEngine, submitted.
  assert (Hp : ∀ l : list Z, omap submittedPage (UpdateProgress <$> l) = []).
  { induction l; simpl; auto. }
  destruct (engine p); cbn [snd]; rewrite ?omap_app, ?Hp; simpl;
    by rewrite ?app_nil_r.
Qed.






Lemma ocr_fst engine cancelled selected currentPage :
  (ocr engine cancelled selected currentPage).1 =
    let acc := (ocrLoop engine cancelled 0 (ocrTargets selected currentPage) ("", [])).1 in
    if bool_decide (acc = "") then "[No text recognized]" else acc.
Proof.
  unfold ocr.
  by destruct (ocrLoop engine cancelled 0 (ocrTargets selected currentPage) ("", [])).
Qed.

Lemma ocr_submitted engine cancelled selected currentPage :
  submitted (ocr engine cancelled selected currentPage).2 =
    submitted (ocrLoop engine cancelled 0 (ocrTargets selected currentPage) ("", [])).2.
Proof.
  unfold ocr.
  destruct (ocrLoop engine cancelled 0 (ocrTargets selected currentPage) ("", []))
    as [t c]. cbn [snd]. unfold submitted. rewrite !omap_app. simpl.
  by rewrite !app_nil_r.
Qed.







End OcrProps.

(** ** Render-task tracking (viewer.ts, [renderCurrentPage]) *)
Module ViewerProps.
Import Viewer.

Lemma isCancel_cancelledMessage : isCancel cancelledMessage = true.
Proof. vm_compute. reflexivity. Qed.

(** Resuming a call whose task was cancelled, painted, or failed. *)
Lemma settle_cancelled t failure s :
  tasks s !! t = Some Cancelled →
  settleAndResume (AwaitRender t afterRender) failure s =
    (set_current None s, Settled Fulfilled).
Proof.
  intros Ht. unfold settleAndResume, settleTask. rewrite Ht.
  unfold afterRender. by rewrite isCancel_cancelledMessage.
Qed.



(** The second call, up to its [await renderTask.promise]. *)
Definition secondCall (env : RenderEnv) (s : ViewerState) : ViewerState * Async :=
  let r := renderCurrentPage env s in resume r.2 Fulfilled r.1.

Lemma secondCall_running env s t1 :
  hasCanvas env = true → hasPdfJsDoc env = true → hasContext env = true →
  currentRenderTask s = Some t1 → tasks s !! t1 = Some Running →
  secondCall env s =
    (mkViewer (Some (length (tasks s)))
              (<[t1 := Cancelled]> (tasks s) ++ [Running])
              None
              (events s ++ [GetPage (currentPage env); CancelCalled t1;
                            RenderStarted (length (tasks s))]),
     AwaitRender (length (tasks s)) afterRender).
Proof.
  intros Hc Hd Hx Hcur Hrun.
  unfold secondCall, renderCurrentPage. rewrite Hc, Hd. simpl.
  unfold afterGetPage. rewrite Hx. simpl. rewrite Hcur.
  unfold cancelTask. simpl. rewrite Hrun. unfold startRender. simpl.
  rewrite length_insert. unfold set_current, record, set_tasks; simpl.
  by rewrite <- !app_assoc.
Qed.





End ViewerProps.

(** ** The document manager (documentManager.ts) *)
Module ManagerProps.
Import DocumentManager.

Section Heap.
Context `{PdfLib} `{PdfJs}.

(** *** Heaps grow: what lies below the allocation frontier stays *)

Definition extends (h h' : Heap) : Prop :=
  (nextLoc h ≤ nextLoc h')%nat ∧
  ∀ l, (l < nextLoc h)%nat →
    pageObjs h' !! l = pageObjs h !! l ∧
    pageArrs h' !! l = pageArrs h !! l ∧
    byteBufs h' !! l = byteBufs h !! l.

Lemma extends_refl h : extends h h.
Proof. split; [lia|done]. Qed.

Lemma extends_trans h1 h2 h3 : extends h1 h2 → extends h2 h3 → extends h1 h3.
Proof.
  intros [Hn1 H1] [Hn2 H2]. split; [lia|]. intros l Hl.
  destruct (H1 l Hl) as (<- & <- & <-). apply H2. lia.
Qed.

Lemma extends_allocBuf h bs : extends h (allocBuf h bs).1.
Proof.
  split; simpl; [lia|]. intros l Hl. split_and!; try done.
  apply lookup_insert_ne. lia.
Qed.

Lemma extends_allocPage h p : extends h (allocPage h p).1.
Proof.
  split; simpl; [lia|]. intros l Hl. split_and!; try done.
  apply lookup_insert_ne. lia.
Qed.

Lemma extends_allocArr h ls : extends h (allocArr h ls).1.
Proof.
  split; simpl; [lia|]. intros l Hl. split_and!; try done.
  apply lookup_insert_ne. lia.
Qed.

Lemma extends_writeDoc h d doc : extends h (writeDoc h d doc).
Proof. split; simpl; [lia|done]. Qed.

(** An array reference is valid when it and its elements are allocated. *)
Definition validArr (h : Heap) (a : loc) : Prop :=
  (a < nextLoc h)%nat ∧ ∀ l, l ∈ readArr h a → (l < nextLoc h)%nat.

Lemma readArr_extends h h' a :
  extends h h' → (a < nextLoc h)%nat → readArr h' a = readArr h a.
Proof. intros [_ He] Ha. unfold readArr. by destruct (He a Ha) as (_ & -> & _). Qed.

Lemma readBytes_extends h h' b :
  extends h h' → (b < nextLoc h)%nat → readBytes h' b = readBytes h b.
Proof. intros [_ He] Hb. unfold readBytes. by destruct (He b Hb) as (_ & _ & ->). Qed.

Lemma omap_ext_in {A B} (f g : A → option B) (l : list A) :
  (∀ x, x ∈ l → f x = g x) → omap f l = omap g l.
Proof.
  induction l as [|x l IH]; intros Hfg; csimpl; [done|].
  rewrite (Hfg x) by left. rewrite IH; [done|]. intros y Hy. apply Hfg. by right.
Qed.

Lemma readPages_extends h h' a :
  extends h h' → validArr h a → readPages h' a = readPages h a.
Proof.
  intros He [Ha Hel]. unfold readPages. rewrite (readArr_extends h h') by done.
  apply omap_ext_in. intros l Hl. destruct He as [_ He].
  by destruct (He l (Hel l Hl)) as (-> & _).
Qed.

Lemma validArr_extends h h' a : extends h h' → validArr h a → validArr h' a.
Proof.
  intros He [Ha Hel]. pose proof He as [Hn _]. split; [lia|].
  intros l. rewrite (readArr_extends h h') by done. intros Hl.
  specialize (Hel l Hl). lia.
Qed.

(** *** Filling a new array *)

Lemma pushPages_spec a ps h :
  (a < nextLoc h)%nat → is_Some (pageArrs h !! a) →
  let h' := foldl (pushPage a) h ps in
  nextLoc h' = (nextLoc h + length ps)%nat ∧
  readArr h' a = readArr h a ++ seq (nextLoc h) (length ps) ∧
  (∀ l, (l < nextLoc h)%nat → pageObjs h' !! l = pageObjs h !! l) ∧
  (∀ i p, ps !! i = Some p → pageObjs h' !! (nextLoc h + i)%nat = Some p) ∧
  (∀ b, b ≠ a → pageArrs h' !! b = pageArrs h !! b) ∧
  byteBufs h' = byteBufs h ∧ docObjs h' = docObjs h.
Proof.
  revert h. induction ps as [|p ps IH]; intros h Ha Hsome; simpl.
  - split_and!; rewrite ?app_nil_r; try done; lia.
  - set (h1 := pushPage a h p).
    assert (Hn1 : nextLoc h1 = S (nextLoc h)) by done.
    assert (Hr1 : readArr h1 a = readArr h a ++ [nextLoc h]).
    { unfold h1, pushPage, readArr; simpl. by rewrite lookup_insert_eq. }
    assert (Hs1 : is_Some (pageArrs h1 !! a)).
    { unfold h1, pushPage; simpl. rewrite lookup_insert_eq. eauto. }
    destruct (IH h1) as (Hn & Hr & Ho & Hp & Hb & Hbuf & Hdoc); [lia|done|].
    split_and!.
    + lia.
    + rewrite Hr, Hr1, Hn1, <- app_assoc. done.
    + intros l Hl. rewrite Ho by lia. unfold h1, pushPage; simpl.
      apply lookup_insert_ne. lia.
    + intros [|i] q Hq; simpl in Hq.
      * injection Hq as <-. rewrite Nat.add_0_r, Ho by lia.
        unfold h1, pushPage; simpl. apply lookup_insert_eq.
      * rewrite <- (Hp i q Hq). f_equal. lia.
    + intros b Hne. rewrite Hb by done. unfold h1, pushPage; simpl.
      by apply lookup_insert_ne.
    + by rewrite Hbuf.
    + by rewrite Hdoc.
Qed.

Lemma omap_seq_lookup {A} (f : nat → option A) (ps : list A) n :
  (∀ i p, ps !! i = Some p → f (n + i)%nat = Some p) →
  omap f (seq n (length ps)) = ps.
Proof.
  revert n. induction ps as [|p ps IH]; intros n Hf; csimpl; [done|].
  rewrite <- (Nat.add_0_r n) at 1. rewrite (Hf 0%nat p) by done. f_equal.
  apply IH. intros i q Hq. rewrite <- (Hf (S i) q Hq). f_equal. lia.
Qed.

(** The new array holds [ps] in new objects; nothing older changes. *)
Lemma newPageArray_spec h ps :
  let r := newPageArray h ps in
  r.2 = nextLoc h ∧
  nextLoc r.1 = (S (nextLoc h) + length ps)%nat ∧
  readArr r.1 r.2 = seq (S (nextLoc h)) (length ps) ∧
  readPages r.1 r.2 = ps ∧
  extends h r.1 ∧ validArr r.1 r.2 ∧
  docObjs r.1 = docObjs h ∧ byteBufs r.1 = byteBufs h.
Proof.
  unfold newPageArray; simpl.
  set (h1 := (allocArr h []).1).
  change (foldl (pushPage (nextLoc h)) _ ps)
    with (foldl (pushPage (nextLoc h)) h1 ps).
  assert (Hn1 : nextLoc h1 = S (nextLoc h)) by done.
  assert (Hr1 : readArr h1 (nextLoc h) = []).
  { unfold h1, readArr; simpl. by rewrite lookup_insert_eq. }
  destruct (pushPages_spec (nextLoc h) ps h1)
    as (Hn & Hr & Ho & Hp & Hb & Hbuf & Hdoc).
  { lia. } { unfold h1; simpl. rewrite lookup_insert_eq. eauto. }
  rewrite Hr1, Hn1 in Hr. simpl in Hr. rewrite Hn1 in Hn, Hp, Ho.
  split_and!; try done.
  - unfold readPages. rewrite Hr. by apply omap_seq_lookup.
  - split; [lia|]. intros l Hl. split_and!.
    + rewrite Ho by lia. done.
    + rewrite Hb by lia. unfold h1; simpl. apply lookup_insert_ne. lia.
    + by rewrite Hbuf.
  - split; [lia|]. intros l. rewrite Hr. intros Hl%elem_of_seq. lia.
Qed.


(** *** Reasoning about runs *)

(** [wp m s Q E]: running [m] from [s] returns in a state and with a value
    satisfying [Q], or throws in a state and with an exception
    satisfying [E]. *)
Definition wp {A} (m : M A) (s : State)
    (Q : State → A → Prop) (E : State → Exn → Prop) : Prop :=
  match m s with
  | Returned s' a => Q s' a
  | Threw s' e => E s' e
  end.

Lemma wp_bind {A B} (m : M A) (k : A → M B) s Q E :
  wp m s (λ s' a, wp (k a) s' Q E) E → wp (m ≫= k) s Q E.
Proof.
  unfold wp, mbind, M_bind. by destruct (m s).
Qed.

Lemma wp_mono {A} (m : M A) s (Q Q' : State → A → Prop) (E E' : State → Exn → Prop) :
  wp m s Q E → (∀ s' a, Q s' a → Q' s' a) → (∀ s' e, E s' e → E' s' e) →
  wp m s Q' E'.
Proof. unfold wp. destruct (m s); eauto. Qed.

Lemma wp_ret {A} (a : A) s Q E : Q s a → wp (mret a) s Q E.
Proof. done. Qed.

Lemma wp_gets {A} (f : State → A) s Q E : Q s (f s) → wp (gets f) s Q E.
Proof. done. Qed.

Lemma wp_modify (f : State → State) s Q E : Q (f s) tt → wp (modify f) s Q E.
Proof. done. Qed.

Lemma wp_throw {A} e s (Q : State → A → Prop) E : E s e → wp (throw e) s Q E.
Proof. done. Qed.

Lemma wp_alloc {A} (f : Heap → Heap * A) s Q E :
  Q (set_heap (f (heap s)).1 s) (f (heap s)).2 → wp (alloc f) s Q E.
Proof. unfold wp, alloc. by destruct (f (heap s)). Qed.

Lemma wp_await {A} e (r : option A) s Q E :
  (∀ a, r = Some a → Q s a) → (r = None → E s e) → wp (await e r) s Q E.
Proof. unfold wp, await. destruct r; simpl; eauto. Qed.

Lemma wp_getDoc d s Q E :
  (∀ doc, docObjs (heap s) !! d = Some doc → Q s doc) →
  (docObjs (heap s) !! d = None → E s TypeError) →
  wp (getDoc d) s Q E.
Proof. unfold wp, getDoc. destruct (docObjs (heap s) !! d); eauto. Qed.

Lemma wp_updDoc d f s doc Q E :
  docObjs (heap s) !! d = Some doc →
  Q (set_heap (writeDoc (heap s) d (f doc)) s) tt →
  wp (updDoc d f) s Q E.
Proof. intros Hd HQ. unfold wp, updDoc, mbind, M_bind, getDoc. by rewrite Hd. Qed.

Lemma wp_destroyProxy p s Q E :
  (∀ s', heap s' = heap s → documents s' = documents s →
         activeDocIndex s' = activeDocIndex s → tabIdCounter s' = tabIdCounter s →
         Q s' tt) →
  wp (destroyProxy p) s Q E.
Proof. intros HQ. destruct p; apply HQ; done. Qed.

Lemma wp_returned {A} (m : M A) s Q E s' a : wp m s Q E → m s = Returned s' a → Q s' a.
Proof. unfold wp. intros Hwp Hm. by rewrite Hm in Hwp. Qed.

Lemma wp_threw {A} (m : M A) s Q E s' e : wp m s Q E → m s = Threw s' e → E s' e.
Proof. unfold wp. intros Hwp Hm. by rewrite Hm in Hwp. Qed.

(** *** The registry *)

(** The index is in range, or it is -1 and the registry is empty. *)
Definition registryOk (s : State) : Prop :=
  (documents s = [] ∧ activeDocIndex s = -1) ∨
  (0 ≤ activeDocIndex s < Z.of_nat (length (documents s))).

Lemma findIndexFrom_range h docs docId i :
  findIndexFrom h docs docId i = -1 ∨
  (i ≤ findIndexFrom h docs docId i < i + Z.of_nat (length docs)).
Proof.
  revert i. induction docs as [|d docs IH]; intros i; simpl; [by left|].
  destruct (docObjs h !! d) as [doc|].
  - case_decide; [right; lia|]. destruct (IH (i + 1)); [by left|right; lia].
  - destruct (IH (i + 1)); [by left|right; lia].
Qed.

Lemma findIndexFrom_found h docs docId i j :
  0 ≤ i → findIndexFrom h docs docId i = j → j ≠ -1 →
  ∃ d doc, docs !! Z.to_nat (j - i) = Some d ∧ docObjs h !! d = Some doc ∧
           id doc = docId.
Proof.
  revert i. induction docs as [|d docs IH]; intros i Hi Hj Hne; simpl in Hj;
    [congruence|].
  assert (Hrec : findIndexFrom h docs docId (i + 1) = j →
                 ∃ d' doc, (d :: docs) !! Z.to_nat (j - i) = Some d' ∧
                           docObjs h !! d' = Some doc ∧ id doc = docId).
  { intros Hj'. destruct (findIndexFrom_range h docs docId (i + 1)) as [?|Hr];
      [congruence|]. rewrite Hj' in Hr.
    destruct (IH (i + 1)) as (d' & doc & Hl & Hd & Hid); [lia|done|done|].
    exists d', doc. split_and!; try done.
    replace (Z.to_nat (j - i)) with (S (Z.to_nat (j - (i + 1)))) by lia. done. }
  destruct (docObjs h !! d) as [doc|] eqn:Hd; [|by apply Hrec].
  case_decide as Hid; [|by apply Hrec].
  subst j. exists d, doc. by rewrite Z.sub_diag.
Qed.

Lemma findIndex_found s docId :
  findIndex s docId ≠ -1 →
  ∃ i d doc, findIndex s docId = Z.of_nat i ∧ documents s !! i = Some d ∧
             docObjs (heap s) !! d = Some doc ∧ id doc = docId.
Proof.
  intros Hne. unfold findIndex in *.
  destruct (findIndexFrom_found (heap s) (documents s) docId 0 _ ltac:(lia) eq_refl Hne)
    as (d & doc & Hl & Hd & Hid).
  destruct (findIndexFrom_range (heap s) (documents s) docId 0) as [?|Hr]; [done|].
  exists (Z.to_nat (findIndexFrom (heap s) (documents s) docId 0)), d, doc.
  rewrite Z.sub_0_r in Hl. split_and!; try done. lia.
Qed.

(** [removeAt] returns, removes exactly the entry at [index], leaves the
    heap and the id counter alone, and keeps the index in range. *)
Lemma removeAt_spec (i : nat) s :
  (i < length (documents s))%nat →
  ∃ s', removeAt (Z.of_nat i) s = Returned s' tt ∧
        documents s' = delete i (documents s) ∧
        heap s' = heap s ∧ tabIdCounter s' = tabIdCounter s ∧
        (registryOk s → registryOk s').
Proof.
  intros Hi. unfold removeAt, mbind, M_bind, gets, modify, mret, M_ret,
    clearViewerFn, renderTabs, updateToolStatesFn, refreshViewerFn; simpl.
  rewrite Nat2Z.id.
  assert (Hlen : length (delete i (documents s)) = (length (documents s) - 1)%nat).
  { rewrite length_delete; [lia|]. by apply lookup_lt_is_Some_2. }
  repeat case_decide; simpl; repeat case_decide; simpl;
    (eexists; split; [reflexivity|]); simpl; split_and!; try done;
    unfold registryOk; simpl; rewrite ?Hlen; intros [[Hnil ?]|?];
    try (rewrite Hnil in Hi; simpl in Hi);
    try lia;
    try (left; split; [|done]; apply length_zero_iff_nil; lia);
    right; lia.
Qed.

#[local] Arguments newPageArray : simpl never.
#[local] Arguments allocBuf : simpl never.
#[local] Arguments allocDoc : simpl never.
#[local] Arguments readBytes : simpl never.
#[local] Arguments readPages : simpl never.

(** *** Steps that leave the registry alone *)

(** The registry variables are untouched and the heap has only grown. *)
Definition frame (s s' : State) : Prop :=
  documents s' = documents s ∧ activeDocIndex s' = activeDocIndex s ∧
  tabIdCounter s' = tabIdCounter s ∧ extends (heap s) (heap s').

Lemma frame_refl s : frame s s.
Proof. split_and!; first [done | apply extends_refl]. Qed.

Lemma frame_trans s1 s2 s3 : frame s1 s2 → frame s2 s3 → frame s1 s3.
Proof.
  intros (? & ? & ? & ?) (? & ? & ? & ?). split_and!; try congruence.
  by eapply extends_trans.
Qed.

Lemma frame_nextLoc s s' : frame s s' → (nextLoc (heap s) ≤ nextLoc (heap s'))%nat.
Proof. by intros (_ & _ & _ & [? _]). Qed.

Ltac wp_step :=
  lazymatch goal with
  | |- wp (mbind _ _) _ _ _ => apply wp_bind
  | |- wp (gets _) _ _ _ => apply wp_gets
  | |- wp (mret _) _ _ _ => apply wp_ret
  | |- wp (throw _) _ _ _ => apply wp_throw
  end; cbv beta.

Lemma wp_emit e s Q E :
  (∀ s', frame s s' → heap s' = heap s → effects s' = effects s ++ [e] → Q s' tt) →
  wp (modify (emit e)) s Q E.
Proof.
  intros HQ. apply wp_modify, HQ; first [done | apply frame_refl].
Qed.

Lemma wp_copyBytes b s Q E :
  (∀ s' c, frame s s' → docObjs (heap s') = docObjs (heap s) →
           effects s' = effects s →
           c = nextLoc (heap s) → (c < nextLoc (heap s'))%nat →
           readBytes (heap s') c = readBytes (heap s) b →
           Q s' c) →
  wp (copyBytes b) s Q E.
Proof.
  intros HQ. unfold copyBytes. apply wp_alloc. apply HQ; simpl; try done.
  - split_and!; first [done | apply extends_allocBuf].
  - unfold allocBuf; simpl. lia.
  - unfold allocBuf, readBytes at 1; simpl. by rewrite lookup_insert_eq.
Qed.

Lemma wp_allocBuf bs s Q E :
  (∀ s' c, frame s s' → docObjs (heap s') = docObjs (heap s) →
           effects s' = effects s →
           c = nextLoc (heap s) → (c < nextLoc (heap s'))%nat →
           readBytes (heap s') c = bs →
           Q s' c) →
  wp (alloc (λ h, allocBuf h bs)) s Q E.
Proof.
  intros HQ. apply wp_alloc. apply HQ; simpl; try done.
  - split_and!; first [done | apply extends_allocBuf].
  - unfold allocBuf; simpl. lia.
  - unfold allocBuf, readBytes at 1; simpl. by rewrite lookup_insert_eq.
Qed.

(** The locations of an array and of its elements are at least [n]. *)
Definition freshArr (n : nat) (h : Heap) (a : loc) : Prop :=
  (n ≤ a)%nat ∧ ∀ l, l ∈ readArr h a → (n ≤ l)%nat.

Lemma wp_newPageArray (g : Heap → list PageData) s Q E :
  (∀ s' a, frame s s' → docObjs (heap s') = docObjs (heap s) →
           effects s' = effects s →
           byteBufs (heap s') = byteBufs (heap s) →
           readPages (heap s') a = g (heap s) →
           validArr (heap s') a → freshArr (nextLoc (heap s)) (heap s') a →
           Q s' a) →
  wp (alloc (λ h, newPageArray h (g h))) s Q E.
Proof.
  intros HQ. apply wp_alloc.
  destruct (newPageArray_spec (heap s) (g (heap s)))
    as (Ha & Hn & Hr & Hp & He & Hv & Hd & Hb).
  apply HQ; try done.
  split; [lia|]. intros l.
  change (heap (set_heap ?h s)) with h. rewrite Hr.
  intros Hl%elem_of_seq. lia.
Qed.

Lemma wp_jsonClone a0 s Q E :
  (∀ s' a, frame s s' → docObjs (heap s') = docObjs (heap s) →
           effects s' = effects s →
           byteBufs (heap s') = byteBufs (heap s) →
           readPages (heap s') a = readPages (heap s) a0 →
           validArr (heap s') a → freshArr (nextLoc (heap s)) (heap s') a →
           Q s' a) →
  wp (jsonClone a0) s Q E.
Proof. intros HQ. unfold jsonClone. by apply (wp_newPageArray (λ h, readPages h a0)). Qed.

Lemma wp_updDoc' d f s doc Q E :
  docObjs (heap s) !! d = Some doc →
  (∀ s', frame s s' → docObjs (heap s') = <[d := f doc]> (docObjs (heap s)) →
         effects s' = effects s →
         pageObjs (heap s') = pageObjs (heap s) →
         pageArrs (heap s') = pageArrs (heap s) →
         byteBufs (heap s') = byteBufs (heap s) →
         nextLoc (heap s') = nextLoc (heap s) →
         Q s' tt) →
  wp (updDoc d f) s Q E.
Proof.
  intros Hd HQ. eapply wp_updDoc; [done|]. by apply HQ.
Qed.

Lemma readBytes_same h h' b : byteBufs h' = byteBufs h → readBytes h' b = readBytes h b.
Proof. unfold readBytes. by intros ->. Qed.

Lemma readArr_same h h' a : pageArrs h' = pageArrs h → readArr h' a = readArr h a.
Proof. unfold readArr. by intros ->. Qed.

Lemma readPages_same h h' a :
  pageObjs h' = pageObjs h → pageArrs h' = pageArrs h → readPages h' a = readPages h a.
Proof. unfold readPages, readArr. by intros -> ->. Qed.

Lemma validArr_same h h' a :
  pageArrs h' = pageArrs h → nextLoc h' = nextLoc h → validArr h a → validArr h' a.
Proof. unfold validArr, readArr. by intros -> ->. Qed.

Lemma freshArr_same n h h' a :
  pageArrs h' = pageArrs h → freshArr n h a → freshArr n h' a.
Proof. unfold freshArr, readArr. by intros ->. Qed.

Lemma freshArr_extends n h h' a :
  extends h h' → validArr h a → freshArr n h a → freshArr n h' a.
Proof.
  intros He [Ha _] [Hn Hel]. split; [done|]. intros l.
  rewrite (readArr_extends h h') by done. apply Hel.
Qed.

(** *** Snapshots *)

Definition snapView (h : Heap) (sn : DocumentSnapshot) : list PageData * list byte :=
  (readPages h (pagesData sn), readBytes h (snap_pdfBytes sn)).

Definition liveView (h : Heap) (doc : Document) : list PageData * list byte :=
  (readPages h (pageData doc), readBytes h (pdfBytes doc)).

Definition validSnap (h : Heap) (sn : DocumentSnapshot) : Prop :=
  validArr h (pagesData sn) ∧ (snap_pdfBytes sn < nextLoc h)%nat.

Definition freshSnap (n : nat) (h : Heap) (sn : DocumentSnapshot) : Prop :=
  freshArr n h (pagesData sn) ∧ (n ≤ snap_pdfBytes sn)%nat.

Lemma snapView_extends h h' sn :
  extends h h' → validSnap h sn → snapView h' sn = snapView h sn.
Proof.
  intros He [Ha Hb]. unfold snapView.
  by rewrite (readPages_extends h h'), (readBytes_extends h h').
Qed.

Lemma validSnap_extends h h' sn : extends h h' → validSnap h sn → validSnap h' sn.
Proof.
  intros He [Ha Hb]. split; [by eapply validArr_extends|].
  destruct He as [? _]. lia.
Qed.

Definition pushed (sn : DocumentSnapshot) (doc : Document) : Document :=
  set_isDirty true (set_redoStack [] (set_undoStack (undoStack doc ++ [sn]) doc)).

Lemma wp_pushUndoState d s doc Q E :
  docObjs (heap s) !! d = Some doc →
  (∀ s' sn, frame s s' →
     docObjs (heap s') = <[d := pushed sn doc]> (docObjs (heap s)) →
     effects s' = effects s ++ [UpdateToolStates; UpdateDirtyIndicators] →
     snapView (heap s') sn = liveView (heap s) doc →
     validSnap (heap s') sn → freshSnap (nextLoc (heap s)) (heap s') sn →
     Q s' tt) →
  wp (pushUndoState d) s Q E.
Proof.
  intros Hd HQ. unfold pushUndoState, updateToolStatesFn, updateDirtyIndicators.
  wp_step. apply wp_getDoc; [|congruence]. intros doc' Hd'.
  assert (doc' = doc) as -> by congruence. clear Hd'.
  wp_step. apply wp_jsonClone. intros s1 a F1 D1 Ef1 B1 R1 V1 Fr1.
  wp_step. apply wp_copyBytes. intros s2 c F2 D2 Ef2 C2 L2 R2.
  wp_step. eapply wp_updDoc'. { by rewrite D2, D1. }
  intros s3 F3 D3 Ef3 P3 A3 B3 N3.
  wp_step. eapply wp_updDoc'. { rewrite D3. apply lookup_insert_eq. }
  intros s4 F4 D4 Ef4 P4 A4 B4 N4.
  wp_step. eapply wp_updDoc'. { rewrite D4. apply lookup_insert_eq. }
  intros s5 F5 D5 Ef5 P5 A5 B5 N5.
  wp_step. apply wp_emit. intros s6 F6 H6 Ef6.
  apply wp_emit. intros s7 F7 H7 Ef7.
  assert (Hh : pageObjs (heap s7) = pageObjs (heap s2) ∧
               pageArrs (heap s7) = pageArrs (heap s2) ∧
               byteBufs (heap s7) = byteBufs (heap s2) ∧
               nextLoc (heap s7) = nextLoc (heap s2)).
  { rewrite H7, H6. split_and!; congruence. }
  destruct Hh as (HP & HA & HB & HN).
  pose proof (frame_nextLoc _ _ F1) as Hn1.
  assert (He2 : extends (heap s1) (heap s2)) by apply F2.
  apply (HQ s7 (mkSnapshot a c)).
  - repeat (eapply frame_trans; [eassumption|]). apply frame_refl.
  - rewrite H7, H6, D5, D4, D3, D2, D1. rewrite !insert_insert_eq. done.
  - rewrite Ef7, Ef6, Ef5, Ef4, Ef3, Ef2, Ef1, <- app_assoc. done.
  - unfold snapView, liveView; simpl. f_equal.
    + rewrite (readPages_same (heap s2) (heap s7)) by done.
      rewrite (readPages_extends (heap s1) (heap s2)) by done. done.
    + rewrite (readBytes_same (heap s2) (heap s7)) by done. rewrite R2.
      by apply readBytes_same.
  - split; simpl.
    + apply (validArr_same (heap s2)); [done..|]. by eapply validArr_extends.
    + lia.
  - split; simpl.
    + apply (freshArr_same _ (heap s2)); [done|].
      by eapply freshArr_extends.
    + lia.
Qed.

(** *** Reloading the parsed and the raster handle *)

Definition reloaded (pd : PDFDocument) (pj : PDFDocumentProxy) (doc : Document)
  : Document :=
  set_pdfJsDoc (Some pj) (set_pdfDoc (Some pd) doc).

Lemma wp_reload d b s doc Q E :
  docObjs (heap s) !! d = Some doc →
  (PDFDocument_load (readBytes (heap s) b) = None → E s LoadRejected) →
  (∀ pd s', PDFDocument_load (readBytes (heap s) b) = Some pd →
     getDocument (readBytes (heap s) b) = None →
     frame s s' →
     docObjs (heap s') = <[d := set_pdfDoc (Some pd) doc]> (docObjs (heap s)) →
     E s' GetDocumentRejected) →
  (∀ pd pj s', PDFDocument_load (readBytes (heap s) b) = Some pd →
     getDocument (readBytes (heap s) b) = Some pj →
     frame s s' →
     docObjs (heap s') = <[d := reloaded pd pj doc]> (docObjs (heap s)) →
     Q s' pd) →
  wp (reload d b) s Q E.
Proof.
  intros Hd HE1 HE2 HQ. unfold reload.
  repeat wp_step. apply wp_await; [intros pd Hpd|done].
  repeat wp_step. eapply wp_updDoc'; [done|]. intros s1 F1 D1 Ef1 P1 A1 B1 N1.
  repeat wp_step. apply wp_getDoc; [|rewrite D1, lookup_insert_eq; congruence].
  intros doc1 Hd1. rewrite D1, lookup_insert_eq in Hd1. injection Hd1 as <-.
  repeat wp_step. apply wp_destroyProxy. intros s2 H2 Dc2 Ac2 Tc2.
  repeat wp_step. apply wp_copyBytes. intros s3 c F3 D3 Ef3 C3 L3 R3.
  assert (F13 : frame s s3).
  { eapply frame_trans; [done|]. eapply frame_trans; [|done].
    split_and!; try done. rewrite H2. apply extends_refl. }
  assert (Hrb : readBytes (heap s3) c = readBytes (heap s) b).
  { rewrite R3, H2. by apply readBytes_same. }
  repeat wp_step. rewrite Hrb. apply wp_await; [intros pj Hpj|intros Hpj].
  - repeat wp_step. eapply wp_updDoc'.
    { rewrite D3, H2, D1. apply lookup_insert_eq. }
    intros s4 F4 D4 Ef4 P4 A4 B4 N4. wp_step.
    apply (HQ pd pj); try done.
    + by eapply frame_trans.
    + rewrite D4, D3, H2, D1, insert_insert_eq. done.
  - apply (HE2 pd); try done. by rewrite D3, H2, D1.
Qed.

(** *** Rebuilding the page records *)

Lemma regen_spec h h2 ps :
  pageObjs h2 = pageObjs h → pageArrs h2 = <[nextLoc h := []]> (pageArrs h) →
  byteBufs h2 = byteBufs h → nextLoc h2 = S (nextLoc h) →
  let h3 := foldl (pushPage (nextLoc h)) h2 ps in
  extends h h3 ∧ readPages h3 (nextLoc h) = ps ∧ validArr h3 (nextLoc h) ∧
  freshArr (nextLoc h) h3 (nextLoc h) ∧
  docObjs h3 = docObjs h2 ∧ byteBufs h3 = byteBufs h.
Proof.
  intros HP HA HB HN h3.
  assert (Hr2 : readArr h2 (nextLoc h) = []).
  { unfold readArr. by rewrite HA, lookup_insert_eq. }
  destruct (pushPages_spec (nextLoc h) ps h2)
    as (Hn & Hr & Ho & Hp & Hb & Hbuf & Hdoc).
  { lia. } { rewrite HA, lookup_insert_eq. eauto. }
  fold h3 in Hn, Hr, Ho, Hp, Hb, Hbuf, Hdoc.
  rewrite Hr2, HN in Hr. simpl in Hr. rewrite HN in Hn, Hp, Ho.
  split_and!; try done.
  - split; [lia|]. intros l Hl. split_and!.
    + rewrite Ho by lia. by rewrite HP.
    + rewrite Hb by lia. rewrite HA. apply lookup_insert_ne. lia.
    + by rewrite Hbuf, HB.
  - unfold readPages. rewrite Hr. by apply omap_seq_lookup.
  - split; [lia|]. intros l. rewrite Hr. intros Hl%elem_of_seq. lia.
  - split; [lia|]. intros l. rewrite Hr. intros Hl%elem_of_seq. lia.
  - by rewrite Hbuf.
Qed.

(** *** [updateDocumentBytes] *)

(** The snapshot shares no location with the live state of [doc]. *)
Definition apart (h : Heap) (sn : DocumentSnapshot) (doc : Document) : Prop :=
  pagesData sn ≠ pageData doc ∧
  (∀ l, l ∈ readArr h (pagesData sn) → l ∉ readArr h (pageData doc)) ∧
  snap_pdfBytes sn ≠ pdfBytes doc.

Definition liveCount (h : Heap) (doc : Document) : nat :=
  length (filter (λ p, deleted p = false) (readPages h (pageData doc))).

(** The document after a successful update. *)
Definition updated (sn : DocumentSnapshot) (newBytes a : loc)
    (pd : PDFDocument) (pj : PDFDocumentProxy) (doc : Document) : Document :=
  mkDocument (id doc) (fileName doc) newBytes (Some pd) (Some pj) a
             (undoStack doc ++ [sn]) [] true (currentPage doc).

Lemma wp_updateDocumentBytes clock d newBytes s doc Q E :
  docObjs (heap s) !! d = Some doc →
  (newBytes < nextLoc (heap s))%nat → validArr (heap s) (pageData doc) →
  (∀ s' sn, PDFDocument_load (readBytes (heap s) newBytes) = None →
     frame s s' →
     docObjs (heap s') = <[d := set_pdfBytes newBytes (pushed sn doc)]> (docObjs (heap s)) →
     E s' LoadRejected) →
  (∀ s' sn pd, PDFDocument_load (readBytes (heap s) newBytes) = Some pd →
     getDocument (readBytes (heap s) newBytes) = None →
     frame s s' →
     docObjs (heap s') =
       <[d := set_pdfDoc (Some pd) (set_pdfBytes newBytes (pushed sn doc))]>
         (docObjs (heap s)) →
     E s' GetDocumentRejected) →
  (∀ s' sn pd pj a,
     PDFDocument_load (readBytes (heap s) newBytes) = Some pd →
     getDocument (readBytes (heap s) newBytes) = Some pj →
     frame s s' →
     docObjs (heap s') = <[d := updated sn newBytes a pd pj doc]> (docObjs (heap s)) →
     snapView (heap s') sn = liveView (heap s) doc →
     validSnap (heap s') sn → freshSnap (nextLoc (heap s)) (heap s') sn →
     validArr (heap s') a →
     apart (heap s') sn (updated sn newBytes a pd pj doc) →
     (if decide (getPageCount pd ≠ liveCount (heap s) doc)
      then readPages (heap s') a =
             freshPages (λ i, "page-" +:+ id doc +:+ "-" +:+ pretty i +:+ "-"
                                +:+ pretty (clock i)) (getPageCount pd)
      else a = pageData doc) →
     Q s' tt) →
  wp (updateDocumentBytes clock d newBytes) s Q E.
Proof.
  intros Hd Hnb Hva HE1 HE2 HQ. unfold updateDocumentBytes, refreshViewerFn.
  repeat wp_step. eapply wp_pushUndoState; [done|].
  intros s1 sn F1 D1 Ef1 Sv1 Vs1 Fs1.
  repeat wp_step. eapply wp_updDoc'. { rewrite D1. apply lookup_insert_eq. }
  intros s2 F2 D2 Ef2 P2 A2 B2 N2.
  assert (F02 : frame s s2) by by eapply frame_trans.
  assert (E02 : extends (heap s) (heap s2)) by apply F02.
  assert (Hrb : readBytes (heap s2) newBytes = readBytes (heap s) newBytes)
    by by apply readBytes_extends.
  assert (Vs2 : validSnap (heap s2) sn).
  { eapply validSnap_extends; [apply F2|done]. }
  assert (Hd2 : docObjs (heap s2) !! d = Some (set_pdfBytes newBytes (pushed sn doc))).
  { rewrite D2. apply lookup_insert_eq. }
  repeat wp_step. eapply wp_reload; [done|..]; rewrite Hrb.
  - intros Hl. apply (HE1 s2 sn); try done.
    rewrite D2, D1, insert_insert_eq. done.
  - intros pd s3 Hpd Hpj F3 D3. apply (HE2 s3 sn pd); try done.
    + by eapply frame_trans.
    + rewrite D3, D2, D1, !insert_insert_eq. done.
  - intros pd pj s3 Hpd Hpj F3 D3.
    assert (F03 : frame s s3) by by eapply frame_trans.
    assert (E03 : extends (heap s) (heap s3)) by apply F03.
    assert (E23 : extends (heap s2) (heap s3)) by apply F3.
    assert (Vs3 : validSnap (heap s3) sn) by by eapply validSnap_extends.
    repeat wp_step. apply wp_getDoc; [|rewrite D3, lookup_insert_eq; congruence].
    intros doc3 Hd3. rewrite D3, lookup_insert_eq in Hd3. injection Hd3 as <-.
    repeat wp_step.
    assert (Hlive : length (filter (λ p, deleted p = false)
              (readPages (heap s3)
                 (pageData (reloaded pd pj (set_pdfBytes newBytes (pushed sn doc))))))
            = liveCount (heap s) doc).
    { unfold liveCount. simpl. by rewrite (readPages_extends (heap s) (heap s3)). }
    rewrite Hlive. clear Hlive.
    assert (Hsv3 : snapView (heap s3) sn = liveView (heap s) doc).
    { rewrite <- Sv1. apply snapView_extends; [|done].
      eapply extends_trans; [apply F2|done]. }
    destruct Fs1 as [Fa1 Fb1].
    assert (Fa3 : freshArr (nextLoc (heap s)) (heap s3) (pagesData sn)).
    { eapply freshArr_extends; [|apply Vs1|done].
      eapply extends_trans; [apply F2|done]. }
    case_decide as Hcount.
    + (* the page records are rebuilt *)
      repeat wp_step. apply wp_alloc. cbv beta.
      set (s4 := set_heap (allocArr (heap s3) []).1 s3).
      assert (Hd4 : docObjs (heap s4) !! d =
                    Some (reloaded pd pj (set_pdfBytes newBytes (pushed sn doc)))).
      { unfold s4; simpl. rewrite D3. apply lookup_insert_eq. }
      repeat wp_step. eapply wp_updDoc; [done|].
      set (s5 := set_heap (writeDoc (heap s4) d _) s4).
      repeat wp_step. apply wp_modify.
      set (ps := freshPages _ _).
      set (s6 := set_heap (foldl _ _ ps) s5).
      destruct (regen_spec (heap s3) (heap s5) ps)
        as (He & Hrp & Hv & Hf & Hdo & Hbu); try done.
      change (foldl (pushPage (nextLoc (heap s3))) (heap s5) ps)
        with (heap s6) in He, Hrp, Hv, Hf, Hdo, Hbu.
      apply wp_emit. intros s7 F7 H7 Ef7.
      assert (E37 : extends (heap s3) (heap s7)) by by rewrite H7.
      apply (HQ s7 sn pd pj (nextLoc (heap s3))); try done.
      * eapply frame_trans; [done|]. split_and!; try (rewrite ?H7; done).
        -- by destruct F7 as (-> & _).
        -- by destruct F7 as (_ & -> & _).
        -- by destruct F7 as (_ & _ & -> & _).
      * rewrite H7, Hdo. unfold s5, s4; simpl.
        rewrite D3, D2, D1, !insert_insert_eq. done.
      * rewrite <- Hsv3. by apply snapView_extends.
      * by eapply validSnap_extends.
      * split; [|done]. eapply freshArr_extends; [done|apply Vs3|done].
      * by rewrite H7.
      * rewrite H7. destruct Vs3 as [[Ha3 Hel3] Hb3]. split_and!; simpl.
        -- lia.
        -- intros l Hl Hl'.
           rewrite (readArr_extends (heap s3) (heap s6)) in Hl by done.
           apply Hel3 in Hl. destruct Hf as [_ Hf]. apply Hf in Hl'. lia.
        -- lia.
      * rewrite decide_True by done. by rewrite H7.
    + repeat wp_step. apply wp_emit. intros s7 F7 H7 Ef7.
      assert (F07 : frame s s7) by by eapply frame_trans.
      apply (HQ s7 sn pd pj (pageData doc)); try done.
      * rewrite H7, D3, D2, D1, !insert_insert_eq. done.
      * by rewrite H7.
      * by rewrite H7.
      * rewrite H7. split; [|done].
        eapply freshArr_extends; [apply F3|apply Vs2|].
        eapply freshArr_extends; [apply F2|apply Vs1|done].
      * eapply validArr_extends; [apply F07|done].
      * rewrite H7. destruct Hva as [Ha Hel]. destruct Fa3 as [Hfa Hfe].
        split_and!; simpl.
        -- lia.
        -- intros l Hl Hl'.
           rewrite (readArr_extends (heap s) (heap s3)) in Hl' by done.
           apply Hel in Hl'. apply Hfe in Hl. lia.
        -- lia.
      * by case_decide.
Qed.

(** *** [undo] and [redo] *)

(** The document once [undo] has saved [sn] and restored [sn0]. *)
Definition undone (sn0 sn : DocumentSnapshot) (doc : Document) : Document :=
  set_pdfBytes (snap_pdfBytes sn0) (set_pageData (pagesData sn0)
    (set_undoStack (removelast (undoStack doc))
       (set_redoStack (redoStack doc ++ [sn]) doc))).

(** The document once [redo] has saved [sn] and restored [sn0]. *)
Definition redone (sn0 sn : DocumentSnapshot) (doc : Document) : Document :=
  set_pdfBytes (snap_pdfBytes sn0) (set_pageData (pagesData sn0)
    (set_redoStack (removelast (redoStack doc))
       (set_undoStack (undoStack doc ++ [sn]) doc))).

Lemma wp_undo d s doc sn0 Q E :
  getActiveDocument s = Some d → docObjs (heap s) !! d = Some doc →
  last (undoStack doc) = Some sn0 → validSnap (heap s) sn0 →
  (∀ s' sn, PDFDocument_load (readBytes (heap s) (snap_pdfBytes sn0)) = None →
     frame s s' →
     docObjs (heap s') = <[d := undone sn0 sn doc]> (docObjs (heap s)) →
     E s' LoadRejected) →
  (∀ s' sn pd, PDFDocument_load (readBytes (heap s) (snap_pdfBytes sn0)) = Some pd →
     getDocument (readBytes (heap s) (snap_pdfBytes sn0)) = None →
     frame s s' →
     docObjs (heap s') = <[d := set_pdfDoc (Some pd) (undone sn0 sn doc)]> (docObjs (heap s)) →
     E s' GetDocumentRejected) →
  (∀ s' sn pd pj,
     PDFDocument_load (readBytes (heap s) (snap_pdfBytes sn0)) = Some pd →
     getDocument (readBytes (heap s) (snap_pdfBytes sn0)) = Some pj →
     frame s s' →
     docObjs (heap s') = <[d := reloaded pd pj (undone sn0 sn doc)]> (docObjs (heap s)) →
     snapView (heap s') sn = liveView (heap s) doc →
     validSnap (heap s') sn → freshSnap (nextLoc (heap s)) (heap s') sn →
     Q s' true) →
  wp undo s Q E.
Proof.
  intros Hact Hd Hlast Hv0 HE1 HE2 HQ.
  unfold undo, updateToolStatesFn, refreshViewerFn.
  repeat wp_step. rewrite Hact.
  repeat wp_step. apply wp_getDoc; [|congruence]. intros doc' Hd'.
  assert (doc' = doc) as -> by congruence. clear Hd'. rewrite Hlast.
  repeat wp_step. apply wp_jsonClone. intros s1 a F1 D1 Ef1 B1 R1 V1 Fr1.
  repeat wp_step. apply wp_copyBytes. intros s2 c F2 D2 Ef2 C2 L2 R2.
  repeat wp_step. eapply wp_updDoc'. { by rewrite D2, D1. }
  intros s3 F3 D3 Ef3 P3 A3 B3 N3.
  repeat wp_step. eapply wp_updDoc'. { rewrite D3. apply lookup_insert_eq. }
  intros s4 F4 D4 Ef4 P4 A4 B4 N4.
  repeat wp_step. eapply wp_updDoc'. { rewrite D4. apply lookup_insert_eq. }
  intros s5 F5 D5 Ef5 P5 A5 B5 N5.
  repeat wp_step. eapply wp_updDoc'. { rewrite D5. apply lookup_insert_eq. }
  intros s6 F6 D6 Ef6 P6 A6 B6 N6.
  assert (D06 : docObjs (heap s6) =
                <[d := undone sn0 (mkSnapshot a c) doc]> (docObjs (heap s))).
  { rewrite D6, D5, D4, D3, D2, D1, !insert_insert_eq. done. }
  assert (F02 : frame s s2) by by eapply frame_trans.
  assert (F06 : frame s s6).
  { repeat (eapply frame_trans; [eassumption|]). apply frame_refl. }
  assert (Hh : pageObjs (heap s6) = pageObjs (heap s2) ∧
               pageArrs (heap s6) = pageArrs (heap s2) ∧
               byteBufs (heap s6) = byteBufs (heap s2) ∧
               nextLoc (heap s6) = nextLoc (heap s2)).
  { split_and!; congruence. }
  destruct Hh as (HP & HA & HB & HN).
  pose proof (frame_nextLoc _ _ F1) as Hn1.
  assert (Hrb : readBytes (heap s6) (snap_pdfBytes sn0) =
                readBytes (heap s) (snap_pdfBytes sn0)).
  { apply readBytes_extends; [apply F06|apply Hv0]. }
  assert (Hsv : snapView (heap s6) (mkSnapshot a c) = liveView (heap s) doc).
  { unfold snapView, liveView; simpl. f_equal.
    - rewrite (readPages_same (heap s2) (heap s6)) by done.
      rewrite (readPages_extends (heap s1) (heap s2)) by (done || apply F2). done.
    - rewrite (readBytes_same (heap s2) (heap s6)) by done. rewrite R2.
      by apply readBytes_same. }
  assert (Hvs : validSnap (heap s6) (mkSnapshot a c)).
  { split; simpl.
    - apply (validArr_same (heap s2)); [done..|].
      eapply validArr_extends; [apply F2|done].
    - lia. }
  assert (Hfs : freshSnap (nextLoc (heap s)) (heap s6) (mkSnapshot a c)).
  { split; simpl.
    - apply (freshArr_same _ (heap s2)); [done|].
      eapply freshArr_extends; [apply F2|done..].
    - lia. }
  repeat wp_step. eapply wp_reload.
  { rewrite D06. apply lookup_insert_eq. }
  all: rewrite Hrb.
  - intros Hl. apply (HE1 s6 (mkSnapshot a c)); done.
  - intros pd s7 Hpd Hpj F7 D7. apply (HE2 s7 (mkSnapshot a c) pd); try done.
    + by eapply frame_trans.
    + rewrite D7, D06, insert_insert_eq. done.
  - intros pd pj s7 Hpd Hpj F7 D7.
    repeat wp_step. apply wp_emit. intros s8 F8 H8 Ef8.
    repeat wp_step. apply wp_emit. intros s9 F9 H9 Ef9.
    repeat wp_step.
    assert (E69 : extends (heap s6) (heap s9)) by (rewrite H9, H8; apply F7).
    apply (HQ s9 (mkSnapshot a c) pd pj); try done.
    + repeat (eapply frame_trans; [eassumption|]). apply frame_refl.
    + rewrite H9, H8, D7, D06, insert_insert_eq. done.
    + rewrite <- Hsv. by apply snapView_extends.
    + by eapply validSnap_extends.
    + destruct Hfs as [Hfa Hfb]. split; [|done].
      eapply freshArr_extends; [done|apply Hvs|done].
Qed.

Lemma wp_redo d s doc sn0 Q E :
  getActiveDocument s = Some d → docObjs (heap s) !! d = Some doc →
  last (redoStack doc) = Some sn0 → validSnap (heap s) sn0 →
  (∀ s' sn, PDFDocument_load (readBytes (heap s) (snap_pdfBytes sn0)) = None →
     frame s s' →
     docObjs (heap s') = <[d := redone sn0 sn doc]> (docObjs (heap s)) →
     E s' LoadRejected) →
  (∀ s' sn pd, PDFDocument_load (readBytes (heap s) (snap_pdfBytes sn0)) = Some pd →
     getDocument (readBytes (heap s) (snap_pdfBytes sn0)) = None →
     frame s s' →
     docObjs (heap s') = <[d := set_pdfDoc (Some pd) (redone sn0 sn doc)]> (docObjs (heap s)) →
     E s' GetDocumentRejected) →
  (∀ s' sn pd pj,
     PDFDocument_load (readBytes (heap s) (snap_pdfBytes sn0)) = Some pd →
     getDocument (readBytes (heap s) (snap_pdfBytes sn0)) = Some pj →
     frame s s' →
     docObjs (heap s') = <[d := reloaded pd pj (redone sn0 sn doc)]> (docObjs (heap s)) →
     snapView (heap s') sn = liveView (heap s) doc →
     validSnap (heap s') sn → freshSnap (nextLoc (heap s)) (heap s') sn →
     Q s' true) →
  wp redo s Q E.
Proof.
  intros Hact Hd Hlast Hv0 HE1 HE2 HQ.
  unfold redo, updateToolStatesFn, refreshViewerFn.
  repeat wp_step. rewrite Hact.
  repeat wp_step. apply wp_getDoc; [|congruence]. intros doc' Hd'.
  assert (doc' = doc) as -> by congruence. clear Hd'. rewrite Hlast.
  repeat wp_step. apply wp_jsonClone. intros s1 a F1 D1 Ef1 B1 R1 V1 Fr1.
  repeat wp_step. apply wp_copyBytes. intros s2 c F2 D2 Ef2 C2 L2 R2.
  repeat wp_step. eapply wp_updDoc'. { by rewrite D2, D1. }
  intros s3 F3 D3 Ef3 P3 A3 B3 N3.
  repeat wp_step. eapply wp_updDoc'. { rewrite D3. apply lookup_insert_eq. }
  intros s4 F4 D4 Ef4 P4 A4 B4 N4.
  repeat wp_step. eapply wp_updDoc'. { rewrite D4. apply lookup_insert_eq. }
  intros s5 F5 D5 Ef5 P5 A5 B5 N5.
  repeat wp_step. eapply wp_updDoc'. { rewrite D5. apply lookup_insert_eq. }
  intros s6 F6 D6 Ef6 P6 A6 B6 N6.
  assert (D06 : docObjs (heap s6) =
                <[d := redone sn0 (mkSnapshot a c) doc]> (docObjs (heap s))).
  { rewrite D6, D5, D4, D3, D2, D1, !insert_insert_eq. done. }
  assert (F02 : frame s s2) by by eapply frame_trans.
  assert (F06 : frame s s6).
  { repeat (eapply frame_trans; [eassumption|]). apply frame_refl. }
  assert (Hh : pageObjs (heap s6) = pageObjs (heap s2) ∧
               pageArrs (heap s6) = pageArrs (heap s2) ∧
               byteBufs (heap s6) = byteBufs (heap s2) ∧
               nextLoc (heap s6) = nextLoc (heap s2)).
  { split_and!; congruence. }
  destruct Hh as (HP & HA & HB & HN).
  pose proof (frame_nextLoc _ _ F1) as Hn1.
  assert (Hrb : readBytes (heap s6) (snap_pdfBytes sn0) =
                readBytes (heap s) (snap_pdfBytes sn0)).
  { apply readBytes_extends; [apply F06|apply Hv0]. }
  assert (Hsv : snapView (heap s6) (mkSnapshot a c) = liveView (heap s) doc).
  { unfold snapView, liveView; simpl. f_equal.
    - rewrite (readPages_same (heap s2) (heap s6)) by done.
      rewrite (readPages_extends (heap s1) (heap s2)) by (done || apply F2). done.
    - rewrite (readBytes_same (heap s2) (heap s6)) by done. rewrite R2.
      by apply readBytes_same. }
  assert (Hvs : validSnap (heap s6) (mkSnapshot a c)).
  { split; simpl.
    - apply (validArr_same (heap s2)); [done..|].
      eapply validArr_extends; [apply F2|done].
    - lia. }
  assert (Hfs : freshSnap (nextLoc (heap s)) (heap s6) (mkSnapshot a c)).
  { split; simpl.
    - apply (freshArr_same _ (heap s2)); [done|].
      eapply freshArr_extends; [apply F2|done..].
    - lia. }
  repeat wp_step. eapply wp_reload.
  { rewrite D06. apply lookup_insert_eq. }
  all: rewrite Hrb.
  - intros Hl. apply (HE1 s6 (mkSnapshot a c)); done.
  - intros pd s7 Hpd Hpj F7 D7. apply (HE2 s7 (mkSnapshot a c) pd); try done.
    + by eapply frame_trans.
    + rewrite D7, D06, insert_insert_eq. done.
  - intros pd pj s7 Hpd Hpj F7 D7.
    repeat wp_step. apply wp_emit. intros s8 F8 H8 Ef8.
    repeat wp_step. apply wp_emit. intros s9 F9 H9 Ef9.
    repeat wp_step.
    assert (E69 : extends (heap s6) (heap s9)) by (rewrite H9, H8; apply F7).
    apply (HQ s9 (mkSnapshot a c) pd pj); try done.
    + repeat (eapply frame_trans; [eassumption|]). apply frame_refl.
    + rewrite H9, H8, D7, D06, insert_insert_eq. done.
    + rewrite <- Hsv. by apply snapView_extends.
    + by eapply validSnap_extends.
    + destruct Hfs as [Hfa Hfb]. split; [|done].
      eapply freshArr_extends; [done|apply Hvs|done].
Qed.

(** *** Creating a document *)

Lemma extends_allocDoc h doc : extends h (allocDoc h doc).1.
Proof. split; simpl; [lia|done]. Qed.

(** The document record built by [createDocumentFromBytes]. *)
Definition created (n : nat) (fileName : string) (bytes a : loc)
    (pd : PDFDocument) (pj : PDFDocumentProxy) : Document :=
  mkDocument ("doc-" +:+ pretty (S n)) fileName bytes (Some pd) (Some pj) a
             [] [] false 1.

Lemma wp_createDocumentFromBytes bytes fileName s Q E :
  (∀ s' e, documents s' = documents s → activeDocIndex s' = activeDocIndex s →
     tabIdCounter s' = tabIdCounter s → docObjs (heap s') = docObjs (heap s) →
     extends (heap s) (heap s') → E s' e) →
  (∀ s' d a pd pj,
     PDFDocument_load (readBytes (heap s) bytes) = Some pd →
     getDocument (readBytes (heap s) bytes) = Some pj →
     documents s' = documents s ++ [d] →
     activeDocIndex s' = Z.of_nat (length (documents s)) →
     tabIdCounter s' = S (tabIdCounter s) →
     extends (heap s) (heap s') →
     (nextLoc (heap s) ≤ d < nextLoc (heap s'))%nat →
     docObjs (heap s') =
       <[d := created (tabIdCounter s) fileName bytes a pd pj]> (docObjs (heap s)) →
     validArr (heap s') a →
     readPages (heap s') a =
       freshPages (λ i, "page-" +:+ pretty (tabIdCounter s) +:+ "-" +:+ pretty i)
                  (getPageCount pd) →
     Q s' d) →
  wp (createDocumentFromBytes bytes fileName) s Q E.
Proof.
  intros HE HQ.
  unfold createDocumentFromBytes, renderTabs, updateToolStatesFn, refreshViewerFn.
  repeat wp_step. apply wp_await; [intros pd Hpd|intros _].
  2: { apply HE; first [done | apply extends_refl]. }
  repeat wp_step. apply wp_copyBytes. intros s1 c F1 D1 Ef1 C1 L1 R1.
  repeat wp_step. rewrite R1. apply wp_await; [intros pj Hpj|intros _].
  2: { destruct F1 as (? & ? & ? & ?). by apply HE. }
  repeat wp_step.
  apply (wp_newPageArray (λ _, freshPages _ (getPageCount pd))).
  intros s2 a F2 D2 Ef2 B2 R2 V2 Fr2.
  repeat wp_step. apply wp_modify.
  repeat wp_step. apply wp_alloc. cbv beta.
  set (doc0 := mkDocument _ _ _ _ _ _ _ _ _ _).
  set (s3 := set_tabIdCounter _ s2).
  set (s4 := set_heap (allocDoc (heap s3) doc0).1 s3).
  repeat (repeat wp_step; apply wp_modify).
  repeat wp_step.
  destruct F1 as (Fd1 & Fa1 & Ft1 & Fe1). destruct F2 as (Fd2 & Fa2 & Ft2 & Fe2).
  assert (E02 : extends (heap s) (heap s2)) by by eapply extends_trans.
  assert (E24 : extends (heap s2) (heap s4)) by apply extends_allocDoc.
  pose proof E02 as [Hn02 _].
  eapply (HQ _ (nextLoc (heap s2)) a pd pj); try done; simpl.
  - by rewrite Fd2, Fd1.
  - rewrite length_app, Fd2, Fd1. simpl. lia.
  - by rewrite Ft1.
  - by eapply extends_trans.
  - lia.
  - rewrite D2, D1. unfold doc0, created. by rewrite Ft1.
  - by eapply validArr_extends.
  - rewrite (readPages_extends (heap s2)) by done. by rewrite R2, Ft1.
Qed.

Lemma wp_openDocument file s Q E :
  (∀ s' e, documents s' = documents s → activeDocIndex s' = activeDocIndex s →
     tabIdCounter s' = tabIdCounter s → docObjs (heap s') = docObjs (heap s) →
     extends (heap s) (heap s') → E s' e) →
  (∀ s' d a b pd pj,
     PDFDocument_load (content file) = Some pd →
     getDocument (content file) = Some pj →
     documents s' = documents s ++ [d] →
     activeDocIndex s' = Z.of_nat (length (documents s)) →
     tabIdCounter s' = S (tabIdCounter s) →
     extends (heap s) (heap s') →
     (nextLoc (heap s) ≤ d < nextLoc (heap s'))%nat →
     docObjs (heap s') =
       <[d := created (tabIdCounter s) (name file) b a pd pj]> (docObjs (heap s)) →
     validArr (heap s') a → (b < nextLoc (heap s'))%nat →
     readBytes (heap s') b = content file →
     readPages (heap s') a =
       freshPages (λ i, "page-" +:+ pretty (tabIdCounter s) +:+ "-" +:+ pretty i)
                  (getPageCount pd) →
     Q s' d) →
  wp (openDocument file) s Q E.
Proof.
  intros HE HQ. unfold openDocument.
  repeat wp_step. apply wp_allocBuf. intros s1 b F1 D1 Ef1 B1 L1 R1.
  destruct F1 as (Fd1 & Fa1 & Ft1 & Fe1).
  apply wp_createDocumentFromBytes.
  - intros s' e Hd Ha Ht Ho He. apply HE; try congruence.
    by eapply extends_trans.
  - rewrite R1, Fd1, Ft1, D1. intros s' d a pd pj Hpd Hpj Hd Ha Ht He Hn Ho Hv Hr.
    pose proof Fe1 as [Hn01 _]. pose proof He as [Hn1 _].
    apply (HQ s' d a b pd pj); try done.
    + by eapply extends_trans.
    + lia.
    + lia.
    + rewrite (readBytes_extends (heap s1)) by done. done.
Qed.

(** *** Well-formed documents and their history *)

(** What a snapshot or the live state holds: page records and bytes. *)
Abbreviation View := (list PageData * list byte)%type.

Definition loadable (v : View) : Prop :=
  is_Some (PDFDocument_load v.2) ∧ is_Some (getDocument v.2).

(** Live state, undo history, redo history (most recent last). *)
Definition absDoc (h : Heap) (doc : Document) : View * list View * list View :=
  (liveView h doc, snapView h <$> undoStack doc, snapView h <$> redoStack doc).

Definition docOk (h : Heap) (doc : Document) : Prop :=
  validArr h (pageData doc) ∧ (pdfBytes doc < nextLoc h)%nat ∧
  Forall (validSnap h) (undoStack doc) ∧ Forall (validSnap h) (redoStack doc).

Definition docLoadable (h : Heap) (doc : Document) : Prop :=
  loadable (liveView h doc) ∧
  Forall (λ sn, loadable (snapView h sn)) (undoStack doc) ∧
  Forall (λ sn, loadable (snapView h sn)) (redoStack doc).

(** [d] is a well-formed document of [s] all of whose states parse. *)
Definition docInv (s : State) (d : loc) (doc : Document) : Prop :=
  docObjs (heap s) !! d = Some doc ∧ docOk (heap s) doc ∧
  docLoadable (heap s) doc.

Lemma liveView_extends h h' doc :
  extends h h' → validArr h (pageData doc) → (pdfBytes doc < nextLoc h)%nat →
  liveView h' doc = liveView h doc.
Proof.
  intros He Ha Hb. unfold liveView.
  by rewrite (readPages_extends h h'), (readBytes_extends h h').
Qed.

Lemma Forall_validSnap_extends h h' l :
  extends h h' → Forall (validSnap h) l → Forall (validSnap h') l.
Proof.
  intros He Hl. eapply Forall_impl; [done|]. intros sn. by apply validSnap_extends.
Qed.

Lemma fmap_snapView_extends h h' l :
  extends h h' → Forall (validSnap h) l → snapView h' <$> l = snapView h <$> l.
Proof.
  intros He Hl. apply list_fmap_ext. intros i sn Hi.
  apply snapView_extends; [done|]. rewrite Forall_forall in Hl.
  apply Hl. by eapply list_elem_of_lookup_2.
Qed.

Lemma Forall_loadable_extends h h' l :
  extends h h' → Forall (validSnap h) l →
  Forall (λ sn, loadable (snapView h sn)) l →
  Forall (λ sn, loadable (snapView h' sn)) l.
Proof.
  intros He Hv Hl. rewrite Forall_forall in *. intros sn Hsn.
  rewrite (snapView_extends h h') by auto. auto.
Qed.

Definition docView (s : State) (d : loc) : option View :=
  liveView (heap s) <$> docObjs (heap s) !! d.

Definition absOf (s : State) (d : loc) : option (View * list View * list View) :=
  absDoc (heap s) <$> docObjs (heap s) !! d.

Lemma wp_elim {A} (m : M A) s (P : State → A → Prop) :
  wp m s P (λ _ _, False) → ∃ s' a, m s = Returned s' a ∧ P s' a.
Proof. unfold wp. destruct (m s); [eauto|done]. Qed.

Lemma getActiveDocument_frame s s' : frame s s' → getActiveDocument s' = getActiveDocument s.
Proof. intros (Hd & Ha & _). unfold getActiveDocument. by rewrite Hd, Ha. Qed.

Lemma removelast_snoc {A} (l : list A) (x : A) : removelast (l ++ [x]) = l.
Proof.
  induction l as [|y l IH]; [done|]. simpl.
  destruct (l ++ [x]) eqn:Hl; [by destruct l|]. by rewrite IH.
Qed.

Lemma loadable_some (v : View) :
  loadable v → ∃ pd pj, PDFDocument_load v.2 = Some pd ∧ getDocument v.2 = Some pj.
Proof. intros [[pd ?] [pj ?]]. eauto. Qed.

(** One successful [undo], on the history. *)
Lemma undo_abs s d doc U sn0 :
  docInv s d doc → getActiveDocument s = Some d → undoStack doc = U ++ [sn0] →
  ∃ s' doc', undo s = Returned s' true ∧ docInv s' d doc' ∧
    getActiveDocument s' = Some d ∧ isDirty doc' = isDirty doc ∧
    absDoc (heap s') doc' =
      (snapView (heap s) sn0, snapView (heap s) <$> U,
       (snapView (heap s) <$> redoStack doc) ++ [liveView (heap s) doc]).
Proof.
  intros (Hd & (Hva & Hb & HvU & HvR) & (Hll & HlU & HlR)) Hact HU.
  rewrite HU in HvU, HlU.
  apply Forall_app in HvU as [HvU [Hv0 _]%Forall_cons].
  apply Forall_app in HlU as [HlU [Hl0 _]%Forall_cons].
  destruct (loadable_some _ Hl0) as (pd0 & pj0 & Hpd0 & Hpj0). simpl in Hpd0, Hpj0.
  assert (Hlast : last (undoStack doc) = Some sn0) by (rewrite HU; apply last_snoc).
  cut (∃ s' b, undo s = Returned s' b ∧ b = true ∧ ∃ doc', docInv s' d doc' ∧
    getActiveDocument s' = Some d ∧ isDirty doc' = isDirty doc ∧
    absDoc (heap s') doc' =
      (snapView (heap s) sn0, snapView (heap s) <$> U,
       (snapView (heap s) <$> redoStack doc) ++ [liveView (heap s) doc])).
  { intros (s' & b & Hu & -> & doc' & ?). eauto. }
  apply wp_elim. eapply wp_undo; try done.
  - congruence.
  - congruence.
  - intros s' sn pd pj Hpd Hpj F D Hsv Hvs Hfs. split; [done|].
    assert (He : extends (heap s) (heap s')) by apply F.
    exists (reloaded pd pj (undone sn0 sn doc)).
    assert (Hundo : undoStack (reloaded pd pj (undone sn0 sn doc)) = U).
    { simpl. rewrite HU. apply removelast_snoc. }
    split_and!.
    + split_and!.
      * rewrite D. apply lookup_insert_eq.
      * split_and!; simpl.
        -- eapply validArr_extends; [done|apply Hv0].
        -- destruct Hv0 as [_ ?]. destruct He as [? _]. lia.
        -- rewrite HU, removelast_snoc. by eapply Forall_validSnap_extends.
        -- apply Forall_app. split; [by eapply Forall_validSnap_extends|].
           by constructor.
      * split_and!.
        -- change (liveView (heap s') (reloaded pd pj (undone sn0 sn doc)))
             with (snapView (heap s') sn0).
           by rewrite (snapView_extends (heap s)).
        -- rewrite Hundo. by eapply Forall_loadable_extends.
        -- simpl. apply Forall_app. split.
           ++ by eapply Forall_loadable_extends.
           ++ constructor; [|done]. by rewrite Hsv.
    + by rewrite (getActiveDocument_frame s s').
    + done.
    + unfold absDoc. rewrite Hundo.
      change (liveView (heap s') (reloaded pd pj (undone sn0 sn doc)))
        with (snapView (heap s') sn0).
      rewrite (snapView_extends (heap s)) by done.
      rewrite (fmap_snapView_extends (heap s) (heap s') U) by done.
      simpl. rewrite fmap_app. simpl. rewrite Hsv.
      by rewrite (fmap_snapView_extends (heap s) (heap s') (redoStack doc)).
Qed.

(** One successful [redo], on the history. *)
Lemma redo_abs s d doc R sn0 :
  docInv s d doc → getActiveDocument s = Some d → redoStack doc = R ++ [sn0] →
  ∃ s' doc', redo s = Returned s' true ∧ docInv s' d doc' ∧
    getActiveDocument s' = Some d ∧ isDirty doc' = isDirty doc ∧
    absDoc (heap s') doc' =
      (snapView (heap s) sn0,
       (snapView (heap s) <$> undoStack doc) ++ [liveView (heap s) doc],
       snapView (heap s) <$> R).
Proof.
  intros (Hd & (Hva & Hb & HvU & HvR) & (Hll & HlU & HlR)) Hact HR.
  rewrite HR in HvR, HlR.
  apply Forall_app in HvR as [HvR [Hv0 _]%Forall_cons].
  apply Forall_app in HlR as [HlR [Hl0 _]%Forall_cons].
  destruct (loadable_some _ Hl0) as (pd0 & pj0 & Hpd0 & Hpj0). simpl in Hpd0, Hpj0.
  assert (Hlast : last (redoStack doc) = Some sn0) by (rewrite HR; apply last_snoc).
  cut (∃ s' b, redo s = Returned s' b ∧ b = true ∧ ∃ doc', docInv s' d doc' ∧
    getActiveDocument s' = Some d ∧ isDirty doc' = isDirty doc ∧
    absDoc (heap s') doc' =
      (snapView (heap s) sn0,
       (snapView (heap s) <$> undoStack doc) ++ [liveView (heap s) doc],
       snapView (heap s) <$> R)).
  { intros (s' & b & Hu & -> & doc' & ?). eauto. }
  apply wp_elim. eapply wp_redo; try done.
  - congruence.
  - congruence.
  - intros s' sn pd pj Hpd Hpj F D Hsv Hvs Hfs. split; [done|].
    assert (He : extends (heap s) (heap s')) by apply F.
    exists (reloaded pd pj (redone sn0 sn doc)).
    assert (Hredo : redoStack (reloaded pd pj (redone sn0 sn doc)) = R).
    { simpl. rewrite HR. apply removelast_snoc. }
    split_and!.
    + split_and!.
      * rewrite D. apply lookup_insert_eq.
      * split_and!; simpl.
        -- eapply validArr_extends; [done|apply Hv0].
        -- destruct Hv0 as [_ ?]. destruct He as [? _]. lia.
        -- apply Forall_app. split; [by eapply Forall_validSnap_extends|].
           by constructor.
        -- rewrite HR, removelast_snoc. by eapply Forall_validSnap_extends.
      * split_and!.
        -- change (liveView (heap s') (reloaded pd pj (redone sn0 sn doc)))
             with (snapView (heap s') sn0).
           by rewrite (snapView_extends (heap s)).
        -- simpl. apply Forall_app. split.
           ++ by eapply Forall_loadable_extends.
           ++ constructor; [|done]. by rewrite Hsv.
        -- rewrite Hredo. by eapply Forall_loadable_extends.
    + by rewrite (getActiveDocument_frame s s').
    + done.
    + unfold absDoc. rewrite Hredo.
      change (liveView (heap s') (reloaded pd pj (redone sn0 sn doc)))
        with (snapView (heap s') sn0).
      rewrite (snapView_extends (heap s)) by done.
      rewrite (fmap_snapView_extends (heap s) (heap s') R) by done.
      simpl. rewrite fmap_app. simpl. rewrite Hsv.
      by rewrite (fmap_snapView_extends (heap s) (heap s') (undoStack doc)).
Qed.

(** From a run that returned to what [wp] says about the returned state. *)
Ltac by_run Hrun :=
  lazymatch type of Hrun with
  | ?m ?s = Returned ?s' ?a =>
      pattern s', a;
      lazymatch goal with
      | |- ?P s' a =>
          apply (wp_returned m s P (λ _ _, True) s' a); [|exact Hrun]
      end
  end.

(** One successful [savePdfDocToActive], on the history. *)
Lemma save_abs clock s d doc saved s' :
  docInv s d doc → savePdfDocToActive clock d saved s = Returned s' tt →
  ∃ doc' pages, docInv s' d doc' ∧ frame s s' ∧ isDirty doc' = true ∧
    absDoc (heap s') doc' =
      ((pages, saved),
       (snapView (heap s) <$> undoStack doc) ++ [liveView (heap s) doc], []).
Proof.
  intros (Hd & (Hva & Hb & HvU & HvR) & (Hll & HlU & HlR)) Hrun.
  by_run Hrun.
  unfold savePdfDocToActive.
  repeat wp_step. apply wp_allocBuf. intros s1 b F1 D1 Ef1 B1 L1 R1.
  assert (E01 : extends (heap s) (heap s1)) by apply F1.
  eapply wp_updateDocumentBytes; try done.
  - by rewrite D1.
  - by eapply validArr_extends.
  - intros s2 sn pd pj a Hpd Hpj F2 D2 Hsv Hvs Hfs Hv Hap Hpages.
    assert (E12 : extends (heap s1) (heap s2)) by apply F2.
    assert (E02 : extends (heap s) (heap s2)) by by eapply extends_trans.
    assert (Hrb : readBytes (heap s2) b = saved).
    { rewrite (readBytes_extends (heap s1)) by done. done. }
    assert (Hlv : liveView (heap s1) doc = liveView (heap s) doc)
      by by apply liveView_extends.
    exists (updated sn b a pd pj doc), (readPages (heap s2) a).
    split_and!; try done.
    + split_and!.
      * rewrite D2, D1. apply lookup_insert_eq.
      * split_and!; simpl; try done.
        -- destruct E12 as [? _]. lia.
        -- apply Forall_app. split; [by eapply Forall_validSnap_extends|].
           by constructor.
      * split_and!; simpl.
        -- unfold loadable, liveView; simpl. rewrite Hrb, <- R1, Hpd, Hpj. eauto.
        -- apply Forall_app. split; [by eapply Forall_loadable_extends|].
           constructor; [|done]. by rewrite Hsv, Hlv.
        -- done.
    + by eapply frame_trans.
    + unfold absDoc, liveView; simpl. rewrite Hrb, fmap_app; simpl.
      rewrite Hsv, Hlv. by rewrite (fmap_snapView_extends (heap s) (heap s2)).
Qed.

(** A newly opened document, on the history. *)
Lemma open_abs file s s0 d :
  openDocument file s = Returned s0 d →
  ∃ doc pages, docInv s0 d doc ∧ getActiveDocument s0 = Some d ∧
    isDirty doc = false ∧
    absDoc (heap s0) doc = ((pages, content file), [], []).
Proof.
  intros Hrun. by_run Hrun.
  apply wp_openDocument; [done|].
  intros s' d' a b pd pj Hpd Hpj Hdocs Hact Ht He Hn Ho Hv Hb Hrb Hrp.
  exists (created (tabIdCounter s) (name file) b a pd pj), (readPages (heap s') a).
  split_and!; try done.
  - split_and!.
    + rewrite Ho. apply lookup_insert_eq.
    + split_and!; simpl; try done.
    + split_and!; simpl; try done.
      unfold loadable, liveView; simpl. rewrite Hrb, Hpd, Hpj. eauto.
  - unfold getActiveDocument. rewrite Hact, Hdocs.
    rewrite decide_True by lia. rewrite Nat2Z.id.
    rewrite lookup_app_r by lia. by rewrite Nat.sub_diag.
  - unfold absDoc, liveView; simpl. by rewrite Hrb.
Qed.

(** *** Histories as a time line with a position *)

Definition timeline (a : View * list View * list View) : list View :=
  a.1.2 ++ [a.1.1] ++ reverse a.2.

Definition position (a : View * list View * list View) : nat := length a.1.2.

Lemma history_determined a b :
  timeline a = timeline b → position a = position b → a = b.
Proof.
  destruct a as [[v U] R], b as [[v' U'] R']. unfold timeline, position; simpl.
  intros Ht Hp. apply app_inj_1 in Ht as [-> Ht]; [|done].
  injection Ht as -> Ht. apply (inj reverse) in Ht. by subst.
Qed.

(** [n] calls, each of which returns [true]. *)
Fixpoint repeatOk (n : nat) (m : M bool) (s : State) : option State :=
  match n with
  | O => Some s
  | S n' =>
      match m s with
      | Returned s' true => repeatOk n' m s'
      | _ => None
      end
  end.

(** A sequence of mutations of [doc], each of which returns. *)
Fixpoint runEdits (doc : loc) (edits : list (list byte * (nat → N))) (s : State)
  : option State :=
  match edits with
  | [] => Some s
  | (saved, clock) :: rest =>
      match savePdfDocToActive clock doc saved s with
      | Returned s' _ => runEdits doc rest s'
      | Threw _ _ => None
      end
  end.

Lemma snoc_of_length {A} (l : list A) :
  (0 < length l)%nat → ∃ l' x, l = l' ++ [x].
Proof.
  destruct l as [|y l] using rev_ind; simpl; [lia|]. eauto.
Qed.

Lemma undo_n d n : ∀ s doc,
  docInv s d doc → getActiveDocument s = Some d →
  (n ≤ length (undoStack doc))%nat →
  ∃ s' doc', repeatOk n undo s = Some s' ∧ docInv s' d doc' ∧
    getActiveDocument s' = Some d ∧ isDirty doc' = isDirty doc ∧
    timeline (absDoc (heap s') doc') = timeline (absDoc (heap s) doc) ∧
    length (undoStack doc') = (length (undoStack doc) - n)%nat ∧
    length (redoStack doc') = (length (redoStack doc) + n)%nat.
Proof.
  induction n as [|n IH]; intros s doc Hinv Hact Hn.
  - exists s, doc. simpl. split_and!; try done; lia.
  - destruct (snoc_of_length (undoStack doc)) as (U & sn0 & HU); [lia|].
    destruct (undo_abs s d doc U sn0 Hinv Hact HU)
      as (s1 & doc1 & Hrun & Hinv1 & Hact1 & Hdirty1 & Habs1).
    assert (HlenU : length (undoStack doc1) = length U).
    { apply (f_equal (λ a, length a.1.2)) in Habs1. simpl in Habs1.
      by rewrite !length_fmap in Habs1. }
    assert (HlenR : length (redoStack doc1) = S (length (redoStack doc))).
    { apply (f_equal (λ a, length a.2)) in Habs1. simpl in Habs1.
      rewrite length_app, !length_fmap in Habs1. simpl in Habs1. lia. }
    assert (HlenU0 : length (undoStack doc) = S (length U)).
    { rewrite HU, length_app. simpl. lia. }
    destruct (IH s1 doc1 Hinv1 Hact1) as (s' & doc' & Hrun' & ? & ? & ? & Ht & ? & ?);
      [lia|].
    exists s', doc'. simpl. rewrite Hrun. split_and!; try done.
    + congruence.
    + rewrite Ht, Habs1. unfold timeline, absDoc; simpl.
      rewrite HU, fmap_app, reverse_app. simpl.
      by rewrite <- !app_assoc.
    + lia.
    + lia.
Qed.

Lemma redo_n d n : ∀ s doc,
  docInv s d doc → getActiveDocument s = Some d →
  (n ≤ length (redoStack doc))%nat →
  ∃ s' doc', repeatOk n redo s = Some s' ∧ docInv s' d doc' ∧
    getActiveDocument s' = Some d ∧ isDirty doc' = isDirty doc ∧
    timeline (absDoc (heap s') doc') = timeline (absDoc (heap s) doc) ∧
    length (undoStack doc') = (length (undoStack doc) + n)%nat ∧
    length (redoStack doc') = (length (redoStack doc) - n)%nat.
Proof.
  induction n as [|n IH]; intros s doc Hinv Hact Hn.
  - exists s, doc. simpl. split_and!; try done; lia.
  - destruct (snoc_of_length (redoStack doc)) as (R & sn0 & HR); [lia|].
    destruct (redo_abs s d doc R sn0 Hinv Hact HR)
      as (s1 & doc1 & Hrun & Hinv1 & Hact1 & Hdirty1 & Habs1).
    assert (HlenR : length (redoStack doc1) = length R).
    { apply (f_equal (λ a, length a.2)) in Habs1. simpl in Habs1.
      by rewrite !length_fmap in Habs1. }
    assert (HlenU : length (undoStack doc1) = S (length (undoStack doc))).
    { apply (f_equal (λ a, length a.1.2)) in Habs1. simpl in Habs1.
      rewrite length_app, !length_fmap in Habs1. simpl in Habs1. lia. }
    assert (HlenR0 : length (redoStack doc) = S (length R)).
    { rewrite HR, length_app. simpl. lia. }
    destruct (IH s1 doc1 Hinv1 Hact1) as (s' & doc' & Hrun' & ? & ? & ? & Ht & ? & ?);
      [lia|].
    exists s', doc'. simpl. rewrite Hrun. split_and!; try done.
    + congruence.
    + rewrite Ht, Habs1. unfold timeline, absDoc; simpl.
      rewrite HR, fmap_app, reverse_app. simpl.
      by rewrite <- !app_assoc.
    + lia.
    + lia.
Qed.

Lemma head_snoc_app {A} (l l2 : list A) x : head ((l ++ [x]) ++ l2) = head (l ++ [x]).
Proof. by destruct l. Qed.

Lemma edits_abs d edits : ∀ s doc s',
  docInv s d doc → redoStack doc = [] → runEdits d edits s = Some s' →
  ∃ doc', docInv s' d doc' ∧ frame s s' ∧ redoStack doc' = [] ∧
    length (undoStack doc') = (length (undoStack doc) + length edits)%nat ∧
    head (timeline (absDoc (heap s') doc')) = head (timeline (absDoc (heap s) doc)).
Proof.
  induction edits as [|[saved clock] rest IH]; intros s doc s' Hinv HR Hrun;
    simpl in Hrun.
  - injection Hrun as <-. exists doc.
    split_and!; first [done | apply frame_refl | simpl; lia].
  - destruct (savePdfDocToActive clock d saved s) as [s1 []|] eqn:Hsave; [|done].
    destruct (save_abs clock s d doc saved s1 Hinv Hsave)
      as (doc1 & pages & Hinv1 & F1 & Hdirty & Habs1).
    assert (HR1 : redoStack doc1 = []).
    { apply (f_equal (λ a, a.2)) in Habs1. simpl in Habs1.
      by apply fmap_nil_inv in Habs1. }
    assert (HlenU : length (undoStack doc1) = S (length (undoStack doc))).
    { apply (f_equal (λ a, length a.1.2)) in Habs1. simpl in Habs1.
      rewrite length_app, !length_fmap in Habs1. simpl in Habs1. lia. }
    destruct (IH s1 doc1 s' Hinv1 HR1 Hrun) as (doc' & ? & F' & ? & Hlen & Hhd).
    exists doc'. split_and!; try done.
    + by eapply frame_trans.
    + simpl. lia.
    + rewrite Hhd, Habs1. unfold timeline, absDoc; simpl. rewrite HR. simpl.
      change (reverse (@nil View)) with (@nil View). apply head_snoc_app.
Qed.

(** *** Undo / redo round trips *)

Lemma repeatOk_one (m : M bool) s s' :
  repeatOk 1 m s = Some s' → m s = Returned s' true.
Proof. simpl. destruct (m s) as [s1 [|]|]; congruence. Qed.

Lemma docInv_views s d doc :
  docInv s d doc →
  docView s d = Some (liveView (heap s) doc) ∧
  absOf s d = Some (absDoc (heap s) doc).
Proof. intros (Hd & _). unfold docView, absOf. by rewrite Hd. Qed.

(** C1.  For a well-formed active document whose states all parse and
    whose undo stack is not empty, [undo] followed by [redo] both return
    [true] and leave the bytes, the page records and both stacks (read
    through the heap) as they were before the [undo].  For a document just
    opened and then changed by N successful [savePdfDocToActive] calls
    (each an [updateDocumentBytes] on new bytes), N calls of [undo] all
    return [true] and restore the bytes and page records the document was
    opened with; N calls of [redo] then all return [true] and restore the
    bytes, page records and stacks present after the N changes. *)
Theorem undo_redo_roundtrip :
  (∀ s d doc,
     docInv s d doc → getActiveDocument s = Some d → undoStack doc ≠ [] →
     ∃ s1 s2, undo s = Returned s1 true ∧ redo s1 = Returned s2 true ∧
       docView s2 d = docView s d ∧ absOf s2 d = absOf s d) ∧
  (∀ s file s0 d edits sN,
     openDocument file s = Returned s0 d → runEdits d edits s0 = Some sN →
     ∃ sU sR,
       repeatOk (length edits) undo sN = Some sU ∧
       docView sU d = docView s0 d ∧
       repeatOk (length edits) redo sU = Some sR ∧
       docView sR d = docView sN d ∧ absOf sR d = absOf sN d).
Proof.
  split.
  - intros s d doc Hinv Hact Hne.
    assert (Hlen : (1 ≤ length (undoStack doc))%nat).
    { destruct (undoStack doc); [done|simpl; lia]. }
    destruct (undo_n d 1 s doc Hinv Hact Hlen)
      as (s1 & doc1 & Hu & Hinv1 & Hact1 & _ & Ht1 & HU1 & HR1).
    destruct (redo_n d 1 s1 doc1 Hinv1 Hact1 ltac:(lia))
      as (s2 & doc2 & Hr & Hinv2 & Hact2 & _ & Ht2 & HU2 & HR2).
    exists s1, s2. apply repeatOk_one in Hu, Hr.
    assert (Habs : absDoc (heap s2) doc2 = absDoc (heap s) doc).
    { apply history_determined; [congruence|].
      unfold position, absDoc; simpl. rewrite !length_fmap. lia. }
    destruct (docInv_views _ _ _ Hinv) as [-> ->].
    destruct (docInv_views _ _ _ Hinv2) as [-> ->].
    split_and!; try done; [|by rewrite Habs].
    f_equal. by apply (f_equal (λ a, a.1.1)) in Habs.
  - intros s file s0 d edits sN Hopen Hedits.
    destruct (open_abs file s s0 d Hopen)
      as (doc0 & pages0 & Hinv0 & Hact0 & Hclean & Habs0).
    assert (HR0 : redoStack doc0 = []).
    { apply (f_equal (λ a, a.2)) in Habs0. by apply fmap_nil_inv in Habs0. }
    assert (HU0 : undoStack doc0 = []).
    { apply (f_equal (λ a, a.1.2)) in Habs0. by apply fmap_nil_inv in Habs0. }
    destruct (edits_abs d edits s0 doc0 sN Hinv0 HR0 Hedits)
      as (docN & HinvN & FN & HRN & HlenN & HhdN).
    assert (HactN : getActiveDocument sN = Some d)
      by by rewrite (getActiveDocument_frame s0 sN).
    rewrite HU0 in HlenN. simpl in HlenN.
    destruct (undo_n d (length edits) sN docN HinvN HactN ltac:(lia))
      as (sU & docU & Hu & HinvU & HactU & _ & HtU & HUU & HRU).
    destruct (redo_n d (length edits) sU docU HinvU HactU ltac:(lia))
      as (sR & docR & Hr & HinvR & HactR & _ & HtR & HUR & HRR).
    exists sU, sR.
    assert (HabsR : absDoc (heap sR) docR = absDoc (heap sN) docN).
    { apply history_determined; [congruence|].
      unfold position, absDoc; simpl. rewrite !length_fmap. lia. }
    assert (HliveU : liveView (heap sU) docU = liveView (heap s0) doc0).
    { assert (Hh : head (timeline (absDoc (heap sU) docU)) =
                   head (timeline (absDoc (heap s0) doc0))) by congruence.
      unfold timeline, absDoc in Hh; simpl in Hh.
      rewrite HU0 in Hh. destruct (undoStack docU); [|simpl in HUU; lia].
      simpl in Hh. congruence. }
    destruct (docInv_views _ _ _ Hinv0) as [-> _].
    destruct (docInv_views _ _ _ HinvN) as [-> ->].
    destruct (docInv_views _ _ _ HinvU) as [-> _].
    destruct (docInv_views _ _ _ HinvR) as [-> ->].
    split_and!; try done; [by rewrite HliveU| |by rewrite HabsR].
    f_equal. by apply (f_equal (λ a, a.1.1)) in HabsR.
Qed.

(** *** Snapshots are independent copies *)

Lemma apart_independent h sn doc :
  apart h sn doc →
  (∀ l p, l ∈ readArr h (pageData doc) →
     snapView (writePage h l p) sn = snapView h sn) ∧
  (∀ ls, snapView (writeArr h (pageData doc) ls) sn = snapView h sn) ∧
  (∀ bs, snapView (writeBytes h (pdfBytes doc) bs) sn = snapView h sn).
Proof.
  intros (Ha & Hel & Hb). split_and!.
  - intros l p Hl. unfold snapView, readPages, readArr, readBytes; simpl.
    f_equal. apply omap_ext_in. intros l' Hl'.
    apply lookup_insert_ne. intros ->. by eapply Hel.
  - intros ls. unfold snapView, readPages, readArr, readBytes; simpl.
    by rewrite lookup_insert_ne.
  - intros bs. unfold snapView, readPages, readArr, readBytes; simpl.
    by rewrite lookup_insert_ne.
Qed.

(** C3.  A call of [updateDocumentBytes] that returns has pushed exactly
    one snapshot onto the undo stack, has emptied the redo stack whatever
    it held, and has set [isDirty].  The snapshot holds the page records
    and the bytes the document had before the call, in objects allocated
    by the call: it shares no object with the live state, so writing to a
    live page record, to the live page array or to the live byte buffer
    leaves what the snapshot holds unchanged. *)
Theorem update_pushes_independent_snapshot
    (clock : nat → N) (d newBytes : loc) (s s' : State) (doc : Document) :
  docObjs (heap s) !! d = Some doc →
  (newBytes < nextLoc (heap s))%nat → validArr (heap s) (pageData doc) →
  updateDocumentBytes clock d newBytes s = Returned s' tt →
  ∃ sn doc',
    docObjs (heap s') !! d = Some doc' ∧
    undoStack doc' = undoStack doc ++ [sn] ∧ redoStack doc' = [] ∧
    isDirty doc' = true ∧ pdfBytes doc' = newBytes ∧
    snapView (heap s') sn = liveView (heap s) doc ∧
    freshSnap (nextLoc (heap s)) (heap s') sn ∧
    (∀ l p, l ∈ readArr (heap s') (pageData doc') →
       snapView (writePage (heap s') l p) sn = snapView (heap s') sn) ∧
    (∀ ls, snapView (writeArr (heap s') (pageData doc') ls) sn
           = snapView (heap s') sn) ∧
    (∀ bs, snapView (writeBytes (heap s') (pdfBytes doc') bs) sn
           = snapView (heap s') sn).
Proof.
  intros Hd Hnb Hva Hrun. by_run Hrun.
  eapply wp_updateDocumentBytes; try done.
  intros s2 sn pd pj a Hpd Hpj F D Hsv Hvs Hfs Hv Hap _.
  exists sn, (updated sn newBytes a pd pj doc).
  destruct (apart_independent _ _ _ Hap) as (I1 & I2 & I3).
  split_and!; try done. rewrite D. apply lookup_insert_eq.
Qed.

(** *** A rejected reparse *)



(** *** The registry: active index and closing *)

Inductive RegistryOp :=
| Open (file : File)
| Close (docId : string)
| ForceClose (docId : string).

Definition stateOf {A} (o : Outcome A) : State :=
  match o with Returned s _ | Threw s _ => s end.

(** The state a call leaves behind, whether it returns or throws. *)
Definition runRegistryOp (op : RegistryOp) (s : State) : State :=
  match op with
  | Open file => stateOf (openDocument file s)
  | Close docId => stateOf (closeDocument docId s)
  | ForceClose docId => stateOf (forceCloseDocument docId s)
  end.

Definition runRegistryOps (ops : list RegistryOp) (s : State) : State :=
  foldl (λ st op, runRegistryOp op st) s ops.

Lemma stateOf_wp {A} (m : M A) s (P : State → Prop) :
  wp m s (λ s' _, P s') (λ s' _, P s') → P (stateOf (m s)).
Proof. unfold wp, stateOf. by destruct (m s). Qed.

Lemma wp_removeAt (i : nat) s Q E :
  (i < length (documents s))%nat →
  (∀ s', documents s' = delete i (documents s) → heap s' = heap s →
         tabIdCounter s' = tabIdCounter s → (registryOk s → registryOk s') →
         Q s' tt) →
  wp (removeAt (Z.of_nat i)) s Q E.
Proof.
  intros Hi HQ. destruct (removeAt_spec i s Hi) as (s' & Hrun & ? & ? & ? & ?).
  unfold wp. rewrite Hrun. by apply HQ.
Qed.

(** [closeDocument] on an open document. *)
Lemma wp_closeDocument docId s i d doc Q E :
  findIndex s docId = Z.of_nat i → documents s !! i = Some d →
  docObjs (heap s) !! d = Some doc →
  (isDirty doc = true → Q s false) →
  (isDirty doc = false →
   ∀ s', documents s' = delete i (documents s) → heap s' = heap s →
         tabIdCounter s' = tabIdCounter s → (registryOk s → registryOk s') →
         Q s' true) →
  wp (closeDocument docId) s Q E.
Proof.
  intros Hi Hl Hd HQ1 HQ2. unfold closeDocument.
  repeat wp_step. rewrite Hi. rewrite decide_False by lia.
  repeat wp_step. rewrite Nat2Z.id, Hl.
  repeat wp_step. apply wp_getDoc; [|congruence]. intros doc' Hd'.
  assert (doc' = doc) as -> by congruence.
  destruct (isDirty doc) eqn:Hdirty; [by apply wp_ret, HQ1|].
  repeat wp_step. apply wp_destroyProxy. intros s1 H1 D1 A1 T1.
  assert (Hlt : (i < length (documents s1))%nat).
  { rewrite D1. by eapply lookup_lt_Some. }
  repeat wp_step. apply wp_removeAt; [done|].
  intros s2 D2 H2 T2 R2. repeat wp_step. apply HQ2; try congruence.
  intros Hok. apply R2. unfold registryOk in *. by rewrite D1, A1.
Qed.

(** [forceCloseDocument] on an open document. *)
Lemma wp_forceCloseDocument docId s i d doc Q E :
  findIndex s docId = Z.of_nat i → documents s !! i = Some d →
  docObjs (heap s) !! d = Some doc →
  (∀ s', documents s' = delete i (documents s) → heap s' = heap s →
         tabIdCounter s' = tabIdCounter s → (registryOk s → registryOk s') →
         Q s' tt) →
  wp (forceCloseDocument docId) s Q E.
Proof.
  intros Hi Hl Hd HQ. unfold forceCloseDocument.
  repeat wp_step. rewrite Hi. rewrite decide_False by lia.
  repeat wp_step. rewrite Nat2Z.id, Hl.
  repeat wp_step. apply wp_getDoc; [|congruence]. intros doc' Hd'.
  assert (doc' = doc) as -> by congruence.
  repeat wp_step. apply wp_destroyProxy. intros s1 H1 D1 A1 T1.
  assert (Hlt : (i < length (documents s1))%nat).
  { rewrite D1. by eapply lookup_lt_Some. }
  apply wp_removeAt; [done|].
  intros s2 D2 H2 T2 R2. apply HQ; try congruence.
  intros Hok. apply R2. unfold registryOk in *. by rewrite D1, A1.
Qed.

Lemma closeDocument_absent docId s :
  findIndex s docId = -1 → closeDocument docId s = Returned s false.
Proof.
  intros Hi. unfold closeDocument, mbind, M_bind, gets. rewrite Hi.
  by rewrite decide_True.
Qed.

Lemma forceCloseDocument_absent docId s :
  findIndex s docId = -1 → forceCloseDocument docId s = Returned s tt.
Proof.
  intros Hi. unfold forceCloseDocument, mbind, M_bind, gets. rewrite Hi.
  by rewrite decide_True.
Qed.

Lemma runRegistryOp_ok op s : registryOk s → registryOk (runRegistryOp op s).
Proof.
  intros Hok. destruct op as [file|docId|docId]; simpl.
  - apply stateOf_wp. apply wp_openDocument.
    + intros s' e Hd Ha _ _ _. unfold registryOk. by rewrite Hd, Ha.
    + intros s' d a b pd pj _ _ Hd Ha _ _ _ _ _ _ _ _. right.
      rewrite Hd, Ha, length_app. simpl. lia.
  - destruct (decide (findIndex s docId = -1)) as [Hi|Hi].
    { by rewrite closeDocument_absent. }
    destruct (findIndex_found s docId Hi) as (i & d & doc & Hi' & Hl & Hd & _).
    apply stateOf_wp. eapply wp_closeDocument; eauto.
  - destruct (decide (findIndex s docId = -1)) as [Hi|Hi].
    { by rewrite forceCloseDocument_absent. }
    destruct (findIndex_found s docId Hi) as (i & d & doc & Hi' & Hl & Hd & _).
    apply stateOf_wp. eapply wp_forceCloseDocument; eauto.
Qed.

Lemma runRegistryOps_ok ops s : registryOk s → registryOk (runRegistryOps ops s).
Proof.
  unfold runRegistryOps. revert s.
  induction ops as [|op ops IH]; intros s Hok; simpl; [done|].
  by apply IH, runRegistryOp_ok.
Qed.

Lemma registryOk_claim s :
  registryOk s →
  (documents s ≠ [] → 0 ≤ activeDocIndex s < Z.of_nat (length (documents s))) ∧
  (activeDocIndex s = -1 ↔ documents s = []).
Proof.
  intros [[Hd Ha]|Hr]; split.
  - done.
  - done.
  - done.
  - split; [lia|]. intros Hd. rewrite Hd in Hr. simpl in Hr. lia.
Qed.

(** C4.  After any sequence of [openDocument], [closeDocument] and
    [forceCloseDocument] calls from the initial state (whether a call
    returns or throws), [activeDocIndex] is a valid index into
    [documents] when [documents] is not empty, and it is -1 exactly when
    [documents] is empty. *)
Theorem activeDocIndex_valid (ops : list RegistryOp) :
  let s := runRegistryOps ops initial in
  (documents s ≠ [] → 0 ≤ activeDocIndex s < Z.of_nat (length (documents s))) ∧
  (activeDocIndex s = -1 ↔ documents s = []).
Proof.
  apply registryOk_claim, runRegistryOps_ok. by left.
Qed.

(** Ids are unique among the open documents. *)
Definition uniqueIds (s : State) : Prop :=
  ∀ i j d1 d2 doc1 doc2,
    documents s !! i = Some d1 → documents s !! j = Some d2 →
    docObjs (heap s) !! d1 = Some doc1 → docObjs (heap s) !! d2 = Some doc2 →
    id doc1 = id doc2 → i = j.

Lemma findIndexFrom_absent h docs docId k :
  (∀ d doc, d ∈ docs → docObjs h !! d = Some doc → id doc ≠ docId) →
  findIndexFrom h docs docId k = -1.
Proof.
  revert k. induction docs as [|d docs IH]; intros k Hno; simpl; [done|].
  destruct (docObjs h !! d) as [doc|] eqn:Hd.
  - rewrite decide_False by (eapply Hno; [by left|done]).
    apply IH. intros d' doc' Hin. apply Hno. by right.
  - apply IH. intros d' doc' Hin. apply Hno. by right.
Qed.



End Heap.

(** *** A concrete codec, for running the manager *)

(** A buffer parses when it is not empty; its first byte is the page
    count.  The raster handle is the length of the buffer. *)
#[local] Instance toyPdfLib : PdfLib := {|
  PDFDocument := nat;
  PDFDocument_load := λ bs, match bs with [] => None | b :: _ => Some (Byte.to_nat b) end;
  getPageCount := λ n, n
|}.

#[local] Instance toyPdfJs : PdfJs := {|
  PDFDocumentProxy := nat;
  getDocument := λ bs, match bs with [] => None | _ => Some (length bs) end
|}.

Definition onePage : File := mkFile "a.pdf" [x01].

(** The state after opening [onePage]: the document is object 4, its
    bytes are buffer 0. *)
Definition opened : State := stateOf (openDocument onePage initial).

Definition noDoc : Document := mkDocument "" "" 0 None None 0 [] [] false 0.

Definition docAt (s : State) (d : loc) : Document :=
  default noDoc (docObjs (heap s) !! d).

Definition validArrb (h : Heap) (a : loc) : bool :=
  bool_decide (a < nextLoc h)%nat &&
  forallb (λ l, bool_decide (l < nextLoc h)%nat) (readArr h a).

Lemma validArrb_spec h a : validArrb h a = true → validArr h a.
Proof.
  unfold validArrb, validArr. intros [Ha Hl]%andb_prop.
  split; [by apply bool_decide_eq_true in Ha|].
  intros l Hin. rewrite forallb_forall in Hl.
  apply list_elem_of_In, Hl in Hin. by apply bool_decide_eq_true in Hin.
Qed.

Lemma undo_redo_roundtrip_witness :
  let edits := [([x02], λ _, 7%N); ([x02; x00], λ _, 9%N)] in
  let sN := default opened (runEdits 4 edits opened) in
  ∃ sU sR,
    repeatOk 2 undo sN = Some sU ∧ docView sU 4 = docView opened 4 ∧
    repeatOk 2 redo sU = Some sR ∧ docView sR 4 = docView sN 4 ∧
    absOf sR 4 = absOf sN 4.
Proof.
  intros edits sN.
  apply (proj2 undo_redo_roundtrip initial onePage opened 4%nat edits sN).
  - vm_compute. reflexivity.
  - vm_compute. reflexivity.
Defined.



Lemma update_pushes_independent_snapshot_witness :
  let s1 := set_heap (allocBuf (heap opened) [x02]).1 opened in
  let s' := stateOf (updateDocumentBytes (λ _, 7%N) 4 5 s1) in
  ∃ sn doc',
    docObjs (heap s') !! 4%nat = Some doc' ∧
    undoStack doc' = undoStack (docAt s1 4) ++ [sn] ∧ redoStack doc' = [] ∧
    isDirty doc' = true ∧ pdfBytes doc' = 5%nat ∧
    snapView (heap s') sn = liveView (heap s1) (docAt s1 4) ∧
    freshSnap (nextLoc (heap s1)) (heap s') sn ∧
    (∀ l p, l ∈ readArr (heap s') (pageData doc') →
       snapView (writePage (heap s') l p) sn = snapView (heap s') sn) ∧
    (∀ ls, snapView (writeArr (heap s') (pageData doc') ls) sn
           = snapView (heap s') sn) ∧
    (∀ bs, snapView (writeBytes (heap s') (pdfBytes doc') bs) sn
           = snapView (heap s') sn).
Proof.
  intros s1 s'.
  apply (update_pushes_independent_snapshot (λ _, 7%N) 4%nat 5%nat s1 s' (docAt s1 4)).
  - vm_compute. reflexivity.
  - vm_compute. lia.
  - apply validArrb_spec. vm_compute. reflexivity.
  - vm_compute. reflexivity.
Defined.

Lemma activeDocIndex_valid_witness :
  let s := runRegistryOps [Open onePage; Open onePage; ForceClose "doc-2";
                           Close "doc-7"] initial in
  length (documents s) = 1%nat ∧
  0 ≤ activeDocIndex s < Z.of_nat (length (documents s)).
Proof.
  intros s. split; [vm_compute; reflexivity|].
  apply (proj1 (activeDocIndex_valid
    [Open onePage; Open onePage; ForceClose "doc-2"; Close "doc-7"])).
  vm_compute. discriminate.
Defined.


End ManagerProps.

(* ===================================================================== *)
(** * Part III: further functions                                         *)
(* ===================================================================== *)

(** ** ribbon.ts: what [updateToolStates] reads from the manager *)
Module Ribbon.
Import DocumentManager.

Section Reads.
Context `{PdfLib} `{PdfJs}.

(** [getActiveDocumentFn()], dereferenced. *)
Definition activeDoc (s : State) : option Document :=
  d ← getActiveDocument s; docObjs (heap s) !! d.

(** [activeDoc?.undoStack?.length > 0] *)
Definition canUndo (s : State) : bool :=
  match activeDoc s with
  | Some doc => bool_decide (0 < length (undoStack doc))%nat
  | None => false
  end.

(** [activeDoc?.redoStack?.length > 0] *)
Definition canRedo (s : State) : bool :=
  match activeDoc s with
  | Some doc => bool_decide (0 < length (redoStack doc))%nat
  | None => false
  end.

End Reads.
End Ribbon.

(** ** main.ts: opening the files a user drops *)
Module Main.
Import DocumentManager.

(** A browser [File]: its name and bytes, and its MIME type. *)
Record Upload := mkUpload { file : File; type_ : string }.

Fixpoint toLowerCase (s : string) : string :=
  match s with
  | EmptyString => EmptyString
  | String c s' => String (Viewer.lowerChar c) (toLowerCase s')
  end.

Definition endsWith (s suffix : string) : bool :=
  String.prefix (String.rev suffix) (String.rev s).

(** [f.type === 'application/pdf' || f.name.toLowerCase().endsWith('.pdf')] *)
Definition isPdf (u : Upload) : bool :=
  bool_decide (type_ u = "application/pdf") ||
  endsWith (toLowerCase (name (file u))) ".pdf".

Inductive UiEvent :=
| ShowAlert (title message : string)
| ShowViewerToolbar
| ConsoleError.

(** state.ts, [setProcessing] *)
Definition setProcessing (processing : bool) (a : State.AppState) : State.AppState :=
  {| State.numArrs := State.numArrs a;
     State.nextLoc := State.nextLoc a;
     State.activeRibbonTab := State.activeRibbonTab a;
     State.isProcessing := processing;
     State.selectedPageIndices := State.selectedPageIndices a |}.

Section Handlers.
Context `{PdfLib} `{PdfJs}.

(** [for (const file of pdfFiles) await openDocument(file)] *)
Fixpoint openEach (files : list File) : M unit :=
  match files with
  | [] => mret tt
  | f :: rest => openDocument f;; openEach rest
  end.

(** [handleFiles]: the application state, the manager state and what the
    user is shown. *)
Definition handleFiles (files : list Upload) (a : State.AppState) (s : State)
  : State.AppState * State * list UiEvent :=
  let pdfFiles := filter (λ u, isPdf u = true) files in
  match pdfFiles with
  | [] => (a, s, [ShowAlert "Invalid File" "Please select a PDF file."])
  | _ =>
      let a1 := setProcessing true a in
      match openEach (file <$> pdfFiles) s with
      | Returned s' _ => (setProcessing false a1, s', [ShowViewerToolbar])
      | Threw s' _ =>
          (setProcessing false a1, s',
           [ConsoleError;
            ShowAlert "Error"
              "Failed to open PDF file. The file may be corrupted or password-protected."])
      end
  end.

End Handlers.
End Main.

(** ** toolOperations.ts: rotating and deleting pages *)
Module PageOperations.






(** The order of [(a, b) => b - a]. *)
Definition descending (a b : Z) : Prop := b ≤ a.

#[global] Instance descending_dec a b : Decision (descending a b) :=
  Z_le_dec b a.

(** [selected.sort((a, b) => b - a)] *)
Definition sortDescending (l : list Z) : list Z := merge_sort descending l.

(** The indices [deletePages] works through: the argument when it is a
    non-empty array, else the selection, else the current page; sorted
    in descending order. *)
Definition deleteTargets (indices : option (list Z)) (selected : list Z)
  (currentPage : Z) : list Z :=
  let chosen := match indices with
                | Some (i :: l) => i :: l
                | _ => selected
                end in
  sortDescending (match chosen with
                  | [] => [Z.max 0 (currentPage - 1)]
                  | _ => chosen
                  end).

(** [if (idx >= 0 && idx < pdfDoc.getPageCount()) pdfDoc.removePage(idx)] *)
Definition removePage {A} (pages : list A) (idx : Z) : list A :=
  if decide (0 ≤ idx ∧ idx < Z.of_nat (length pages))
  then delete (Z.to_nat idx) pages
  else pages.

Definition deletePages {A} (indices : option (list Z)) (selected : list Z)
  (currentPage : Z) (pages : list A) : list A :=
  foldl removePage pages (deleteTargets indices selected currentPage).

End PageOperations.

(** ** viewer.ts: clearing the viewer and moving between pages *)
Module ViewerControls.
Import Viewer.

(** [clearViewer], as far as the canvas and the render task go:
    [ctx?.clearRect(...)], then [currentRenderTask.cancel()] when a task
    is tracked.  The reference itself is left as it is. *)
Definition clearViewer (env : RenderEnv) (s : ViewerState) : ViewerState :=
  if hasCanvas env then
    let s1 := if hasContext env then set_canvas None s else s in
    match currentRenderTask s1 with
    | Some t => cancelTask t s1
    | None => s1
    end
  else s.

(** [goToPage] on a document with a raster handle of [numPages] pages:
    the new [doc.currentPage] and whether the page is rendered again. *)
Definition goToPage (numPages pageNum current : Z) : Z * bool :=
  let pageNum := Z.max 1 (Z.min pageNum numPages) in
  if decide (pageNum ≠ current) then (pageNum, true) else (current, false).

Definition nextPage (numPages current : Z) : Z * bool :=
  goToPage numPages (current + 1) current.

Definition prevPage (numPages current : Z) : Z * bool :=
  goToPage numPages (current - 1) current.

(** The navigation keys of [initViewer]. *)
Inductive NavKey :=
| ArrowLeft | PageUp | ArrowRight | PageDown | Home | End_.

Definition onKey (numPages : Z) (key : NavKey) (current : Z) : Z * bool :=
  match key with
  | ArrowLeft | PageUp => prevPage numPages current
  | ArrowRight | PageDown => nextPage numPages current
  | Home => goToPage numPages 1 current
  | End_ => goToPage numPages numPages current
  end.

Definition onKeys (numPages : Z) (keys : list NavKey) (current : Z) : Z :=
  foldl (λ cur key, (onKey numPages key cur).1) current keys.

End ViewerControls.

(* ===================================================================== *)
(** * Part IV: further properties                                         *)
(* ===================================================================== *)

(** ** Page selection: membership and toggling (state.ts) *)
Module SelectionProps.
Import State StateProps.

Lemma indexOfFrom_spec l x k :
  ((x ∉ l) ∧ indexOfFrom l x k = -1) ∨
  (∃ n, indexOfFrom l x k = k + Z.of_nat n ∧ l !! n = Some x ∧
        ∀ m, (m < n)%nat → l !! m ≠ Some x).
Proof.
  revert k. induction l as [|y l IH]; intros k; simpl.
  - left. split; [apply not_elem_of_nil|done].
  - case_decide as Hy.
    + subst y. right. exists 0%nat. split_and!; [lia|done|intros m; lia].
    + destruct (IH (k + 1)) as [[Hn ->]|(n & -> & Hl & Hfirst)].
      * left. split; [|done]. rewrite elem_of_cons. intros [->|]; done.
      * right. exists (S n). split_and!; [lia|done|].
        intros [|m] Hm; simpl; [congruence|]. apply Hfirst. lia.
Qed.

Lemma indexOf_spec l x :
  ((x ∉ l) ∧ indexOf l x = -1) ∨
  (∃ n, indexOf l x = Z.of_nat n ∧ l !! n = Some x).
Proof.
  unfold indexOf. destruct (indexOfFrom_spec l x 0) as [?|(n & Hn & Hl & _)];
    [by left|right]. exists n. split; [lia|done].
Qed.

Lemma elem_of_delete_NoDup (l : list Z) n x y :
  NoDup l → l !! n = Some x → y ∈ delete n l ↔ y ∈ l ∧ y ≠ x.
Proof.
  intros Hnd Hl. pose proof (delete_Permutation l n x Hl) as Hp.
  assert (Hx : x ∉ delete n l).
  { assert (Hnd' : NoDup (x :: delete n l)) by (by rewrite <- Hp).
    by apply NoDup_cons in Hnd' as [? _]. }
  assert (Hy : y ∈ l ↔ y = x ∨ y ∈ delete n l).
  { rewrite <- elem_of_cons. split; intros Hin.
    - eapply elem_of_Permutation_proper; [symmetry; exact Hp|done].
    - eapply elem_of_Permutation_proper; [exact Hp|done]. }
  rewrite Hy. split.
  - intros Hin. split; [by right|]. by intros ->.
  - by intros [[->|?] Hne].
Qed.

Lemma includes_spec l x : includes l x = true ↔ x ∈ l.
Proof. unfold includes. apply bool_decide_eq_true. Qed.

Lemma selectPage_elem i j s :
  j ∈ selection (selectPage i s) ↔ j ∈ selection s ∨ j = i.
Proof.
  rewrite selectPage_selection. destruct (includes (selection s) i) eqn:Hinc.
  - apply includes_spec in Hinc. split; [by left|]. by intros [?| ->].
  - unfold sortAscending. rewrite (merge_sort_Permutation Z.le).
    rewrite elem_of_app, list_elem_of_singleton. done.
Qed.

Lemma deselectPage_elem i j s :
  NoDup (selection s) →
  j ∈ selection (deselectPage i s) ↔ j ∈ selection s ∧ j ≠ i.
Proof.
  intros Hnd. rewrite deselectPage_selection.
  destruct (indexOf_spec (selection s) i) as [[Hni ->]|(n & -> & Hl)].
  - rewrite decide_True by done. split; [|by intros [? _]].
    intros Hj. split; [done|]. by intros ->.
  - rewrite decide_False by lia. rewrite Nat2Z.id.
    by apply elem_of_delete_NoDup.
Qed.

Lemma isPageSelected_spec j s : isPageSelected j s = true ↔ j ∈ selection s.
Proof. apply includes_spec. Qed.

(** X1.  What the selection operations do to membership.  [deselectPage]
    removes one occurrence, so removing an index for good needs a selection
    without duplicates. *)
Theorem selection_membership (s : AppState) (i j count : Z) :
  NoDup (selection s) →
  (isPageSelected j (selectPage i s) = true ↔
     isPageSelected j s = true ∨ j = i) ∧
  (isPageSelected j (deselectPage i s) = true ↔
     isPageSelected j s = true ∧ j ≠ i) ∧
  (isPageSelected j (togglePageSelection i s) = true ↔
     if decide (j = i) then isPageSelected i s = false
     else isPageSelected j s = true) ∧
  (isPageSelected j (selectAllPages count s) = true ↔ 0 ≤ j < count) ∧
  isPageSelected j (clearPageSelection s) = false.
Proof.
  intros Hnd. rewrite !isPageSelected_spec. split_and!.
  - apply selectPage_elem.
  - by apply deselectPage_elem.
  - unfold togglePageSelection.
    destruct (includes (selection s) i) eqn:Hinc.
    + rewrite deselectPage_elem by done. apply includes_spec in Hinc.
      case_decide as Hji.
      * subst j. unfold isPageSelected. split; [by intros [_ ?]|].
        apply includes_spec in Hinc. congruence.
      * rewrite isPageSelected_spec. split; [by intros [? _]|done].
    + rewrite selectPage_elem. case_decide as Hji.
      * subst j. unfold isPageSelected. split; [done|by right].
      * rewrite isPageSelected_spec. split; [by intros [?|?]|by left].
  - rewrite ?isPageSelected_spec.
    unfold selectAllPages, selection, readArr; simpl.
    rewrite lookup_insert_eq. simpl. rewrite elem_of_seqZ. lia.
  - unfold isPageSelected, clearPageSelection, selection, readArr; simpl.
    by rewrite lookup_insert_eq.
Qed.

Lemma selection_membership_witness :
  isPageSelected 3 (deselectPage 5 (selectPage 3 (selectPage 5 state))) = true ∧
  ¬ isPageSelected 5 (deselectPage 5 (selectPage 3 (selectPage 5 state))) = true.
Proof.
  assert (Hnd : NoDup (selection (selectPage 3 (selectPage 5 state)))).
  { apply (bool_decide_unpack _). vm_compute. exact I. }
  pose proof (selection_membership (selectPage 3 (selectPage 5 state)) 5 3 0 Hnd)
    as (_ & H3 & _).
  pose proof (selection_membership (selectPage 3 (selectPage 5 state)) 5 5 0 Hnd)
    as (_ & H5 & _).
  split.
  - apply H3. split; [reflexivity|lia].
  - intros [_ Hne]%H5. done.
Defined.

(** Without that, [deselectPage] leaves the index selected. *)
Lemma deselectPage_duplicate :
  let s := writeArr state 0 [2; 2] in
  isPageSelected 2 (deselectPage 2 s) = true.
Proof. reflexivity. Qed.

(** X2.  Toggling the same index twice gives back the selection. *)
Theorem toggle_twice (s : AppState) (i : Z) :
  ascendingNoDup (selection s) →
  selection (togglePageSelection i (togglePageSelection i s)) = selection s.
Proof.
  intros Hs. pose proof (ascendingNoDup_strict _ Hs) as Hst.
  destruct Hs as [Hsorted Hnd].
  assert (Hs1 : strict (selection (togglePageSelection i s))).
  { apply (runOp_strict (TogglePageSelection i)). done. }
  assert (Hs2 : strict (selection (togglePageSelection i (togglePageSelection i s)))).
  { apply (runOp_strict (TogglePageSelection i)). done. }
  apply (Sorted_unique Z.le).
  - by apply strict_ascendingNoDup.
  - done.
  - apply NoDup_Permutation.
    + by apply strict_ascendingNoDup.
    + done.
    + intros j.
      pose proof (selection_membership s i j 0 Hnd) as (_ & _ & Ht & _).
      pose proof (selection_membership (togglePageSelection i s) i j 0
                    (proj2 (strict_ascendingNoDup _ Hs1))) as (_ & _ & Ht2 & _).
      rewrite <- !isPageSelected_spec. rewrite Ht2.
      case_decide as Hji.
      * subst j. rewrite <- not_true_iff_false, Ht.
        rewrite ?decide_True by done. rewrite not_false_iff_true. done.
      * rewrite Ht. by rewrite ?decide_False by done.
Qed.

Lemma toggle_twice_witness :
  selection (togglePageSelection 4 (togglePageSelection 4
    (runOps [SelectPage 7; SelectPage 2] state))) = [2; 7].
Proof.
  rewrite (toggle_twice (runOps [SelectPage 7; SelectPage 2] state) 4).
  - reflexivity.
  - apply (bool_decide_unpack _). vm_compute. exact I.
Defined.

End SelectionProps.

(** ** documentManager.ts: registry, history and download *)
Module DocumentProps.
Import DocumentManager ManagerProps Ribbon.

Ltac wp_go :=
  lazymatch goal with
  | |- wp (mbind _ _) _ _ _ => apply wp_bind
  | |- wp (gets _) _ _ _ => apply wp_gets
  | |- wp (mret _) _ _ _ => apply wp_ret
  | |- wp (throw _) _ _ _ => apply wp_throw
  end; cbv beta.

Ltac of_run Hrun :=
  lazymatch type of Hrun with
  | ?m ?s = Returned ?s' ?a =>
      pattern s', a;
      lazymatch goal with
      | |- ?P s' a =>
          apply (wp_returned m s P (λ _ _, True) s' a); [|exact Hrun]
      end
  end.

Section Documents.
Context `{PdfLib} `{PdfJs}.

#[local] Arguments newPageArray : simpl never.
#[local] Arguments allocBuf : simpl never.
#[local] Arguments allocDoc : simpl never.
#[local] Arguments readBytes : simpl never.
#[local] Arguments readPages : simpl never.

(** *** Opening *)

(** [createDocumentFromBytes], telling the two rejections apart. *)
Lemma wp_createDocumentFromBytes_cases bytes fileName s Q E :
  (∀ s' e,
     (e = LoadRejected ∧ PDFDocument_load (readBytes (heap s) bytes) = None) ∨
     (e = GetDocumentRejected ∧ is_Some (PDFDocument_load (readBytes (heap s) bytes)) ∧
      getDocument (readBytes (heap s) bytes) = None) →
     documents s' = documents s → activeDocIndex s' = activeDocIndex s →
     tabIdCounter s' = tabIdCounter s → docObjs (heap s') = docObjs (heap s) →
     effects s' = effects s →
     extends (heap s) (heap s') → E s' e) →
  (∀ s' d a pd pj,
     PDFDocument_load (readBytes (heap s) bytes) = Some pd →
     getDocument (readBytes (heap s) bytes) = Some pj →
     documents s' = documents s ++ [d] →
     activeDocIndex s' = Z.of_nat (length (documents s)) →
     tabIdCounter s' = S (tabIdCounter s) →
     extends (heap s) (heap s') →
     (nextLoc (heap s) ≤ d < nextLoc (heap s'))%nat →
     docObjs (heap s') =
       <[d := created (tabIdCounter s) fileName bytes a pd pj]> (docObjs (heap s)) →
     effects s' = effects s ++ [RenderTabs; UpdateToolStates; RefreshViewer] →
     validArr (heap s') a →
     readPages (heap s') a =
       freshPages (λ i, "page-" +:+ pretty (tabIdCounter s) +:+ "-" +:+ pretty i)
                  (getPageCount pd) →
     Q s' d) →
  wp (createDocumentFromBytes bytes fileName) s Q E.
Proof.
  intros HE HQ.
  unfold createDocumentFromBytes, renderTabs, updateToolStatesFn, refreshViewerFn.
  repeat wp_go. apply wp_await; [intros pd Hpd|intros Hnone].
  2: { apply HE; first [done | apply extends_refl | by left]. }
  repeat wp_go. apply wp_copyBytes. intros s1 c F1 D1 Ef1 C1 L1 R1.
  repeat wp_go. rewrite R1. apply wp_await; [intros pj Hpj|intros Hnone].
  2: { destruct F1 as (? & ? & ? & ?). apply HE; try done.
       right. rewrite Hpd. eauto. }
  repeat wp_go.
  apply (wp_newPageArray (λ _, freshPages _ (getPageCount pd))).
  intros s2 a F2 D2 Ef2 B2 R2 V2 Fr2.
  repeat wp_go. apply wp_modify.
  repeat wp_go. apply wp_alloc. cbv beta.
  set (doc0 := mkDocument _ _ _ _ _ _ _ _ _ _).
  set (s3 := set_tabIdCounter _ s2).
  set (s4 := set_heap (allocDoc (heap s3) doc0).1 s3).
  repeat (repeat wp_go; apply wp_modify).
  repeat wp_go.
  destruct F1 as (Fd1 & Fa1 & Ft1 & Fe1). destruct F2 as (Fd2 & Fa2 & Ft2 & Fe2).
  assert (E02 : extends (heap s) (heap s2)) by by eapply extends_trans.
  assert (E24 : extends (heap s2) (heap s4)) by apply extends_allocDoc.
  pose proof E02 as [Hn02 _].
  eapply (HQ _ (nextLoc (heap s2)) a pd pj); try done; simpl.
  - by rewrite Fd2, Fd1.
  - rewrite length_app, Fd2, Fd1. simpl. lia.
  - by rewrite Ft1.
  - by eapply extends_trans.
  - lia.
  - rewrite D2, D1. unfold doc0, created. by rewrite Ft1.
  - rewrite Ef2, Ef1. by rewrite <- !app_assoc.
  - by eapply validArr_extends.
  - rewrite (readPages_extends (heap s2)) by done. by rewrite R2, Ft1.
Qed.

Lemma freshPages_lookup mkId n i p :
  freshPages mkId n !! i = Some p →
  pageIndex p = Z.of_nat i ∧ rotation p = 0 ∧ deleted p = false.
Proof.
  unfold freshPages. rewrite list_lookup_fmap.
  destruct (seq 0 n !! i) as [j|] eqn:Hj; simpl; [|done].
  apply lookup_seq in Hj as [-> _]. by intros [= <-].
Qed.

Lemma freshPages_length mkId n : length (freshPages mkId n) = n.
Proof. unfold freshPages. by rewrite length_fmap, length_seq. Qed.

Lemma wp_openDocument_cases file s Q E :
  (∀ s' e,
     (e = LoadRejected ∧ PDFDocument_load (content file) = None) ∨
     (e = GetDocumentRejected ∧ is_Some (PDFDocument_load (content file)) ∧
      getDocument (content file) = None) →
     documents s' = documents s → activeDocIndex s' = activeDocIndex s →
     tabIdCounter s' = tabIdCounter s → docObjs (heap s') = docObjs (heap s) →
     effects s' = effects s →
     extends (heap s) (heap s') → E s' e) →
  (∀ s' d a b pd pj,
     PDFDocument_load (content file) = Some pd →
     getDocument (content file) = Some pj →
     documents s' = documents s ++ [d] →
     activeDocIndex s' = Z.of_nat (length (documents s)) →
     tabIdCounter s' = S (tabIdCounter s) →
     extends (heap s) (heap s') →
     (nextLoc (heap s) ≤ d < nextLoc (heap s'))%nat →
     docObjs (heap s') =
       <[d := created (tabIdCounter s) (name file) b a pd pj]> (docObjs (heap s)) →
     effects s' = effects s ++ [RenderTabs; UpdateToolStates; RefreshViewer] →
     validArr (heap s') a → (b < nextLoc (heap s'))%nat →
     readBytes (heap s') b = content file →
     readPages (heap s') a =
       freshPages (λ i, "page-" +:+ pretty (tabIdCounter s) +:+ "-" +:+ pretty i)
                  (getPageCount pd) →
     Q s' d) →
  wp (openDocument file) s Q E.
Proof.
  intros HE HQ. unfold openDocument.
  repeat wp_go. apply wp_allocBuf. intros s1 b F1 D1 Ef1 B1 L1 R1.
  destruct F1 as (Fd1 & Fa1 & Ft1 & Fe1).
  apply wp_createDocumentFromBytes_cases; rewrite R1.
  - intros s' e Hcase Hd Ha Ht Ho Hef He. apply HE; try congruence.
    by eapply extends_trans.
  - rewrite Fd1, Ft1, D1, Ef1.
    intros s' d a pd pj Hpd Hpj Hd Ha Ht He Hn Ho Hef Hv Hr.
    pose proof Fe1 as [Hn01 _]. pose proof He as [Hn1 _].
    apply (HQ s' d a b pd pj); try done.
    + by eapply extends_trans.
    + lia.
    + lia.
    + rewrite (readBytes_extends (heap s1)) by done. done.
Qed.

(** X3.  [openDocument] either adds nothing or adds one clean, active
    document at the end.  When one of the two parsers rejects the bytes
    the call throws and the registry, the id counter, the document objects
    and the UI are as before.  Otherwise the new document is last and
    active, has the next id, the name and bytes of the file, empty stacks,
    is clean and at page 1, and has one unrotated, undeleted
    page record per page, numbered from 0. *)
Theorem openDocument_outcome (file : File) (s : State) :
  match openDocument file s with
  | Threw s' e =>
      ((e = LoadRejected ∧ PDFDocument_load (content file) = None) ∨
       (e = GetDocumentRejected ∧ is_Some (PDFDocument_load (content file)) ∧
        getDocument (content file) = None)) ∧
      documents s' = documents s ∧ activeDocIndex s' = activeDocIndex s ∧
      tabIdCounter s' = tabIdCounter s ∧ docObjs (heap s') = docObjs (heap s) ∧
      effects s' = effects s
  | Returned s' d =>
      ∃ doc pd,
        PDFDocument_load (content file) = Some pd ∧
        is_Some (getDocument (content file)) ∧
        docObjs (heap s') !! d = Some doc ∧
        documents s' = documents s ++ [d] ∧ getActiveDocument s' = Some d ∧
        tabIdCounter s' = S (tabIdCounter s) ∧
        id doc = "doc-" +:+ pretty (S (tabIdCounter s)) ∧
        fileName doc = name file ∧
        readBytes (heap s') (pdfBytes doc) = content file ∧
        undoStack doc = [] ∧ redoStack doc = [] ∧
        isDirty doc = false ∧ currentPage doc = 1 ∧
        length (readPages (heap s') (pageData doc)) = getPageCount pd ∧
        (∀ i p, readPages (heap s') (pageData doc) !! i = Some p →
           pageIndex p = Z.of_nat i ∧ rotation p = 0 ∧ deleted p = false) ∧
        effects s' = effects s ++ [RenderTabs; UpdateToolStates; RefreshViewer]
  end.
Proof.
  change (wp (openDocument file) s
    (λ s' d, ∃ doc pd,
        PDFDocument_load (content file) = Some pd ∧
        is_Some (getDocument (content file)) ∧
        docObjs (heap s') !! d = Some doc ∧
        documents s' = documents s ++ [d] ∧ getActiveDocument s' = Some d ∧
        tabIdCounter s' = S (tabIdCounter s) ∧
        id doc = "doc-" +:+ pretty (S (tabIdCounter s)) ∧
        fileName doc = name file ∧
        readBytes (heap s') (pdfBytes doc) = content file ∧
        undoStack doc = [] ∧ redoStack doc = [] ∧
        isDirty doc = false ∧ currentPage doc = 1 ∧
        length (readPages (heap s') (pageData doc)) = getPageCount pd ∧
        (∀ i p, readPages (heap s') (pageData doc) !! i = Some p →
           pageIndex p = Z.of_nat i ∧ rotation p = 0 ∧ deleted p = false) ∧
        effects s' = effects s ++ [RenderTabs; UpdateToolStates; RefreshViewer])
    (λ s' e,
      ((e = LoadRejected ∧ PDFDocument_load (content file) = None) ∨
       (e = GetDocumentRejected ∧ is_Some (PDFDocument_load (content file)) ∧
        getDocument (content file) = None)) ∧
      documents s' = documents s ∧ activeDocIndex s' = activeDocIndex s ∧
      tabIdCounter s' = tabIdCounter s ∧ docObjs (heap s') = docObjs (heap s) ∧
      effects s' = effects s)).
  apply wp_openDocument_cases.
  - intros s' e Hcase Hd Ha Ht Ho Hef He. by split_and!.
  - intros s' d a b pd pj Hpd Hpj Hd Ha Ht He Hn Ho Hef Hv Hb Hrb Hr.
    exists (created (tabIdCounter s) (name file) b a pd pj), pd.
    split_and!; simpl; try done.
    + rewrite Ho. apply lookup_insert_eq.
    + unfold getActiveDocument. rewrite Ha, Hd.
      rewrite decide_True by lia. rewrite Nat2Z.id.
      rewrite lookup_app_r by lia. by rewrite Nat.sub_diag.
    + rewrite Hr. apply freshPages_length.
    + intros i p. rewrite Hr. apply freshPages_lookup.
Qed.

(** *** Document ids *)

Lemma string_app_inj_l (p a b : string) : p +:+ a = p +:+ b → a = b.
Proof.
  induction p as [|c p IH]; [done|].
  change (String c p +:+ a) with (String c (p +:+ a)).
  change (String c p +:+ b) with (String c (p +:+ b)).
  intros [= Hab]. by apply IH.
Qed.

(** The open documents carry ids [doc-k] for distinct numbers [k] that
    the counter has already passed, and live below the allocation
    frontier. *)
Definition idsInv (s : State) : Prop :=
  ∃ ks : list nat,
    Forall2 (λ d k, ∃ doc, docObjs (heap s) !! d = Some doc ∧
                           id doc = "doc-" +:+ pretty k) (documents s) ks ∧
    NoDup ks ∧ Forall (λ k, (k ≤ tabIdCounter s)%nat) ks ∧
    Forall (λ d, (d < nextLoc (heap s))%nat) (documents s).

Lemma ids_insert_fresh (m : gmap loc Document) d x docs ks :
  Forall (λ d', d' ≠ d) docs →
  Forall2 (λ d' k, ∃ doc, m !! d' = Some doc ∧
                          id doc = "doc-" +:+ pretty k) docs ks →
  Forall2 (λ d' (k : nat), ∃ doc, <[d := x]> m !! d' = Some doc ∧
                          id doc = "doc-" +:+ pretty k) docs ks.
Proof.
  intros Hne Hf. induction Hf as [|d' k ds ks' (doc & Hdoc & Hid) Hf IH];
    [constructor|].
  apply Forall_cons in Hne as [Hd' Hne]. constructor; [|by apply IH].
  exists doc. by rewrite lookup_insert_ne.
Qed.

Lemma idsInv_removed s s' i :
  documents s' = delete i (documents s) → heap s' = heap s →
  tabIdCounter s' = tabIdCounter s → idsInv s → idsInv s'.
Proof.
  intros Hd Hh Ht (ks & Hf & Hnd & Hle & Hlt). exists (delete i ks).
  rewrite Hd, Hh, Ht. split_and!.
  - by apply Forall2_delete.
  - eapply sublist_NoDup; [done|apply sublist_delete].
  - by apply Forall_delete.
  - by apply Forall_delete.
Qed.

Lemma runRegistryOp_ids op s : idsInv s → idsInv (runRegistryOp op s).
Proof.
  intros Hinv. destruct op as [file|docId|docId]; simpl.
  - apply stateOf_wp. apply wp_openDocument.
    + intros s' e Hd Ha Ht Ho [Hn _].
      destruct Hinv as (ks & Hf & Hnd & Hle & Hlt). exists ks.
      rewrite Hd, Ht, Ho. split_and!; try done.
      eapply Forall_impl; [done|]. simpl. intros; lia.
    + intros s' d a b pd pj _ _ Hd _ Ht [Hn _] Hfresh Ho _ _ _ _.
      destruct Hinv as (ks & Hf & Hnd & Hle & Hlt).
      exists (ks ++ [S (tabIdCounter s)]). rewrite Hd, Ht, Ho. split_and!.
      * apply Forall2_app.
        -- apply ids_insert_fresh; [|done].
           eapply Forall_impl; [exact Hlt|]. simpl. intros; lia.
        -- constructor; [|constructor].
           eexists. rewrite lookup_insert_eq. done.
      * apply NoDup_app. split_and!; [done| |apply NoDup_singleton].
        intros k Hk ->%list_elem_of_singleton.
        rewrite Forall_forall in Hle. apply Hle in Hk. lia.
      * apply Forall_app. split; [|constructor; [lia|constructor]].
        eapply Forall_impl; [done|]. simpl. intros; lia.
      * apply Forall_app. split; [|constructor; [lia|constructor]].
        eapply Forall_impl; [done|]. simpl. intros; lia.
  - destruct (decide (findIndex s docId = -1)) as [Hi|Hi].
    { by rewrite closeDocument_absent. }
    destruct (findIndex_found s docId Hi) as (i & d & doc & Hi' & Hl & Hd & _).
    apply stateOf_wp. eapply wp_closeDocument; eauto.
    intros _ s' Hdocs Hh Ht _. by eapply idsInv_removed.
  - destruct (decide (findIndex s docId = -1)) as [Hi|Hi].
    { by rewrite forceCloseDocument_absent. }
    destruct (findIndex_found s docId Hi) as (i & d & doc & Hi' & Hl & Hd & _).
    apply stateOf_wp. eapply wp_forceCloseDocument; eauto.
    intros s' Hdocs Hh Ht _. by eapply idsInv_removed.
Qed.

Lemma runRegistryOps_ids ops s : idsInv s → idsInv (runRegistryOps ops s).
Proof.
  unfold runRegistryOps. revert s.
  induction ops as [|op ops IH]; intros s Hinv; simpl; [done|].
  by apply IH, runRegistryOp_ids.
Qed.

Lemma idsInv_unique s : idsInv s → uniqueIds s.
Proof.
  intros (ks & Hf & Hnd & _ & _) i j d1 d2 doc1 doc2 Hi Hj Hd1 Hd2 Hid.
  destruct (Forall2_lookup_l _ _ _ _ _ Hf Hi) as (k1 & Hk1 & doc1' & Hd1' & Hid1).
  destruct (Forall2_lookup_l _ _ _ _ _ Hf Hj) as (k2 & Hk2 & doc2' & Hd2' & Hid2).
  assert (doc1' = doc1) as -> by congruence.
  assert (doc2' = doc2) as -> by congruence.
  rewrite Hid1, Hid2 in Hid. apply string_app_inj_l, (inj pretty) in Hid.
  subst k2. by eapply NoDup_lookup.
Qed.

Lemma reachable_uniqueIds ops : uniqueIds (runRegistryOps ops initial).
Proof.
  apply idsInv_unique, runRegistryOps_ids. exists []. by repeat constructor.
Qed.

(** X4.  Whatever documents are opened and closed, no two open documents
    share an id: ids are [doc-k] for the value [k] of a counter that only
    grows, so the id of a closed document is never given out again. *)
Theorem ids_unique (ops : list RegistryOp) :
  let s := runRegistryOps ops initial in
  uniqueIds s ∧
  ∀ i d, documents s !! i = Some d →
    ∃ doc k, docObjs (heap s) !! d = Some doc ∧ id doc = "doc-" +:+ pretty k ∧
             (k ≤ tabIdCounter s)%nat.
Proof.
  intros s.
  assert (Hinv : idsInv s).
  { apply runRegistryOps_ids. exists []. by repeat constructor. }
  split; [by apply idsInv_unique|].
  destruct Hinv as (ks & Hf & _ & Hle & _). intros i d Hi.
  destruct (Forall2_lookup_l _ _ _ _ _ Hf Hi) as (k & Hk & doc & Hd & Hid).
  exists doc, k. split_and!; try done.
  rewrite Forall_forall in Hle. apply Hle. by eapply list_elem_of_lookup_2.
Qed.

(** X5.  In every reachable state the ribbon's [hasDoc] and its [activeDoc]
    agree: some document is open exactly when there is an active
    document, and the active document is one of the open ones. *)
Theorem active_document_iff_any (ops : list RegistryOp) :
  let s := runRegistryOps ops initial in
  (hasAnyDocument s = true ↔ is_Some (activeDoc s)) ∧
  (hasAnyDocument s = false ↔ getActiveDocument s = None) ∧
  (∀ d, getActiveDocument s = Some d → d ∈ documents s).
Proof.
  intros s.
  assert (Hok : registryOk s) by (apply runRegistryOps_ok; by left).
  assert (Hinv : idsInv s).
  { apply runRegistryOps_ids. exists []. by repeat constructor. }
  destruct Hinv as (ks & Hf & _ & _ & _).
  unfold hasAnyDocument, activeDoc, getActiveDocument.
  destruct Hok as [[Hnil Ha]|Hr].
  - rewrite Hnil, Ha. simpl. split_and!.
    + split; [done|]. by intros [? ?].
    + done.
    + done.
  - rewrite decide_True by lia.
    destruct (lookup_lt_is_Some_2 (documents s) (Z.to_nat (activeDocIndex s)))
      as [d Hd]; [lia|].
    rewrite Hd. simpl.
    destruct (Forall2_lookup_l _ _ _ _ _ Hf Hd) as (k & _ & doc & Hdoc & _).
    rewrite Hdoc.
    assert (Hlen : (0 < length (documents s))%nat) by lia.
    split_and!.
    + split; [eauto|]. intros _. by apply bool_decide_eq_true.
    + split; [|done]. intros Hno%bool_decide_eq_false. lia.
    + intros d' [= <-]. by eapply list_elem_of_lookup_2.
Qed.

(** *** Switching *)

Lemma findIndexFrom_hit h docs docId k d doc :
  0 ≤ k → d ∈ docs → docObjs h !! d = Some doc → id doc = docId →
  findIndexFrom h docs docId k ≠ -1.
Proof.
  revert k. induction docs as [|d' docs IH]; intros k Hk Hin Hd Hid.
  { by apply elem_of_nil in Hin. }
  simpl. apply elem_of_cons in Hin as [->|Hin].
  - rewrite Hd. rewrite decide_True by done. lia.
  - destruct (docObjs h !! d') as [doc'|]; [case_decide; [lia|]|];
      apply IH; auto; lia.
Qed.

Lemma findIndex_unique s i d doc :
  uniqueIds s → documents s !! i = Some d → docObjs (heap s) !! d = Some doc →
  findIndex s (id doc) = Z.of_nat i.
Proof.
  intros Hu Hi Hd.
  assert (Hne : findIndex s (id doc) ≠ -1).
  { eapply findIndexFrom_hit; [lia| |done|done]. by eapply list_elem_of_lookup_2. }
  destruct (findIndex_found s (id doc) Hne) as (i' & d' & doc' & -> & Hi' & Hd' & Hid).
  f_equal. by eapply Hu.
Qed.

(** X6.  [switchToDocument] makes the open document with the given id the
    active one and leaves the documents themselves alone; the tabs, tools
    and viewer are refreshed only when the active document changes.  For an
    id that no open document has, nothing happens. *)
Theorem switchToDocument_spec (s : State) (i : nat) (d : loc) (doc : Document) :
  uniqueIds s → documents s !! i = Some d → docObjs (heap s) !! d = Some doc →
  (∃ s', switchToDocument (id doc) s = Returned s' tt ∧
     getActiveDocument s' = Some d ∧
     documents s' = documents s ∧ heap s' = heap s ∧
     tabIdCounter s' = tabIdCounter s ∧
     effects s' = effects s ++
       (if decide (activeDocIndex s = Z.of_nat i) then []
        else [RenderTabs; UpdateToolStates; RefreshViewer])) ∧
  (∀ docId, (∀ d' doc', d' ∈ documents s → docObjs (heap s) !! d' = Some doc' →
               id doc' ≠ docId) →
     switchToDocument docId s = Returned s tt).
Proof.
  intros Hu Hi Hd. split.
  - pose proof (findIndex_unique s i d doc Hu Hi Hd) as Hidx.
    unfold switchToDocument, mbind, M_bind, gets, modify, mret, M_ret,
      renderTabs, updateToolStatesFn, refreshViewerFn. rewrite Hidx.
    destruct (decide (activeDocIndex s = Z.of_nat i)) as [Ha|Ha].
    + rewrite decide_False by (intros [_ ?]; congruence).
      exists s. split_and!; try done.
      * unfold getActiveDocument. rewrite Ha, decide_True by lia.
        by rewrite Nat2Z.id.
      * by rewrite app_nil_r.
    + rewrite decide_True by (split; [lia|congruence]).
      eexists. split; [reflexivity|]. simpl. split_and!; try done.
      * unfold getActiveDocument; simpl. rewrite decide_True by lia.
        by rewrite Nat2Z.id.
      * by rewrite <- !app_assoc.
  - intros docId Hno.
    unfold switchToDocument, mbind, M_bind, gets, findIndex.
    rewrite findIndexFrom_absent by done.
    by rewrite decide_False by (intros [? _]; done).
Qed.

(** *** Which document is active after a close *)

(** The document shown after the entry at [i] has gone: closing a
    background tab keeps the active document; closing the active tab
    activates the tab that followed it, or the one before it when it was
    the last, or none when it was the only one. *)
Definition nextActive (i : nat) (s : State) : option loc :=
  if decide (activeDocIndex s = Z.of_nat i) then
    match documents s !! S i with
    | Some next => Some next
    | None => if decide (i = 0%nat) then None else documents s !! (i - 1)%nat
    end
  else getActiveDocument s.

Lemma removeAt_exact (i : nat) s :
  (i < length (documents s))%nat → registryOk s →
  ∃ s', removeAt (Z.of_nat i) s = Returned s' tt ∧
        documents s' = delete i (documents s) ∧
        heap s' = heap s ∧ tabIdCounter s' = tabIdCounter s ∧
        getActiveDocument s' = nextActive i s ∧
        effects s' = effects s ++
          (if decide (length (documents s) = 1%nat)
           then [ClearViewer; RenderTabs; UpdateToolStates]
           else [RenderTabs; UpdateToolStates; RefreshViewer]).
Proof.
  intros Hi Hok.
  assert (Hlen : length (delete i (documents s)) = (length (documents s) - 1)%nat).
  { rewrite length_delete; [lia|]. by apply lookup_lt_is_Some_2. }
  assert (Ha : 0 ≤ activeDocIndex s < Z.of_nat (length (documents s))).
  { destruct Hok as [[Hnil _]|?]; [|done]. rewrite Hnil in Hi. simpl in Hi. lia. }
  assert (Hnext : ∀ j, (length (documents s) ≤ j)%nat → documents s !! j = None).
  { intros j Hj. by apply lookup_ge_None_2. }
  assert (Hsome : ∀ j, (j < length (documents s))%nat → is_Some (documents s !! j)).
  { intros j Hj. by apply lookup_lt_is_Some_2. }
  unfold removeAt, mbind, M_bind, gets, modify, mret, M_ret,
    clearViewerFn, renderTabs, updateToolStatesFn, refreshViewerFn; simpl.
  rewrite Nat2Z.id, Hlen.
  repeat case_decide; simpl in *; repeat case_decide; simpl in *; try lia;
    (eexists; split; [reflexivity|]); simpl; split_and!; try done;
    rewrite <- ?app_assoc; try done;
    unfold getActiveDocument, nextActive; simpl;
    repeat case_decide; simpl in *; try lia.
  all: unfold getActiveDocument; rewrite ?decide_True by lia.
  all: first
    [ rewrite (Hnext (S i)) by lia
    | let x := fresh "x" in let Hx := fresh "Hx" in
      destruct (Hsome (S i)) as [x Hx]; [lia|]; rewrite Hx; rewrite <- Hx
    | idtac ].
  all: first
    [ done
    | rewrite list_lookup_delete_lt by lia; f_equal; lia
    | rewrite list_lookup_delete_ge by lia; f_equal; lia ].
Qed.

Lemma nextActive_same i s s1 :
  documents s1 = documents s → activeDocIndex s1 = activeDocIndex s →
  nextActive i s1 = nextActive i s.
Proof.
  intros Hd Ha. unfold nextActive, getActiveDocument. by rewrite Hd, Ha.
Qed.

Lemma wp_removeAt_exact (i : nat) s Q E :
  (i < length (documents s))%nat → registryOk s →
  (∀ s', documents s' = delete i (documents s) → heap s' = heap s →
         tabIdCounter s' = tabIdCounter s →
         getActiveDocument s' = nextActive i s →
         effects s' = effects s ++
           (if decide (length (documents s) = 1%nat)
            then [ClearViewer; RenderTabs; UpdateToolStates]
            else [RenderTabs; UpdateToolStates; RefreshViewer]) →
         Q s' tt) →
  wp (removeAt (Z.of_nat i)) s Q E.
Proof.
  intros Hi Hok HQ.
  destruct (removeAt_exact i s Hi Hok) as (s' & Hrun & ? & ? & ? & ? & ?).
  unfold wp. rewrite Hrun. by apply HQ.
Qed.

Lemma wp_destroyProxy_exact p s Q E :
  (∀ s', heap s' = heap s → documents s' = documents s →
         activeDocIndex s' = activeDocIndex s → tabIdCounter s' = tabIdCounter s →
         effects s' = effects s ++ match p with Some pj => [Destroy pj] | None => [] end →
         Q s' tt) →
  wp (destroyProxy p) s Q E.
Proof.
  intros HQ. destruct p; apply HQ; try done. by rewrite app_nil_r.
Qed.

(** What the two closing functions emit: the raster handle is destroyed,
    then the viewer is cleared when no document is left and refreshed
    otherwise. *)
Definition closeEffects (doc : Document) (s : State) : list Effect :=
  match pdfJsDoc doc with Some pj => [Destroy pj] | None => [] end ++
  (if decide (length (documents s) = 1%nat)
   then [ClearViewer; RenderTabs; UpdateToolStates]
   else [RenderTabs; UpdateToolStates; RefreshViewer]).

(** X7.  Closing the document open under [docId] ([forceCloseDocument], or
    [closeDocument] when it is clean) removes its entry and activates the
    document [nextActive] names; the viewer is refreshed, or cleared when
    no document is left. *)
Theorem close_activates_neighbour (s : State) (docId : string) (i : nat) :
  registryOk s → findIndex s docId = Z.of_nat i →
  ∃ d doc, documents s !! i = Some d ∧ docObjs (heap s) !! d = Some doc ∧
    (∃ s', forceCloseDocument docId s = Returned s' tt ∧
       documents s' = delete i (documents s) ∧
       getActiveDocument s' = nextActive i s ∧
       effects s' = effects s ++ closeEffects doc s) ∧
    (isDirty doc = false →
     ∃ s', closeDocument docId s = Returned s' true ∧
       documents s' = delete i (documents s) ∧
       getActiveDocument s' = nextActive i s ∧
       effects s' = effects s ++ closeEffects doc s).
Proof.
  intros Hok Hi.
  destruct (findIndex_found s docId) as (i' & d & doc & Hi' & Hl & Hd & _); [lia|].
  assert (i' = i) as -> by lia.
  exists d, doc. split_and!; try done.
  - cut (∃ s' u, forceCloseDocument docId s = Returned s' u ∧
           documents s' = delete i (documents s) ∧
           getActiveDocument s' = nextActive i s ∧
           effects s' = effects s ++ closeEffects doc s).
    { intros (s' & [] & ?). eauto. }
    apply wp_elim. unfold forceCloseDocument.
    repeat wp_go. rewrite Hi. rewrite decide_False by lia.
    repeat wp_go. rewrite Nat2Z.id, Hl.
    repeat wp_go. apply wp_getDoc; [|congruence]. intros doc' Hd'.
    assert (doc' = doc) as -> by congruence.
    repeat wp_go. apply wp_destroyProxy_exact. intros s1 H1 D1 A1 T1 Ef1.
    apply wp_removeAt_exact.
    + rewrite D1. by eapply lookup_lt_Some.
    + unfold registryOk in *. by rewrite D1, A1.
    + intros s2 D2 H2 T2 G2 Ef2. split_and!.
      * by rewrite D2, D1.
      * rewrite G2. by apply nextActive_same.
      * rewrite Ef2, Ef1, D1. unfold closeEffects. by rewrite <- app_assoc.
  - intros Hclean.
    cut (∃ s' b, closeDocument docId s = Returned s' b ∧ b = true ∧
           documents s' = delete i (documents s) ∧
           getActiveDocument s' = nextActive i s ∧
           effects s' = effects s ++ closeEffects doc s).
    { intros (s' & b & ? & -> & ?). eauto. }
    apply wp_elim. unfold closeDocument.
    repeat wp_go. rewrite Hi. rewrite decide_False by lia.
    repeat wp_go. rewrite Nat2Z.id, Hl.
    repeat wp_go. apply wp_getDoc; [|congruence]. intros doc' Hd'.
    assert (doc' = doc) as -> by congruence. rewrite Hclean.
    repeat wp_go. apply wp_destroyProxy_exact. intros s1 H1 D1 A1 T1 Ef1.
    repeat wp_go. apply wp_removeAt_exact.
    + rewrite D1. by eapply lookup_lt_Some.
    + unfold registryOk in *. by rewrite D1, A1.
    + intros s2 D2 H2 T2 G2 Ef2. repeat wp_go. split_and!.
      * done.
      * by rewrite D2, D1.
      * rewrite G2. by apply nextActive_same.
      * rewrite Ef2, Ef1, D1. unfold closeEffects. by rewrite <- app_assoc.
Qed.

(** *** When undo and redo act *)

Lemma wp_bind_any {A B} (m : M A) (k : A → M B) s (Q : State → B → Prop) :
  (∀ s' a, wp (k a) s' Q (λ _ _, True)) → wp (m ≫= k) s Q (λ _ _, True).
Proof.
  intros Hk. unfold wp, mbind, M_bind. destruct (m s) as [s' a|s' e]; [|done].
  apply Hk.
Qed.

Lemma last_is_Some {A} (l : list A) : (0 < length l)%nat → is_Some (last l).
Proof.
  intros Hl. destruct (snoc_of_length l Hl) as (l' & x & ->).
  rewrite last_snoc. eauto.
Qed.

Lemma undo_noop s :
  (∀ d, getActiveDocument s = Some d → is_Some (docObjs (heap s) !! d)) →
  canUndo s = false → undo s = Returned s false.
Proof.
  intros Hobj. unfold canUndo, activeDoc, undo, mbind, M_bind, gets, getDoc.
  destruct (getActiveDocument s) as [d|] eqn:Hact; simpl; [|done].
  destruct (Hobj d eq_refl) as [doc Hd]. rewrite Hd.
  intros Hno%bool_decide_eq_false.
  destruct (undoStack doc); [done|simpl in Hno; lia].
Qed.

Lemma redo_noop s :
  (∀ d, getActiveDocument s = Some d → is_Some (docObjs (heap s) !! d)) →
  canRedo s = false → redo s = Returned s false.
Proof.
  intros Hobj. unfold canRedo, activeDoc, redo, mbind, M_bind, gets, getDoc.
  destruct (getActiveDocument s) as [d|] eqn:Hact; simpl; [|done].
  destruct (Hobj d eq_refl) as [doc Hd]. rewrite Hd.
  intros Hno%bool_decide_eq_false.
  destruct (redoStack doc); [done|simpl in Hno; lia].
Qed.

(** X8.  The undo button of the ribbon is enabled exactly when [undo] would
    act: with [canUndo] false, [undo] returns [false] and changes
    nothing; with [canUndo] true it never returns [false] (it returns
    [true], unless a parser rejects the snapshot and it throws).  Likewise
    for redo. *)
Theorem undo_redo_enabled (s : State) :
  (∀ d, getActiveDocument s = Some d → is_Some (docObjs (heap s) !! d)) →
  (canUndo s = false → undo s = Returned s false) ∧
  (canUndo s = true → ∀ s' b, undo s = Returned s' b → b = true) ∧
  (canRedo s = false → redo s = Returned s false) ∧
  (canRedo s = true → ∀ s' b, redo s = Returned s' b → b = true).
Proof.
  intros Hobj. split_and!; [by apply undo_noop| |by apply redo_noop|];
    unfold canUndo, canRedo, activeDoc;
    (destruct (getActiveDocument s) as [d|] eqn:Hact; simpl; [|done]);
    destruct (Hobj d eq_refl) as [doc Hd]; rewrite Hd.
  - intros Hyes%bool_decide_eq_true s' b Hrun.
    refine (wp_returned undo s (λ _ b, b = true) (λ _ _, True) s' b _ Hrun).
    unfold undo. repeat wp_go. rewrite Hact.
    repeat wp_go. apply wp_getDoc; [|done]. intros doc' Hd'.
    assert (doc' = doc) as -> by congruence.
    destruct (last_is_Some (undoStack doc) Hyes) as [sn ->].
    repeat (apply wp_bind_any; intros ? ?). by apply wp_ret.
  - intros Hyes%bool_decide_eq_true s' b Hrun.
    refine (wp_returned redo s (λ _ b, b = true) (λ _ _, True) s' b _ Hrun).
    unfold redo. repeat wp_go. rewrite Hact.
    repeat wp_go. apply wp_getDoc; [|done]. intros doc' Hd'.
    assert (doc' = doc) as -> by congruence.
    destruct (last_is_Some (redoStack doc) Hyes) as [sn ->].
    repeat (apply wp_bind_any; intros ? ?). by apply wp_ret.
Qed.

(** *** The dirty flag survives undo *)

Lemma edits_dirty d edits : ∀ s doc s',
  docInv s d doc → runEdits d edits s = Some s' → edits ≠ [] →
  ∃ doc', docObjs (heap s') !! d = Some doc' ∧ isDirty doc' = true.
Proof.
  induction edits as [|[saved clock] rest IH]; intros s doc s' Hinv Hrun Hne;
    [done|]. simpl in Hrun.
  destruct (savePdfDocToActive clock d saved s) as [s1 []|] eqn:Hsave; [|done].
  destruct (save_abs clock s d doc saved s1 Hinv Hsave)
    as (doc1 & pages & Hinv1 & F1 & Hdirty & Habs1).
  destruct rest as [|e rest].
  - simpl in Hrun. injection Hrun as <-. exists doc1. split; [apply Hinv1|done].
  - by apply (IH s1 doc1 s' Hinv1 Hrun).
Qed.

(** X9.  Undoing every change brings back the contents the document was
    opened with, but not its clean state: the document is still flagged
    dirty, nothing is left to undo and every change can be redone. *)
Theorem undo_all_still_dirty (s : State) (file : File) (s0 : State) (d : loc)
    (edits : list (list byte * (nat → N))) (sN : State) :
  openDocument file s = Returned s0 d → edits ≠ [] →
  runEdits d edits s0 = Some sN →
  ∃ doc0 sU docU,
    docObjs (heap s0) !! d = Some doc0 ∧ isDirty doc0 = false ∧
    repeatOk (length edits) undo sN = Some sU ∧
    docObjs (heap sU) !! d = Some docU ∧ getActiveDocument sU = Some d ∧
    docView sU d = docView s0 d ∧ isDirty docU = true ∧
    canUndo sU = false ∧ canRedo sU = true.
Proof.
  intros Hopen Hne Hedits.
  destruct (open_abs file s s0 d Hopen)
    as (doc0 & pages0 & Hinv0 & Hact0 & Hclean & Habs0).
  assert (HR0 : redoStack doc0 = []).
  { apply (f_equal (λ a, a.2)) in Habs0. by apply fmap_nil_inv in Habs0. }
  assert (HU0 : undoStack doc0 = []).
  { apply (f_equal (λ a, a.1.2)) in Habs0. by apply fmap_nil_inv in Habs0. }
  destruct (edits_abs d edits s0 doc0 sN Hinv0 HR0 Hedits)
    as (docN & HinvN & FN & HRN & HlenN & HhdN).
  destruct (edits_dirty d edits s0 doc0 sN Hinv0 Hedits Hne) as (docN' & HdN & HdirtyN).
  assert (docN' = docN) as ->.
  { destruct HinvN as (HdN' & _). congruence. }
  assert (HactN : getActiveDocument sN = Some d)
    by by rewrite (getActiveDocument_frame s0 sN).
  rewrite HU0 in HlenN. simpl in HlenN.
  destruct (undo_n d (length edits) sN docN HinvN HactN ltac:(lia))
    as (sU & docU & Hu & HinvU & HactU & HdirtyU & HtU & HUU & HRU).
  exists doc0, sU, docU.
  assert (HliveU : liveView (heap sU) docU = liveView (heap s0) doc0).
  { assert (Hh : head (timeline (absDoc (heap sU) docU)) =
                 head (timeline (absDoc (heap s0) doc0))) by congruence.
    unfold timeline, absDoc in Hh; simpl in Hh.
    rewrite HU0 in Hh. destruct (undoStack docU); [|simpl in HUU; lia].
    simpl in Hh. congruence. }
  destruct (docInv_views _ _ _ Hinv0) as [Hv0 _].
  destruct (docInv_views _ _ _ HinvU) as [HvU _].
  assert (Hlen : (0 < length edits)%nat).
  { destruct edits; [done|simpl; lia]. }
  split_and!; try done.
  - apply Hinv0.
  - apply HinvU.
  - by rewrite Hv0, HvU, HliveU.
  - congruence.
  - unfold canUndo, activeDoc. rewrite HactU. simpl.
    destruct HinvU as (-> & _). apply bool_decide_eq_false. lia.
  - unfold canRedo, activeDoc. rewrite HactU. simpl.
    destruct HinvU as (-> & _). apply bool_decide_eq_true. lia.
Qed.

(** X10.  A change made after undoing discards what was undone: after [n]
    undos (of at least [n] changes) redo is possible, and after one more
    successful change it is not, [redo] returning [false] without
    touching anything, while undo is possible. *)
Theorem edit_discards_redo (s : State) (file : File) (s0 : State) (d : loc)
    (edits : list (list byte * (nat → N))) (sN : State) (n : nat) (sU : State)
    (clock : nat → N) (saved : list byte) (s' : State) :
  openDocument file s = Returned s0 d → runEdits d edits s0 = Some sN →
  (0 < n ≤ length edits)%nat → repeatOk n undo sN = Some sU →
  savePdfDocToActive clock d saved sU = Returned s' tt →
  canRedo sU = true ∧
  canRedo s' = false ∧ redo s' = Returned s' false ∧ canUndo s' = true.
Proof.
  intros Hopen Hedits Hn Hundo Hsave.
  destruct (open_abs file s s0 d Hopen)
    as (doc0 & pages0 & Hinv0 & Hact0 & Hclean & Habs0).
  assert (HR0 : redoStack doc0 = []).
  { apply (f_equal (λ a, a.2)) in Habs0. by apply fmap_nil_inv in Habs0. }
  assert (HU0 : undoStack doc0 = []).
  { apply (f_equal (λ a, a.1.2)) in Habs0. by apply fmap_nil_inv in Habs0. }
  destruct (edits_abs d edits s0 doc0 sN Hinv0 HR0 Hedits)
    as (docN & HinvN & FN & HRN & HlenN & HhdN).
  assert (HactN : getActiveDocument sN = Some d)
    by by rewrite (getActiveDocument_frame s0 sN).
  rewrite HU0 in HlenN. simpl in HlenN.
  destruct (undo_n d n sN docN HinvN HactN ltac:(lia))
    as (sU' & docU & Hu & HinvU & HactU & _ & _ & HUU & HRU).
  assert (sU' = sU) as -> by congruence.
  destruct (save_abs clock sU d docU saved s' HinvU Hsave)
    as (doc' & pages & Hinv' & F' & _ & Habs').
  assert (Hact' : getActiveDocument s' = Some d)
    by by rewrite (getActiveDocument_frame sU s').
  assert (HR' : redoStack doc' = []).
  { apply (f_equal (λ a, a.2)) in Habs'. by apply fmap_nil_inv in Habs'. }
  assert (HU' : (0 < length (undoStack doc'))%nat).
  { apply (f_equal (λ a, length a.1.2)) in Habs'. simpl in Habs'.
    rewrite length_app, !length_fmap in Habs'. simpl in Habs'. lia. }
  assert (Hcr : canRedo s' = false).
  { unfold canRedo, activeDoc. rewrite Hact'. simpl.
    destruct Hinv' as (-> & _). by rewrite HR'. }
  split_and!.
  - unfold canRedo, activeDoc. rewrite HactU. simpl.
    destruct HinvU as (-> & _). apply bool_decide_eq_true. rewrite HRU. lia.
  - done.
  - apply redo_noop; [|done]. intros d' Hd'.
    assert (d' = d) as -> by congruence. destruct Hinv' as (-> & _). eauto.
  - unfold canUndo, activeDoc. rewrite Hact'. simpl.
    destruct Hinv' as (-> & _). by apply bool_decide_eq_true.
Qed.

(** *** Download *)



Lemma download_without_document now s :
  getActiveDocument s = None → downloadActiveDocument now s = Returned s tt.
Proof.
  intros Hact. unfold downloadActiveDocument, mbind, M_bind, gets. by rewrite Hact.
Qed.

(** *** Page records after an update *)

(** X12.  After a successful [savePdfDocToActive] the page records are kept as
    they are (the same array object) when the new PDF has as many pages as
    there are records not marked deleted; otherwise they are replaced by
    one record per page with rotation 0 and not deleted.  The current page
    is never adjusted, whatever the new page count. *)
Theorem update_page_records (clock : nat → N) (s : State) (d : loc)
    (doc : Document) (saved : list byte) (s' : State) :
  docObjs (heap s) !! d = Some doc → validArr (heap s) (pageData doc) →
  savePdfDocToActive clock d saved s = Returned s' tt →
  ∃ doc' pd,
    docObjs (heap s') !! d = Some doc' ∧ PDFDocument_load saved = Some pd ∧
    id doc' = id doc ∧ fileName doc' = fileName doc ∧
    currentPage doc' = currentPage doc ∧
    readBytes (heap s') (pdfBytes doc') = saved ∧
    (getPageCount pd = liveCount (heap s) doc →
       pageData doc' = pageData doc ∧
       readPages (heap s') (pageData doc') = readPages (heap s) (pageData doc)) ∧
    (getPageCount pd ≠ liveCount (heap s) doc →
       length (readPages (heap s') (pageData doc')) = getPageCount pd ∧
       ∀ i p, readPages (heap s') (pageData doc') !! i = Some p →
         pageIndex p = Z.of_nat i ∧ rotation p = 0 ∧ deleted p = false).
Proof.
  intros Hd Hva Hrun. of_run Hrun.
  unfold savePdfDocToActive.
  repeat wp_go. apply wp_allocBuf. intros s1 b F1 D1 Ef1 B1 L1 R1.
  assert (E01 : extends (heap s) (heap s1)) by apply F1.
  eapply wp_updateDocumentBytes; try done.
  - by rewrite D1.
  - by eapply validArr_extends.
  - intros s2 sn pd pj a Hpd Hpj F2 D2 Hsv Hvs Hfs Hv Hap Hpages.
    assert (E12 : extends (heap s1) (heap s2)) by apply F2.
    assert (E02 : extends (heap s) (heap s2)) by by eapply extends_trans.
    exists (updated sn b a pd pj doc), pd.
    assert (Hlc : liveCount (heap s1) doc = liveCount (heap s) doc).
    { unfold liveCount. by rewrite (readPages_extends (heap s) (heap s1)). }
    rewrite Hlc in Hpages.
    split_and!; simpl; try done.
    + rewrite D2. apply lookup_insert_eq.
    + by rewrite <- R1.
    + rewrite (readBytes_extends (heap s1)) by done. done.
    + intros Heq. rewrite decide_False in Hpages by (intros ?; done).
      subst a. split; [done|]. by apply readPages_extends.
    + intros Hne. rewrite decide_True in Hpages by done. rewrite Hpages.
      split; [apply freshPages_length|]. intros i p. apply freshPages_lookup.
Qed.

End Documents.

(** *** Runs with the concrete codec *)

#[local] Existing Instance toyPdfLib.
#[local] Existing Instance toyPdfJs.

(** Two copies of [onePage] open: objects 4 and 9, the second active. *)
Definition twoDocs : State := runRegistryOps [Open onePage; Open onePage] initial.

Lemma switchToDocument_spec_witness :
  ∃ s', switchToDocument "doc-1" twoDocs = Returned s' tt ∧
        getActiveDocument s' = Some 4%nat.
Proof.
  destruct (proj1 (switchToDocument_spec twoDocs 0 4 (docAt twoDocs 4)
              (reachable_uniqueIds _) eq_refl eq_refl))
    as (s' & Hrun & Hact & _).
  exists s'. split; [exact Hrun|exact Hact].
Defined.

Lemma close_activates_neighbour_witness :
  ∃ s', forceCloseDocument "doc-2" twoDocs = Returned s' tt ∧
        getActiveDocument s' = Some 4%nat.
Proof.
  destruct (close_activates_neighbour twoDocs "doc-2" 1)
    as (d & doc & _ & _ & (s' & Hrun & _ & Hact & _) & _).
  - right. vm_compute. split; [discriminate|reflexivity].
  - vm_compute. reflexivity.
  - exists s'. split; [exact Hrun|]. rewrite Hact. vm_compute. reflexivity.
Defined.

Lemma undo_redo_enabled_witness :
  undo opened = Returned opened false ∧ redo opened = Returned opened false.
Proof.
  assert (Hobj : ∀ d, getActiveDocument opened = Some d →
                      is_Some (docObjs (heap opened) !! d)).
  { intros d [= <-]. vm_compute. eauto. }
  destruct (undo_redo_enabled opened Hobj) as (Hu & _ & Hr & _).
  split; [apply Hu|apply Hr]; vm_compute; reflexivity.
Defined.

Lemma undo_all_still_dirty_witness :
  let edits := [([x02], λ _, 7%N); ([x02; x00], λ _, 9%N)] in
  let sN := default opened (runEdits 4 edits opened) in
  ∃ doc0 sU docU,
    docObjs (heap opened) !! 4%nat = Some doc0 ∧ isDirty doc0 = false ∧
    repeatOk 2 undo sN = Some sU ∧
    docObjs (heap sU) !! 4%nat = Some docU ∧ getActiveDocument sU = Some 4%nat ∧
    docView sU 4 = docView opened 4 ∧ isDirty docU = true ∧
    canUndo sU = false ∧ canRedo sU = true.
Proof.
  intros edits sN.
  apply (undo_all_still_dirty initial onePage opened 4%nat edits sN).
  - vm_compute. reflexivity.
  - discriminate.
  - vm_compute. reflexivity.
Defined.


Lemma update_page_records_witness :
  let s' := stateOf (savePdfDocToActive (λ _, 7%N) 4 [x03; x00] opened) in
  ∃ doc' pd,
    docObjs (heap s') !! 4%nat = Some doc' ∧
    PDFDocument_load [x03; x00] = Some pd ∧ getPageCount pd = 3%nat ∧
    length (readPages (heap s') (pageData doc')) = 3%nat.
Proof.
  intros s'.
  destruct (update_page_records (λ _, 7%N) opened 4 (docAt opened 4)
              [x03; x00] s')
    as (doc' & pd & Hd & Hpd & _ & _ & _ & _ & _ & Hregen).
  - vm_compute. reflexivity.
  - apply validArrb_spec. vm_compute. reflexivity.
  - vm_compute. reflexivity.
  - exists doc', pd. injection Hpd as <-.
    split_and!; [exact Hd|reflexivity|reflexivity|].
    apply Hregen. vm_compute. lia.
Defined.

Lemma edit_discards_redo_witness :
  let edits := [([x02], λ _, 7%N); ([x02; x00], λ _, 9%N)] in
  let sN := default opened (runEdits 4 edits opened) in
  let sU := default sN (repeatOk 1 undo sN) in
  let s' := stateOf (savePdfDocToActive (λ _, 3%N) 4 [x01; x01] sU) in
  canRedo sU = true ∧
  canRedo s' = false ∧ redo s' = Returned s' false ∧ canUndo s' = true.
Proof.
  intros edits sN sU s'.
  apply (edit_discards_redo initial onePage opened 4%nat edits sN 1 sU
           (λ _, 3%N) [x01; x01] s').
  - vm_compute. reflexivity.
  - vm_compute. reflexivity.
  - simpl. lia.
  - vm_compute. reflexivity.
  - vm_compute. reflexivity.
Defined.

End DocumentProps.

(** ** Opening dropped files (main.ts) *)
Module MainProps.
Import DocumentManager ManagerProps DocumentProps Main.

Section Files.
Context `{PdfLib} `{PdfJs}.

#[local] Arguments readBytes : simpl never.

(** Both parsers accept the bytes of the file. *)
Definition parses (f : File) : bool :=
  bool_decide (is_Some (PDFDocument_load (content f))) &&
  bool_decide (is_Some (getDocument (content f))).

(** The files up to the first one that does not parse. *)
Fixpoint leading (files : list File) : list File :=
  match files with
  | [] => []
  | f :: rest => if parses f then f :: leading rest else []
  end.

(** Document [d] of heap [h] is the clean, unmodified copy of [f]. *)
Definition holds (h : Heap) (d : loc) (f : File) : Prop :=
  ∃ doc, docObjs h !! d = Some doc ∧ fileName doc = name f ∧
         isDirty doc = false ∧ undoStack doc = [] ∧
         (pdfBytes doc < nextLoc h)%nat ∧ readBytes h (pdfBytes doc) = content f.

(** What a run of [openEach] leaves behind. *)
Definition openedFrom (files : list File) (s s' : State) : Prop :=
  ∃ ds, documents s' = documents s ++ ds ∧
        Forall2 (holds (heap s')) ds (leading files) ∧
        (ds ≠ [] → getActiveDocument s' = last ds) ∧
        (ds = [] → activeDocIndex s' = activeDocIndex s) ∧
        extends (heap s) (heap s') ∧
        (∀ d, (d < nextLoc (heap s))%nat →
              docObjs (heap s') !! d = docObjs (heap s) !! d).

Lemma holds_later h h' d f :
  extends h h' → (d < nextLoc h)%nat →
  (∀ d0, (d0 < nextLoc h)%nat → docObjs h' !! d0 = docObjs h !! d0) →
  holds h d f → holds h' d f.
Proof.
  intros He Hd Hsame (doc & Hdoc & Hn & Hc & Hu & Hb & Hr). exists doc.
  split_and!; try done.
  - by rewrite Hsame.
  - destruct He as [? _]. lia.
  - by rewrite (readBytes_extends h h').
Qed.

Lemma openedFrom_cons f rest s s1 s' d a b pd pj :
  PDFDocument_load (content f) = Some pd → getDocument (content f) = Some pj →
  documents s1 = documents s ++ [d] →
  activeDocIndex s1 = Z.of_nat (length (documents s)) →
  extends (heap s) (heap s1) → (nextLoc (heap s) ≤ d < nextLoc (heap s1))%nat →
  docObjs (heap s1) =
    <[d := created (tabIdCounter s) (name f) b a pd pj]> (docObjs (heap s)) →
  (b < nextLoc (heap s1))%nat → readBytes (heap s1) b = content f →
  openedFrom rest s1 s' → openedFrom (f :: rest) s s'.
Proof.
  intros Hpd Hpj Hd Ha He Hn Ho Hb Hrb (ds & Hds & Hf & Hact & Hnone & He' & Hsame).
  exists (d :: ds).
  assert (Hp : parses f = true).
  { unfold parses. rewrite Hpd, Hpj.
    rewrite !bool_decide_eq_true_2 by eauto. done. }
  cbn [leading]. rewrite Hp. split_and!.
  - rewrite Hds, Hd. by rewrite <- app_assoc.
  - constructor; [|done].
    apply (holds_later (heap s1)); [done|lia|done|].
    eexists. rewrite Ho, lookup_insert_eq. split; [done|]. by split_and!.
  - intros _. destruct ds as [|d' ds'].
    + unfold getActiveDocument. rewrite Hnone by done. rewrite Ha, Hds, Hd.
      rewrite decide_True by lia. rewrite Nat2Z.id, app_nil_r.
      rewrite lookup_app_r by lia. by rewrite Nat.sub_diag.
    + by rewrite Hact.
  - done.
  - by eapply extends_trans.
  - intros d0 Hd0. destruct He as [? _].
    rewrite Hsame by lia. rewrite Ho. apply lookup_insert_ne. lia.
Qed.

Lemma openEach_spec files : ∀ s,
  wp (openEach files) s
     (λ s' _, openedFrom files s s' ∧ leading files = files)
     (λ s' _, openedFrom files s s' ∧ leading files ≠ files).
Proof.
  induction files as [|f rest IH]; intros s.
  - apply wp_ret. split; [|done]. exists [].
    rewrite app_nil_r. split_and!; first [done | constructor | apply extends_refl].
  - cbn [openEach]. apply wp_bind. apply wp_openDocument_cases.
    + intros s' e Hcase Hd Ha Ht Ho Hef He.
      assert (Hp : parses f = false).
      { unfold parses. destruct Hcase as [[_ Hl]|(_ & _ & Hg)].
        - rewrite Hl. rewrite (bool_decide_eq_false_2 (is_Some None)); [done|].
          by intros [? ?].
        - rewrite Hg. rewrite (bool_decide_eq_false_2 (is_Some None)).
          + apply andb_false_r.
          + by intros [? ?]. }
      unfold openedFrom. cbn [leading]. rewrite Hp. split; [|done]. exists [].
      rewrite app_nil_r.
      split_and!; first [done | constructor | intros d _; by rewrite Ho].
    + intros s1 d a b pd pj Hpd Hpj Hd Ha Ht He Hn Ho Hef Hv Hb Hrb Hr.
      assert (Hp : parses f = true).
      { unfold parses. rewrite Hpd, Hpj.
        rewrite !bool_decide_eq_true_2 by eauto. done. }
      eapply wp_mono; [apply IH|..]; cbv beta.
      * intros s' _ [Hop Hl]. split; [by eapply openedFrom_cons|].
        cbn [leading]. rewrite Hp. by rewrite Hl.
      * intros s' _ [Hop Hl]. split; [by eapply openedFrom_cons|].
        cbn [leading]. rewrite Hp. by intros [= ?].
Qed.

Lemma leading_all files : leading files = files ↔ forallb parses files = true.
Proof.
  induction files as [|f rest IH]; simpl; [done|].
  destruct (parses f); simpl; [|done]. rewrite <- IH. split; [by intros [= ?]|].
  by intros ->.
Qed.

(** X13.  [handleFiles] opens the PDF files among those it is given, in their
    order, up to the first one that a parser rejects: that file and the
    ones after it are not opened, and the user gets an error alert.  The
    opened documents are appended to the registry as clean copies of their
    files, the last of them active.  Without any PDF file nothing is
    opened and the user is told so.  The loader is hidden again in every
    case that showed it. *)
Theorem handleFiles_spec (files : list Upload) (a : State.AppState) (s : State) :
  let pdfFiles := file <$> filter (λ u, isPdf u = true) files in
  let r := handleFiles files a s in
  let a' := r.1.1 in
  let s' := r.1.2 in
  (pdfFiles = [] →
     r = (a, s, [ShowAlert "Invalid File" "Please select a PDF file."])) ∧
  (pdfFiles ≠ [] →
     openedFrom pdfFiles s s' ∧ State.isProcessing a' = false ∧
     State.selection a' = State.selection a ∧
     (forallb parses pdfFiles = true → leading pdfFiles = pdfFiles) ∧
     r.2 = if forallb parses pdfFiles then [ShowViewerToolbar]
           else [ConsoleError;
                 ShowAlert "Error"
                   "Failed to open PDF file. The file may be corrupted or password-protected."]).
Proof.
  intros pdfFiles r a' s'. unfold a', s', r, handleFiles.
  fold pdfFiles. split.
  - intros Hnil. unfold pdfFiles in Hnil. apply fmap_nil_inv in Hnil.
    by rewrite Hnil.
  - intros Hne. pose proof (openEach_spec pdfFiles s) as Hwp. unfold wp in Hwp.
    unfold pdfFiles in Hne, Hwp |- *.
    destruct (filter (λ u, isPdf u = true) files) as [|u us] eqn:Hf; [done|].
    destruct (openEach (file <$> u :: us) s) as [s1 []|s1 e];
      destruct Hwp as [Hop Hl]; cbn [fst snd]; split_and!; try done.
    + apply leading_all in Hl. by rewrite Hl.
    + by intros ?%leading_all.
    + destruct (forallb parses (file <$> u :: us)) eqn:Hall; [|done].
      by apply leading_all in Hall.
Qed.

End Files.

#[local] Existing Instance toyPdfLib.
#[local] Existing Instance toyPdfJs.

Lemma handleFiles_spec_witness :
  let files := [mkUpload (mkFile "notes.txt" [x01]) "text/plain";
                mkUpload (mkFile "A.PDF" [x02]) "";
                mkUpload (mkFile "broken.pdf" []) "application/pdf";
                mkUpload (mkFile "late.pdf" [x01]) "application/pdf"] in
  let r := handleFiles files State.state initial in
  length (documents r.1.2) = 1%nat ∧ State.isProcessing r.1.1 = false ∧
  ∃ alert, r.2 = [ConsoleError; alert].
Proof.
  intros files r.
  destruct (proj2 (handleFiles_spec files State.state initial))
    as ((ds & Hdocs & Hf & _) & Hproc & _ & _ & Hev).
  - vm_compute. discriminate.
  - split_and!.
    + vm_compute. reflexivity.
    + exact Hproc.
    + eexists. unfold r. rewrite Hev. reflexivity.
Defined.

End MainProps.

(** ** toolOperations.ts: cancelling [ocr] *)
Module OcrCancelProps.
Import ToolOperations OcrProps.

Lemma ocrLoop_cancelled engine cancelled n : ∀ k targets t c,
  (∀ j, (k ≤ j < k + n)%nat → cancelled j = false) →
  cancelled (k + n)%nat = true → (n < length targets)%nat →
  (ocrLoop engine cancelled k targets (t, c)).1 =
    t +:+ concatBlocks engine (take n targets) ∧
  submitted (ocrLoop engine cancelled k targets (t, c)).2 =
    submitted c ++ filter (λ p, reachesEngine engine p = true) (take n targets).
Proof.
  induction n as [|n IH]; intros k targets t c Hbefore Hat Hlen.
  - destruct targets as [|p rest]; [simpl in Hlen; lia|].
    cbn [ocrLoop]. rewrite Nat.add_0_r in Hat. rewrite Hat. simpl.
    by rewrite app_empty_r, app_nil_r.
  - destruct targets as [|p rest]; [simpl in Hlen; lia|].
    cbn [ocrLoop take]. rewrite Hbefore by lia.
    change (concatBlocks engine (p :: take n rest))
      with (pageBlock engine p +:+ concatBlocks engine (take n rest)).
    destruct (ocrPage engine p (t, c)) as [t' c'] eqn:Hp.
    destruct (IH (S k) rest t' c') as [-> ->].
    { intros j Hj. apply Hbefore. lia. }
    { by replace (S k + n)%nat with (k + S n)%nat by lia. }
    { simpl in Hlen. lia. }
    pose proof (ocrPage_fst engine p t c) as Hf.
    pose proof (ocrPage_submitted engine p t c) as Hs.
    rewrite Hp in Hf, Hs; simpl in Hf, Hs. rewrite Hf, Hs, app_assoc_s.
    split; [done|]. rewrite filter_cons.
    destruct (reachesEngine engine p); simpl.
    + by rewrite <- app_assoc.
    + by rewrite app_nil_r.
Qed.

(** X14.  When the cancel button is first seen pressed at the start of
    iteration [n], only the first [n] pages are handled: no later page
    is sent to the engine and the text holds the blocks of those [n]
    pages (the placeholder when they gave none).  The modal is still set
    to 100 percent and shown the text. *)
Theorem ocr_cancelled (engine : Z → PageRun) (cancelled : nat → bool)
    (selected : list Z) (currentPage : Z) (n : nat) :
  (∀ j, (j < n)%nat → cancelled j = false) → cancelled n = true →
  (n < length (ocrTargets selected currentPage))%nat →
  let handled := take n (ocrTargets selected currentPage) in
  let r := ocr engine cancelled selected currentPage in
  submitted r.2 = filter (λ p, reachesEngine engine p = true) handled ∧
  r.1 = (if bool_decide (concatBlocks engine handled = "")
         then "[No text recognized]" else concatBlocks engine handled) ∧
  ∃ calls, r.2 = calls ++ [UpdateProgress 100; UpdateText r.1].
Proof.
  intros Hbefore Hat Hlen handled r.
  destruct (ocrLoop_cancelled engine cancelled n 0
              (ocrTargets selected currentPage) "" [])
    as [Hfst Hsub]; [intros; apply Hbefore; lia|done|done|].
  split_and!.
  - unfold r. by rewrite ocr_submitted, Hsub.
  - unfold r. by rewrite ocr_fst, Hfst.
  - unfold r, ocr.
    destruct (ocrLoop engine cancelled 0 (ocrTargets selected currentPage) ("", []))
      as [t c]. cbn [fst snd]. exists c. by rewrite <- app_assoc.
Qed.

Lemma ocr_cancelled_witness :
  let engine := λ p : Z, Recognized [50] "text" in
  let cancelled := λ k : nat, bool_decide (1 ≤ k)%nat in
  submitted (ocr engine cancelled [0; 1; 2] 1).2 = [1].
Proof.
  intros engine cancelled.
  destruct (ocr_cancelled engine cancelled [0; 1; 2] 1 1) as (Hs & _).
  - intros j Hj. apply bool_decide_eq_false. lia.
  - reflexivity.
  - simpl. lia.
  - rewrite Hs. reflexivity.
Defined.

End OcrCancelProps.

(** ** Rotating and deleting pages (toolOperations.ts) *)
Module PageOperationsProps.
Import PageOperations.

(** *** Rotation *)
















(** *** Deleting pages *)

#[local] Instance descending_total : Total descending.
Proof. intros a b. unfold descending. lia. Qed.

#[local] Instance descending_trans : Transitive descending.
Proof. intros a b c. unfold descending. lia. Qed.









(** With a repeated index one more page goes than the caller named. *)
Lemma deletePages_repeated_index :
  deletePages (Some [1; 1]) [] 1 ["a"; "b"; "c"] = ["a"].
Proof. reflexivity. Qed.

End PageOperationsProps.

(** ** Render tasks, clearing and navigation (viewer.ts) *)
Module ViewerControlsProps.
Import Viewer ViewerProps ViewerControls.

(** A call on a viewer that tracks no task, up to its
    [await renderTask.promise]. *)
Lemma call_untracked env s :
  hasCanvas env = true → hasPdfJsDoc env = true → hasContext env = true →
  currentRenderTask s = None →
  secondCall env s =
    (mkViewer (Some (length (tasks s))) (tasks s ++ [Running]) None
              (events s ++ [GetPage (currentPage env);
                            RenderStarted (length (tasks s))]),
     AwaitRender (length (tasks s)) afterRender).
Proof.
  intros Hc Hd Hx Hcur.
  unfold secondCall, renderCurrentPage. rewrite Hc, Hd. simpl.
  unfold afterGetPage. rewrite Hx. simpl. rewrite Hcur.
  unfold startRender. simpl.
  unfold set_current, record, set_tasks; simpl.
  by rewrite <- !app_assoc.
Qed.

(** X18.  The reference to the tracked task is cleared by whichever call
    finishes, also by a call that has been superseded.  After a second
    call has cancelled the first and started its own task [t2], the first
    call resumes and sets [currentRenderTask] to [null] although [t2] is
    still running; a third call then starts its task without cancelling
    [t2]. *)
Theorem superseded_call_untracks_running_task
    (env env3 : RenderEnv) (s : ViewerState) (t1 : nat) (failure : option string) :
  hasCanvas env = true → hasPdfJsDoc env = true → hasContext env = true →
  hasCanvas env3 = true → hasPdfJsDoc env3 = true → hasContext env3 = true →
  currentRenderTask s = Some t1 → tasks s !! t1 = Some Running →
  let t2 := length (tasks s) in
  let t3 := S t2 in
  let c := secondCall env s in
  let d1 := settleAndResume (AwaitRender t1 afterRender) failure c.1 in
  let e := secondCall env3 d1.1 in
  currentRenderTask c.1 = Some t2 ∧
  d1.2 = Settled Fulfilled ∧
  currentRenderTask d1.1 = None ∧ tasks d1.1 !! t2 = Some Running ∧
  events e.1 = events s ++ [GetPage (currentPage env); CancelCalled t1;
                            RenderStarted t2; GetPage (currentPage env3);
                            RenderStarted t3] ∧
  tasks e.1 !! t2 = Some Running ∧ currentRenderTask e.1 = Some t3.
Proof.
  intros Hc Hd Hx Hc3 Hd3 Hx3 Hcur Hrun t2 t3 c d1 e.
  assert (Hlt : (t1 < length (tasks s))%nat) by by eapply lookup_lt_Some.
  assert (H1 : (<[t1:=Cancelled]> (tasks s) ++ [Running]) !! t1 = Some Cancelled).
  { rewrite lookup_app_l by (by rewrite length_insert).
    by apply list_lookup_insert_eq. }
  assert (H2 : (<[t1:=Cancelled]> (tasks s) ++ [Running]) !! t2 = Some Running).
  { rewrite lookup_app_r by (rewrite length_insert; unfold t2; lia).
    rewrite length_insert. unfold t2. by rewrite Nat.sub_diag. }
  assert (Hc' : c = secondCall env s) by done. clearbody c.
  rewrite (secondCall_running env s t1) in Hc' by done. fold t2 in Hc'.
  subst c. cbn [fst snd] in d1.
  assert (Hd1 : d1 = settleAndResume (AwaitRender t1 afterRender) failure
    (mkViewer (Some t2) (<[t1:=Cancelled]> (tasks s) ++ [Running]) None
       (events s ++ [GetPage (currentPage env); CancelCalled t1; RenderStarted t2])))
    by done.
  clearbody d1. rewrite settle_cancelled in Hd1 by done. subst d1.
  cbn [fst snd] in e.
  assert (He : e = secondCall env3 (set_current None
    (mkViewer (Some t2) (<[t1:=Cancelled]> (tasks s) ++ [Running]) None
       (events s ++ [GetPage (currentPage env); CancelCalled t1; RenderStarted t2]))))
    by done.
  clearbody e. rewrite call_untracked in He by done. subst e.
  cbn [fst snd events tasks currentRenderTask canvas set_current].
  rewrite length_app, length_insert. simpl length.
  replace (length (tasks s) + 1)%nat with t3 by (unfold t3, t2; lia).
  split_and!; try done.
  - by rewrite <- app_assoc.
  - rewrite lookup_app_l; [done|]. rewrite length_app, length_insert. simpl.
    unfold t2. lia.
Qed.

Lemma superseded_call_untracks_running_task_witness :
  let env := mkRenderEnv true true 1 true in
  let s := (secondCall env idle).1 in
  let c := secondCall env s in
  let d1 := settleAndResume (AwaitRender 0 afterRender) None c.1 in
  let e := secondCall env d1.1 in
  events e.1 = [GetPage 1; RenderStarted 0; GetPage 1; CancelCalled 0;
                RenderStarted 1; GetPage 1; RenderStarted 2] ∧
  tasks e.1 !! 1%nat = Some Running.
Proof.
  intros env s c d1 e.
  destruct (superseded_call_untracks_running_task env env s 0 None
              eq_refl eq_refl eq_refl eq_refl eq_refl eq_refl eq_refl eq_refl)
    as (_ & _ & _ & _ & Hev & Ht2 & _).
  split; [exact Hev|exact Ht2].
Defined.

(** X19.  [clearViewer] during a render: the tracked task is cancelled and the
    canvas is blank; when the waiting call resumes it swallows the
    cancellation, so its promise is fulfilled, nothing is logged and the
    canvas stays blank. *)
Theorem clearViewer_cancels_render
    (env : RenderEnv) (s : ViewerState) (t : nat) (failure : option string) :
  hasCanvas env = true → hasContext env = true →
  currentRenderTask s = Some t → tasks s !! t = Some Running →
  let s1 := clearViewer env s in
  let d := settleAndResume (AwaitRender t afterRender) failure s1 in
  tasks s1 !! t = Some Cancelled ∧ canvas s1 = None ∧
  currentRenderTask s1 = Some t ∧
  events s1 = events s ++ [CancelCalled t] ∧
  d.2 = Settled Fulfilled ∧ events d.1 = events s1 ∧
  canvas d.1 = None ∧ currentRenderTask d.1 = None.
Proof.
  intros Hc Hx Hcur Hrun s1 d.
  assert (Hs1 : s1 = mkViewer (Some t) (<[t := Cancelled]> (tasks s)) None
                       (events s ++ [CancelCalled t])).
  { unfold s1, clearViewer. rewrite Hc, Hx. simpl. rewrite Hcur.
    unfold cancelTask. simpl. rewrite Hrun.
    unfold set_tasks, record, set_canvas; simpl. by rewrite Hcur. }
  clearbody s1. subst s1.
  assert (Ht : <[t := Cancelled]> (tasks s) !! t = Some Cancelled).
  { apply list_lookup_insert_eq. by eapply lookup_lt_Some. }
  unfold d. rewrite settle_cancelled by done. done.
Qed.

Lemma clearViewer_cancels_render_witness :
  let env := mkRenderEnv true true 1 true in
  let s := (secondCall env idle).1 in
  tasks (clearViewer env s) !! 0%nat = Some Cancelled.
Proof.
  intros env s.
  exact (proj1 (clearViewer_cancels_render env s 0 None
                  eq_refl eq_refl eq_refl eq_refl)).
Defined.

(** *** Which errors count as cancellations *)

Lemma str_app_cons c (s t : string) : String c s +:+ t = String c (s +:+ t).
Proof. reflexivity. Qed.

Lemma str_app_nil_l (t : string) : "" +:+ t = t.
Proof. reflexivity. Qed.

Lemma containsCI_spec p err :
  containsCI p err = true ↔ ∃ pre w, err = pre +:+ w ∧ prefixCI p w = true.
Proof.
  induction err as [|c err IH].
  - cbn [containsCI]. rewrite orb_false_r. split.
    + intros Hp. by exists "", "".
    + intros (pre & w & Heq & Hp). destruct pre as [|c' pre].
      * rewrite str_app_nil_l in Heq. by subst w.
      * by rewrite str_app_cons in Heq.
  - cbn [containsCI]. rewrite orb_true_iff, IH. split.
    + intros [Hp|(pre & w & -> & Hp)].
      * by exists "", (String c err).
      * exists (String c pre), w. by rewrite str_app_cons.
    + intros (pre & w & Heq & Hp). destruct pre as [|c' pre].
      * left. rewrite str_app_nil_l in Heq. by subst w.
      * right. rewrite str_app_cons in Heq. injection Heq as -> ->. eauto.
Qed.

(** X20.  An error counts as a cancellation as soon as its text contains the
    letters c-a-n-c-e-l in any mix of cases.  A render that fails with such
    an error, without having been cancelled, is treated like a
    cancellation: nothing is logged and the promise is fulfilled, while
    the canvas keeps its old contents. *)
Theorem failure_mentioning_cancel_is_silent
    (s : ViewerState) (t : nat) (pre w : string) :
  tasks s !! t = Some Running → prefixCI "cancel" w = true →
  let err := pre +:+ w in
  let d := settleAndResume (AwaitRender t afterRender) (Some err) s in
  isCancel err = true ∧
  d.2 = Settled Fulfilled ∧ events d.1 = events s ∧ canvas d.1 = canvas s ∧
  tasks d.1 !! t = Some (Failed err) ∧ currentRenderTask d.1 = None.
Proof.
  intros Hrun Hw err d.
  assert (Herr : isCancel err = true).
  { apply containsCI_spec. by exists pre, w. }
  split; [done|]. unfold d, settleAndResume, settleTask. rewrite Hrun.
  unfold afterRender. rewrite Herr.
  cbn [fst snd events canvas tasks currentRenderTask set_current set_tasks].
  split_and!; try done.
  apply list_lookup_insert_eq. by eapply lookup_lt_Some.
Qed.

Lemma failure_mentioning_cancel_is_silent_witness :
  let s := (secondCall (mkRenderEnv true true 1 true) idle).1 in
  let d := settleAndResume (AwaitRender 0 afterRender)
             (Some "Error: worker CANCELLED the job") s in
  d.2 = Settled Fulfilled ∧ events d.1 = events s.
Proof.
  intros s d.
  destruct (failure_mentioning_cancel_is_silent s 0
              "Error: worker " "CANCELLED the job" eq_refl)
    as (_ & Hd & Hev & _).
  - vm_compute. reflexivity.
  - split; [exact Hd|exact Hev].
Defined.

(** *** Navigation *)

Lemma goToPage_range numPages pageNum current :
  1 ≤ numPages → 1 ≤ current ≤ numPages →
  1 ≤ (goToPage numPages pageNum current).1 ≤ numPages.
Proof. intros. unfold goToPage. case_decide; simpl; lia. Qed.

Lemma onKey_range numPages key current :
  1 ≤ numPages → 1 ≤ current ≤ numPages →
  1 ≤ (onKey numPages key current).1 ≤ numPages.
Proof. intros. destruct key; by apply goToPage_range. Qed.

(** X21.  Whatever navigation keys are pressed, the current page stays within
    the document; at the last page the forward keys, and at the first
    page the backward keys, change nothing and cause no rendering. *)
Theorem navigation_stays_in_document (numPages : Z) (keys : list NavKey)
    (current : Z) :
  1 ≤ numPages → 1 ≤ current ≤ numPages →
  1 ≤ onKeys numPages keys current ≤ numPages ∧
  nextPage numPages numPages = (numPages, false) ∧
  prevPage numPages 1 = (1, false) ∧
  (current < numPages → nextPage numPages current = (current + 1, true)) ∧
  (1 < current → prevPage numPages current = (current - 1, true)).
Proof.
  intros Hn Hc.
  assert (Hrange : 1 ≤ onKeys numPages keys current ≤ numPages).
  { unfold onKeys. revert current Hc.
    induction keys as [|key keys IH]; intros current Hc; simpl; [done|].
    apply IH. by apply onKey_range. }
  split; [exact Hrange|]. split_and!.
  - unfold nextPage, goToPage. cbv zeta. case_decide; [lia|done].
  - unfold prevPage, goToPage. cbv zeta. case_decide; [lia|done].
  - intros Hlt. unfold nextPage, goToPage. cbv zeta. case_decide; [|lia].
    f_equal. lia.
  - intros Hgt. unfold prevPage, goToPage. cbv zeta. case_decide; [|lia].
    f_equal. lia.
Qed.

Lemma navigation_stays_in_document_witness :
  1 ≤ onKeys 3 [ArrowRight; PageDown; ArrowRight; End_; ArrowLeft] 1 ≤ 3.
Proof.
  apply (navigation_stays_in_document 3
           [ArrowRight; PageDown; ArrowRight; End_; ArrowLeft] 1); lia.
Defined.

End ViewerControlsProps.
